(** * Ladder-logic evaluation engines of the PLC simulator

    A shallow embedding of the scan engines of the repository and the
    properties of its specification that concern them:

    - [LadderSimulation]  : class LadderSimulation of simulation-new.js, together
      with the queries of class LadderStructure it calls;
    - [LadderSimulator]   : class LadderSimulator (the ladder-simulator of the
      clean rewrite) over class LadderData;
    - [PLCSimulation]     : class PLCSimulation with the iterated
      executeScanCycle (grid based, feedback loop);
    - [PLCSimulationRung] : evaluateRung of class PLCSimulation in simulation.js.

    JavaScript objects used as dictionaries are finite maps; a missing key
    reads as [undefined], which every reader of the source turns into [false]
    with [|| false]. *)

From Stdlib Require Import ZArith String List Bool Lia.
From stdpp Require Import gmap strings list fin_maps sorting.

Local Open Scope string_scope.
Local Open Scope Z_scope.

(** ** Shared vocabulary *)

(** [address.startsWith(p)] *)
Definition startsWith (address p : string) : bool := String.prefix p address.

(** Component types; [Other] stands for every [type] string that is none of
    'NO', 'NC', 'OUT' (the [default] arm of the switches). *)
Inductive ComponentType := NO | NC | OUT | Other.

#[global] Instance ComponentType_eq_dec : EqDecision ComponentType.
Proof. solve_decision. Defined.

(** A component of a branch: { type, address, label, col }.  The label is
    display text only.  An unassigned component carries the empty address
    (the editor places components with address ''). *)
Record Component := mkComponent {
  ctype : ComponentType;
  address : string;
  col : Z
}.

(** A branch: { id, row, start_col, end_col, parent_branch_id,
    connection_col, components }; [None] is JavaScript's [null]. *)
Record Branch := mkBranch {
  id : Z;
  row : Z;
  start_col : Z;
  end_col : Z;
  parent_branch_id : option Z;
  connection_col : option Z;
  components : list Component
}.

Record Rung := mkRung {
  rung_id : Z;
  branches : list Branch
}.

(** [pinStates[address] || false] on a table of booleans, for an address
    that names no property the table inherits from Object.prototype: a pin
    address (which starts with "I:" or "O:") and the empty address name
    none. *)
Definition readPin (pins : gmap string bool) (a : string) : bool :=
  default false (pins !! a).

(** [Object.keys(pinStates).forEach(a => { if (a.startsWith('O:')) pinStates[a] = false })] *)
Definition clearOutputs (pins : gmap string bool) : gmap string bool :=
  map_imap (fun a v => Some (if startsWith a "O:" then false else v)) pins.

(** [Object.keys(pinStates).forEach(a => { pinStates[a] = false })] *)
Definition clearAll (pins : gmap string bool) : gmap string bool :=
  (fun _ => false) <$> pins.

(** [Array.prototype.sort(cmp)]: ECMAScript sorts stably, so for a consistent
    comparator the result is the one of a stable insertion sort: an element
    is placed before the first later element it does not exceed. *)
Section Sort.
Context {A : Type} (cmp : A -> A -> Z).

Fixpoint sort_insert (x : A) (l : list A) : list A :=
  match l with
  | [] => [x]
  | y :: l' => if cmp x y <=? 0 then x :: y :: l' else y :: sort_insert x l'
  end.

Fixpoint js_sort (l : list A) : list A :=
  match l with
  | [] => []
  | x :: l' => sort_insert x (js_sort l')
  end.
End Sort.

(** ** LadderStructure (simulation.js, second part: the queries the engine uses) *)
Module LadderStructure.

Record t := mk { rungs : list Rung }.

(** getAllBranches: the branches of all rungs, in order, in a fresh array. *)
Definition getAllBranches (ls : t) : list Branch :=
  flat_map branches (rungs ls).

(** findBranchById: the first branch with that id, rung by rung. *)
Definition findBranchById (ls : t) (i : Z) : option Branch :=
  List.find (fun b => id b =? i) (getAllBranches ls).

(** findBranchAtRow: the first branch at that row, rung by rung. *)
Definition findBranchAtRow (ls : t) (r : Z) : option Branch :=
  List.find (fun b => row b =? r) (getAllBranches ls).

End LadderStructure.

(** ** LadderSimulation (simulation-new.js) *)
Module LadderSimulation.

(** The engine's fields.  The keys `branch-${id}-col-${col}` and
    `${row}-${col}` are built from two integers and are distinct for
    distinct pairs, so the pair itself is the key. *)
Record State := mkState {
  isRunning : bool;
  pinStates : gmap string bool;
  branchPowerStates : gmap (Z * Z) bool;
  componentStates : gmap (Z * Z) bool
}.

Definition set_pins (st : State) (p : gmap string bool) : State :=
  mkState (isRunning st) p (branchPowerStates st) (componentStates st).
Definition set_power (st : State) (k : Z * Z) (v : bool) : State :=
  mkState (isRunning st) (pinStates st) (<[k := v]> (branchPowerStates st))
          (componentStates st).
Definition set_component (st : State) (k : Z * Z) (v : bool) : State :=
  mkState (isRunning st) (pinStates st) (branchPowerStates st)
          (<[k := v]> (componentStates st)).

Definition constructor : State := mkState false ∅ ∅ ∅.

(** initializePins(inputPins, outputPins), lines 17-27, on the pins' addresses. *)
Definition initializePins (inputPins outputPins : list string) (st : State) : State :=
  set_pins st
    (foldl (fun p a => <[a := false]> p)
           (foldl (fun p a => <[a := false]> p) (pinStates st) inputPins)
           outputPins).

(** getPinState(address), lines 84-86. *)
Definition getPinState (st : State) (a : string) : bool :=
  readPin (pinStates st) a.

(** { powerAfter, isActive } *)
Record Result := mkResult { powerAfter : bool; isActive : bool }.

(** evaluateComponent(component, powerBefore), lines 194-230.  The table
    holds booleans, so [pinState === true] is [pinState] and
    [pinState === false] is its negation. *)
Definition evaluateComponent (component : Component) (powerBefore : bool)
    (st : State) : Result * State :=
  let pinState := getPinState st (address component) in
  match ctype component with
  | NO => (mkResult (powerBefore && pinState) pinState, st)
  | NC => (mkResult (powerBefore && negb pinState) (negb pinState), st)
  | OUT =>
      (mkResult powerBefore powerBefore,
       if powerBefore
       then set_pins st (<[address component := true]> (pinStates st))
       else st)
  | Other => (mkResult powerBefore false, st)
  end.

(** The power recorded for a parent at the child's connection column.  A
    [null] connection column builds the key `branch-${id}-col-null`, which
    no write ever uses, so it reads [undefined || false]. *)
Definition parentPower (st : State) (parent : Branch) (c : option Z) : bool :=
  match c with
  | Some c => default false (branchPowerStates st !! (id parent, c))
  | None => false
  end.

(** The body of the loop over [branch.components], lines 165-183. *)
Definition componentStep (branch : Branch) (acc : bool * State)
    (component : Component) : bool * State :=
  let '(hasPower, st) := acc in
  let st := set_power st (id branch, col component) hasPower in
  let '(result, st) := evaluateComponent component hasPower st in
  let hasPower := powerAfter result in
  let st := set_component st (row branch, col component) (isActive result) in
  let st := set_power st (id branch, col component + 1) hasPower in
  (hasPower, st).

(** Lines 144-156 of evaluateBranch: the power a branch starts with. *)
Definition incomingPower (branch : Branch) (ladderStructure : LadderStructure.t)
    (st : State) : bool :=
  match parent_branch_id branch with
  | None => true
  | Some p =>
      match LadderStructure.findBranchById ladderStructure p with
      | Some parentBranch => parentPower st parentBranch (connection_col branch)
      | None => false
      end
  end.

(** evaluateBranch(branch, ladderStructure), lines 140-188. *)
Definition evaluateBranch (branch : Branch) (ladderStructure : LadderStructure.t)
    (st : State) : State :=
  let hasPower := incomingPower branch ladderStructure st in
  let st := set_power st (id branch, start_col branch) hasPower in
  let '(hasPower, st) := foldl (componentStep branch) (hasPower, st) (components branch) in
  set_power st (id branch, end_col branch) hasPower.

(** The comparator handed to [branches.sort], lines 125-129. *)
Definition branchOrder (a b : Branch) : Z :=
  match parent_branch_id a, parent_branch_id b with
  | None, Some _ => -1
  | Some _, None => 1
  | _, _ => row a - row b
  end.

Definition sortedBranches (ls : LadderStructure.t) : list Branch :=
  js_sort branchOrder (LadderStructure.getAllBranches ls).

(** evaluateLadder(), lines 115-135; [None] is a missing
    [window.ladderStructure]. *)
Definition evaluateLadder (ls : option LadderStructure.t) (st : State) : State :=
  match ls with
  | None => st
  | Some ladderStructure =>
      foldl (fun st branch => evaluateBranch branch ladderStructure st)
            st (sortedBranches ladderStructure)
  end.

(** executeScan(), lines 91-110 (the redraw is the renderer's business). *)
Definition executeScan (ls : option LadderStructure.t) (st : State) : State :=
  evaluateLadder ls (mkState (isRunning st) (clearOutputs (pinStates st)) ∅ ∅).

Definition start (ls : option LadderStructure.t) (st : State) : State :=
  executeScan ls (mkState true (pinStates st) (branchPowerStates st) (componentStates st)).

Definition stop (st : State) : State := mkState false (pinStates st) ∅ ∅.

Definition reset (st : State) : State :=
  let st := stop st in set_pins st (clearAll (pinStates st)).

(** toggleInput(address), lines 66-79: the returned value and the new state.
    [!pinStates[address]] of a missing entry is [!undefined = true]. *)
Definition toggleInput (ls : option LadderStructure.t) (a : string) (st : State)
    : bool * State :=
  if startsWith a "I:" || startsWith a "O:" then
    let st := set_pins st (<[a := negb (readPin (pinStates st) a)]> (pinStates st)) in
    let st := if isRunning st then executeScan ls st else st in
    (readPin (pinStates st) a, st)
  else (false, st).

(** isWireEnergized(row, col), lines 235-249. *)
Definition isWireEnergized (ls : option LadderStructure.t) (st : State)
    (r c : Z) : bool :=
  match ls with
  | None => false
  | Some ladderStructure =>
      match LadderStructure.findBranchAtRow ladderStructure r with
      | None => false
      | Some branch =>
          if (start_col branch <=? c) && (c <=? end_col branch)
          then default false (branchPowerStates st !! (id branch, c))
          else false
      end
  end.

(** isComponentActive(row, col), lines 254-257. *)
Definition isComponentActive (st : State) (r c : Z) : bool :=
  default false (componentStates st !! (r, c)).

(** *** The coil log of a pass

    Not part of the engine: the list, in evaluation order, of the coils
    (OUT components) evaluated during a pass, each with its address and
    the power that reached it.  It is computed by running the engine's
    own steps. *)
Definition coilEvent (c : Component) (powerBefore : bool) : list (string * bool) :=
  match ctype c with
  | OUT => [(address c, powerBefore)]
  | _ => []
  end.

Fixpoint componentsLog (branch : Branch) (l : list Component)
    (hasPower : bool) (st : State) : list (string * bool) :=
  match l with
  | [] => []
  | c :: l' =>
      coilEvent c hasPower ++
      componentsLog branch l' (fst (componentStep branch (hasPower, st) c))
                    (snd (componentStep branch (hasPower, st) c))
  end.

Definition branchLog (branch : Branch) (ls : LadderStructure.t) (st : State)
    : list (string * bool) :=
  let hasPower := incomingPower branch ls st in
  componentsLog branch (components branch) hasPower
                (set_power st (id branch, start_col branch) hasPower).

Fixpoint ladderLog (ls : LadderStructure.t) (l : list Branch) (st : State)
    : list (string * bool) :=
  match l with
  | [] => []
  | b :: l' => branchLog b ls st ++ ladderLog ls l' (evaluateBranch b ls st)
  end.

Definition scanLog (ls : option LadderStructure.t) (st : State)
    : list (string * bool) :=
  match ls with
  | None => []
  | Some s =>
      ladderLog s (sortedBranches s)
                (mkState (isRunning st) (clearOutputs (pinStates st)) ∅ ∅)
  end.

(** The keys of [branchPowerStates] that evaluateBranch writes for a branch. *)
Definition branchKeys (branch : Branch) : list (Z * Z) :=
  (id branch, start_col branch)
  :: flat_map (fun c => [(id branch, col c); (id branch, col c + 1)])
              (components branch)
  ++ [(id branch, end_col branch)].

(** A set of branch ids is unrooted when every branch carrying one of them
    has a parent id that names no branch or names a branch of the set: the
    parent chains that start in the set never reach a root. *)
Definition unrooted (ls : LadderStructure.t) (U : Z -> Prop) : Prop :=
  forall b, b ∈ LadderStructure.getAllBranches ls -> U (id b) ->
    exists p, parent_branch_id b = Some p /\
              (LadderStructure.findBranchById ls p = None \/ U p).

Definition noPowerIn (U : Z -> Prop) (st : State) : Prop :=
  forall i c, U i -> default false (branchPowerStates st !! (i, c)) = false.

(** Every coil of the diagram is bound to an output address. *)
Definition coilsOnOutputs (ls : LadderStructure.t) : Prop :=
  forall b c, b ∈ LadderStructure.getAllBranches ls -> c ∈ components b ->
    ctype c = OUT -> startsWith (address c) "O:" = true.

(** What the rendering collaborator can observe of a state. *)
Definition sameObservations (ls : option LadderStructure.t) (s1 s2 : State) : Prop :=
  (forall a, getPinState s1 a = getPinState s2 a) /\
  (forall r c, isWireEnergized ls s1 r c = isWireEnergized ls s2 r c) /\
  (forall r c, isComponentActive s1 r c = isComponentActive s2 r c).

(** Two states that differ at most in which false entries their pin tables
    spell out. *)
Definition alike (s1 s2 : State) : Prop :=
  isRunning s1 = isRunning s2 /\
  (forall a, getPinState s1 a = getPinState s2 a) /\
  branchPowerStates s1 = branchPowerStates s2 /\
  componentStates s1 = componentStates s2.

(** Some coil of the diagram is bound to the address [a]. *)
Definition coilOf (ls : LadderStructure.t) (a : string) : Prop :=
  exists b c, b ∈ LadderStructure.getAllBranches ls /\ c ∈ components b /\
              ctype c = OUT /\ address c = a.

(** Some coil bound to [a] was reached by power. *)
Definition poweredCoil (a : string) (log : list (string * bool)) : bool :=
  existsb (fun e => bool_decide (fst e = a) && snd e) log.

(** The outcome of a scan.  The source has no [throw]: every scan
    completes.  The two error names are the ones of the specification's
    error taxonomy. *)
Inductive ScanError := DanglingParentError | CyclicTopologyError.

Inductive Outcome :=
| Completed (st : State)
| Failed (e : ScanError).

Definition scan (ls : option LadderStructure.t) (st : State) : Outcome :=
  Completed (executeScan ls st).

End LadderSimulation.

(** ** LadderData (the data manager of the clean rewrite) *)
Module LadderData.

(** Class LadderData only ever uses [rungs[0]]; [pins.inputs] and
    [pins.outputs] are kept by address. *)
Record t := mk {
  branches0 : list Branch;
  inputs : list string;
  outputs : list string
}.

(** getAllBranches returns the array [rungs[0].branches] itself. *)
Definition getAllBranches (d : t) : list Branch := branches0 d.

(** [getAllBranches().find(b => b.id === parent_branch_id)]; no id is
    [=== null]. *)
Definition findById (d : t) (p : option Z) : option Branch :=
  match p with
  | Some i => List.find (fun b => id b =? i) (getAllBranches d)
  | None => None
  end.

End LadderData.

(** ** LadderSimulator (the ladder simulator of the clean rewrite) *)
Module LadderSimulator.

(** The keys `${row}-${col}` of wireStates and componentStates are the
    pairs themselves.  [ladderData] is the object shared with the editor;
    evaluateLadder sorts its branch array in place. *)
Record State := mkState {
  ladderData : LadderData.t;
  isRunning : bool;
  pinStates : gmap string bool;
  wireStates : gmap (Z * Z) bool;
  componentStates : gmap (Z * Z) bool
}.

Definition constructor (d : LadderData.t) : State := mkState d false ∅ ∅ ∅.

Definition set_pins (st : State) (p : gmap string bool) : State :=
  mkState (ladderData st) (isRunning st) p (wireStates st) (componentStates st).
Definition set_wire (st : State) (k : Z * Z) : State :=
  mkState (ladderData st) (isRunning st) (pinStates st)
          (<[k := true]> (wireStates st)) (componentStates st).
Definition set_component (st : State) (k : Z * Z) : State :=
  mkState (ladderData st) (isRunning st) (pinStates st) (wireStates st)
          (<[k := true]> (componentStates st)).

Definition getPinState (st : State) (a : string) : bool := readPin (pinStates st) a.

Definition setPinState (a : string) (v : bool) (st : State) : State :=
  set_pins st (<[a := v]> (pinStates st)).

Definition initializePins (st : State) : State :=
  set_pins st
    (foldl (fun p a => <[a := false]> p)
           (foldl (fun p a => <[a := false]> p) (pinStates st)
                  (LadderData.inputs (ladderData st)))
           (LadderData.outputs (ladderData st))).

Definition isWireEnergized (st : State) (r c : Z) : bool :=
  default false (wireStates st !! (r, c)).

Definition isComponentActive (st : State) (r c : Z) : bool :=
  default false (componentStates st !! (r, c)).

(** evaluateComponent(component, inputPower): the returned power and the
    new state. *)
Definition evaluateComponent (component : Component) (inputPower : bool)
    (st : State) : bool * State :=
  if negb inputPower then
    (false,
     match ctype component with
     | OUT => setPinState (address component) false st
     | _ => st
     end)
  else
    match ctype component with
    | NO => (getPinState st (address component), st)
    | NC => (negb (getPinState st (address component)), st)
    | OUT => (true, setPinState (address component) true st)
    | Other => (false, st)
    end.

(** evaluatePowerAtColumn(branch, col): the loop leaves at the first
    component at or beyond [col], and as soon as the power is gone. *)
Fixpoint powerAtColumnLoop (st : State) (l : list Component) (c : Z)
    (hasPower : bool) : bool :=
  match l with
  | [] => hasPower
  | component :: l' =>
      if c <=? col component then hasPower
      else
        let hasPower :=
          match ctype component with
          | NO => hasPower && getPinState st (address component)
          | NC => hasPower && negb (getPinState st (address component))
          | _ => hasPower
          end in
        if negb hasPower then hasPower
        else powerAtColumnLoop st l' c hasPower
  end.

Definition evaluatePowerAtColumn (st : State) (branch : Branch) (c : Z) : bool :=
  powerAtColumnLoop st (components branch) c (row branch =? 0).

(** [for (let col = from; col < to; col++) if (currentPower) wireStates[..] = true] *)
Definition markWires (r from to : Z) (currentPower : bool) (st : State) : State :=
  if currentPower
  then foldl (fun st c => set_wire st (r, c)) st (seqZ from (to - from))
  else st.

(** The body of the loop over [branch.components]; the accumulator is
    (currentPower, currentCol, state). *)
Definition componentStep (branch : Branch) (acc : bool * Z * State)
    (component : Component) : bool * Z * State :=
  let '(currentPower, currentCol, st) := acc in
  let st := markWires (row branch) currentCol (col component) currentPower st in
  let '(componentPower, st) := evaluateComponent component currentPower st in
  let st :=
    if componentPower then
      set_wire (set_component st (row branch, col component))
               (row branch, col component)
    else if bool_decide (ctype component = NC) && currentPower then
      set_component st (row branch, col component)
    else st in
  (componentPower, col component + 1, st).

Definition evaluateBranch (branch : Branch) (st : State) : State :=
  let hasPower :=
    if row branch =? 0 then true
    else
      match connection_col branch with
      | Some c =>
          match LadderData.findById (ladderData st) (parent_branch_id branch) with
          | Some parentBranch => evaluatePowerAtColumn st parentBranch c
          | None => false
          end
      | None => false
      end in
  if negb hasPower then st
  else
    let st := set_wire st (row branch, start_col branch) in
    let '(currentPower, currentCol, st) :=
      foldl (componentStep branch) (true, start_col branch, st) (components branch) in
    markWires (row branch) currentCol (end_col branch + 1) currentPower st.

(** The comparator handed to [branches.sort]. *)
Definition byRow (a b : Branch) : Z := row a - row b.

(** evaluateLadder: the sort is in place, on the array that ladderData
    holds, so the data manager sees the sorted order from then on. *)
Definition evaluateLadder (st : State) : State :=
  let branches := js_sort byRow (LadderData.getAllBranches (ladderData st)) in
  let d := ladderData st in
  let st := mkState (LadderData.mk branches (LadderData.inputs d) (LadderData.outputs d))
                    (isRunning st) (pinStates st) (wireStates st)
                    (componentStates st) in
  foldl (fun st branch => evaluateBranch branch st) st branches.

Definition executeScan (st : State) : State :=
  let pins := foldl (fun p a => <[a := false]> p) (pinStates st)
                    (LadderData.outputs (ladderData st)) in
  evaluateLadder (mkState (ladderData st) (isRunning st) pins ∅ ∅).

Definition start (st : State) : State :=
  executeScan (mkState (ladderData st) true (pinStates st) (wireStates st)
                       (componentStates st)).

Definition stop (st : State) : State :=
  mkState (ladderData st) false (pinStates st) ∅ ∅.

Definition reset (st : State) : State := initializePins (stop st).

Definition toggleInput (a : string) (st : State) : State :=
  if negb (isRunning st) then st
  else executeScan (set_pins st (<[a := negb (readPin (pinStates st) a)]> (pinStates st))).

End LadderSimulator.

(** ** The editor grid of the grid-based engines *)
Module Grid.

(** Cell types; [Other] stands for every other [type] value. *)
Inductive CellType := HLINE | VLINE | BOTH | NO | NC | OUT | Other.

#[global] Instance CellType_eq_dec : EqDecision CellType.
Proof. solve_decision. Defined.

(** A cell { type, address, label }; an unassigned address is the empty
    string, which is falsy like [undefined]. *)
Record Cell := mkCell { type : CellType; address : string }.

(** [window.grid]: rows of cells, [None] for an empty cell ([null]). *)
Definition t := list (list (option Cell)).

(** [window.grid], [window.ROWS], [window.COLS].  The editor keeps the
    grid at ROWS x COLS; the loops of the engines index it within these
    bounds. *)
Record Window := mkWindow {
  grid : option t;
  ROWS : nat;
  COLS : nat
}.

(** [grid[row][col]]; an index beyond a row reads [undefined], which, like
    [null], is an empty cell. *)
Definition cellAt (g : t) (r c : nat) : option Cell :=
  match g !! r with
  | Some cells => match cells !! c with
                  | Some cell => cell
                  | None => None
                  end
  | None => None
  end.

(** [!window.grid || !window.ROWS || !window.COLS] is false. *)
Definition available (w : Window) : option t :=
  match grid w with
  | Some g => if (ROWS w =? 0)%nat || (COLS w =? 0)%nat then None else Some g
  | None => None
  end.

(** [cell && (cell.type === 'VLINE' || cell.type === 'BOTH')] *)
Definition isVertical (cell : option Cell) : bool :=
  match cell with
  | Some c => match type c with VLINE | BOTH => true | _ => false end
  | None => false
  end.

End Grid.

(** ** PLCSimulation of simulation.js (rung by rung, single pass) *)
Module PLCSimulationRung.
Import Grid.

(** The suffix of a wireStates key `${row}-${col}-${position}`. *)
Inductive Position := PosIn | PosOut | PosBranchStart.

#[global] Instance Position_eq_dec : EqDecision Position.
Proof. solve_decision. Defined.

#[global] Instance Position_countable : Countable Position.
Proof.
  refine (inj_countable'
            (fun p => match p with PosIn => 0%nat | PosOut => 1%nat
                              | PosBranchStart => 2%nat end)
            (fun n => match n with 0%nat => PosIn | 1%nat => PosOut
                              | _ => PosBranchStart end) _).
  by intros [].
Defined.

Record State := mkState {
  isRunning : bool;
  pinStates : gmap string bool;
  wireStates : gmap (nat * nat * Position) bool;
  componentStates : gmap (nat * nat) bool
}.

Definition constructor : State := mkState false ∅ ∅ ∅.

Definition set_pin (st : State) (a : string) (v : bool) : State :=
  mkState (isRunning st) (<[a := v]> (pinStates st)) (wireStates st)
          (componentStates st).
Definition set_wire (st : State) (r c : nat) (p : Position) (v : bool) : State :=
  mkState (isRunning st) (pinStates st) (<[(r, c, p) := v]> (wireStates st))
          (componentStates st).
Definition set_component (st : State) (r c : nat) (v : bool) : State :=
  mkState (isRunning st) (pinStates st) (wireStates st)
          (<[(r, c) := v]> (componentStates st)).

Definition getPinState (st : State) (a : string) : bool := readPin (pinStates st) a.

Definition wire (st : State) (r c : nat) (p : Position) : bool :=
  default false (wireStates st !! (r, c, p)).

(** checkBranchPower(grid, row, col): walks down the rows below [row]
    while they hold a vertical line at [col]. *)
Fixpoint checkBranchPowerFrom (st : State) (rows : list (list (option Cell)))
    (r c : nat) : bool :=
  match rows with
  | [] => false
  | cells :: rows' =>
      if isVertical (match cells !! c with Some cell => cell | None => None end)
      then if wire st r c PosOut then true
           else checkBranchPowerFrom st rows' (S r) c
      else false
  end.

Definition checkBranchPower (st : State) (g : Grid.t) (r c : nat) : bool :=
  checkBranchPowerFrom st (drop (S r) g) (S r) c.

(** The body of the column loop of evaluateRung; the accumulator is
    (powerState, state). *)
Definition rungStep (g : Grid.t) (r : nat) (acc : bool * State) (c : nat)
    : bool * State :=
  let '(powerState, st) := acc in
  let st := set_wire st r c PosIn powerState in
  match cellAt g r c with
  | None => (powerState, set_wire st r c PosOut powerState)
  | Some cell =>
      match type cell with
      | HLINE | BOTH => (powerState, set_wire st r c PosOut powerState)
      | VLINE =>
          let branchPower := checkBranchPower st g r c in
          let powerState := powerState || branchPower in
          (powerState, set_wire st r c PosOut powerState)
      | NO =>
          let pinState := getPinState st (address cell) in
          let st := set_component st r c (powerState && pinState) in
          let powerState := powerState && pinState in
          (powerState, set_wire st r c PosOut powerState)
      | NC =>
          let pinState := getPinState st (address cell) in
          let st := set_component st r c (powerState && negb pinState) in
          let powerState := powerState && negb pinState in
          (powerState, set_wire st r c PosOut powerState)
      | OUT =>
          let st :=
            if startsWith (address cell) "O:"
            then set_component (set_pin st (address cell) powerState) r c powerState
            else st in
          (powerState, set_wire st r c PosOut powerState)
      | Other => (powerState, st)
      end
  end.

Definition evaluateRung (g : Grid.t) (r cols : nat) (st : State) : State :=
  snd (foldl (rungStep g r) (true, st) (seq 0 cols)).

(** The body of the rightward loop of evaluateBranchRow. *)
Definition branchRowStep (g : Grid.t) (r : nat) (acc : bool * State) (c : nat)
    : bool * State :=
  let '(powerState, st) := acc in
  let st := set_wire st r c PosIn powerState in
  match cellAt g r c with
  | None => (powerState, set_wire st r c PosOut powerState)
  | Some cell =>
      match type cell with
      | HLINE | BOTH => (powerState, set_wire st r c PosOut powerState)
      | VLINE =>
          let upperCell := match r with
                           | O => None
                           | S r' => cellAt g r' c
                           end in
          let st :=
            match upperCell with
            | Some _ =>
                if powerState
                then set_wire st (r - 1) c PosOut
                              (wire st (r - 1) c PosOut || powerState)
                else st
            | None => st
            end in
          (powerState, set_wire st r c PosOut powerState)
      | NO =>
          let pinState := getPinState st (address cell) in
          let st := set_component st r c (powerState && pinState) in
          let powerState := powerState && pinState in
          (powerState, set_wire st r c PosOut powerState)
      | NC =>
          let pinState := getPinState st (address cell) in
          let st := set_component st r c (powerState && negb pinState) in
          let powerState := powerState && negb pinState in
          (powerState, set_wire st r c PosOut powerState)
      | OUT =>
          let st :=
            if startsWith (address cell) "O:"
            then
              let currentState := getPinState st (address cell) in
              set_component (set_pin st (address cell) (currentState || powerState))
                            r c powerState
            else st in
          (powerState, set_wire st r c PosOut powerState)
      | Other => (powerState, st)
      end
  end.

(** The leftward loop of evaluateBranchRow, from [startCol - 1] down to 0:
    it stops at the first cell that is not a horizontal line. *)
Fixpoint extendLeft (g : Grid.t) (r : nat) (n : nat) (st : State) : State :=
  match n with
  | O => st
  | S c =>
      match cellAt g r c with
      | Some cell =>
          match type cell with
          | HLINE | BOTH =>
              extendLeft g r c (set_wire (set_wire st r c PosIn true) r c PosOut true)
          | _ => st
          end
      | None => st
      end
  end.

Definition evaluateBranchRow (g : Grid.t) (r startCol cols : nat) (st : State)
    : State :=
  let st := snd (foldl (branchRowStep g r) (true, st)
                       (seq startCol (cols - startCol))) in
  extendLeft g r startCol st.

(** evaluateBranches: column by column, row by row, every vertical line
    that power enters starts the row below it. *)
Definition evaluateBranches (g : Grid.t) (rows cols : nat) (st : State) : State :=
  foldl (fun st c =>
           foldl (fun st r =>
                    if isVertical (cellAt g r c) then
                      if wire st r c PosIn then
                        evaluateBranchRow g (S r) c cols
                          (set_wire st (S r) c PosBranchStart true)
                      else st
                    else st)
                 st (seq 0 (rows - 1)))
        st (seq 0 cols).

Definition evaluateLadder (w : Window) (st : State) : State :=
  match available w with
  | None => st
  | Some g => evaluateBranches g (ROWS w) (COLS w) (evaluateRung g 0 (COLS w) st)
  end.

Definition executeScanCycle (w : Window) (st : State) : State :=
  evaluateLadder w (mkState (isRunning st) (pinStates st) ∅ ∅).

(** isWireEnergized(row, col, position = 'out') *)
Definition isWireEnergized (st : State) (r c : nat) : bool := wire st r c PosOut.

Definition isComponentActive (st : State) (r c : nat) : bool :=
  default false (componentStates st !! (r, c)).

End PLCSimulationRung.

(** ** PLCSimulation with the feedback loop (grid based, iterated scan) *)
Module PLCSimulation.
Import Grid.

Record State := mkState {
  isRunning : bool;
  pinStates : gmap string bool;
  wireStates : gmap (nat * nat) bool;
  componentStates : gmap (nat * nat) bool
}.

Definition constructor : State := mkState false ∅ ∅ ∅.

Definition set_pin (st : State) (a : string) (v : bool) : State :=
  mkState (isRunning st) (<[a := v]> (pinStates st)) (wireStates st)
          (componentStates st).
Definition set_wire (st : State) (k : nat * nat) (v : bool) : State :=
  mkState (isRunning st) (pinStates st) (<[k := v]> (wireStates st))
          (componentStates st).
Definition set_component (st : State) (k : nat * nat) (v : bool) : State :=
  mkState (isRunning st) (pinStates st) (wireStates st)
          (<[k := v]> (componentStates st)).

Definition initializePins (inputPins outputPins : list string) (st : State) : State :=
  mkState (isRunning st)
    (foldl (fun p a => <[a := false]> p)
           (foldl (fun p a => <[a := false]> p) (pinStates st) inputPins)
           outputPins)
    (wireStates st) (componentStates st).

Definition getPinState (st : State) (a : string) : bool := readPin (pinStates st) a.

Definition isWireEnergized (st : State) (r c : nat) : bool :=
  default false (wireStates st !! (r, c)).

Definition isComponentActive (st : State) (r c : nat) : bool :=
  default false (componentStates st !! (r, c)).

(** *** initializeBranchPower *)

(** [!cell || type is HLINE, VLINE or BOTH] *)
Definition isWire (cell : option Cell) : bool :=
  match cell with
  | None => true
  | Some c => match type c with HLINE | VLINE | BOTH => true | _ => false end
  end.

(** [type is NO, NC or OUT] *)
Definition isComponent (cell : option Cell) : bool :=
  match cell with
  | Some c => match type c with NO | NC | OUT => true | _ => false end
  | None => false
  end.

(** rowPowerColumns, in the insertion order of the Map and of its Sets:
    row 0 with column 0, then every row below a row that holds vertical
    lines, with the columns of those lines. *)
Definition rowPowerColumns (g : Grid.t) (rows cols : nat) : list (nat * list nat) :=
  (0%nat, [0%nat])
  :: omap (fun r =>
             match filter (fun c => isVertical (cellAt g r c) = true) (seq 0 cols) with
             | [] => None
             | cs => Some (S r, cs)
             end)
          (seq 0 (rows - 1)).

(** Energize a row from [from] on: wires are marked, the first component
    stops the loop; on row 0 any cell that is not a wire stops it, on the
    other rows a cell of another kind is stepped over. *)
Fixpoint energizeFrom (g : Grid.t) (r : nat) (cs : list nat) (st : State) : State :=
  match cs with
  | [] => st
  | c :: cs' =>
      if isWire (cellAt g r c) then energizeFrom g r cs' (set_wire st (r, c) true)
      else if (r =? 0)%nat then st
      else if isComponent (cellAt g r c) then st
      else energizeFrom g r cs' st
  end.

(** The leftmost column of a row that holds a horizontal line or a
    component; 0 when there is none. *)
Definition branchStartCol (g : Grid.t) (r cols : nat) : nat :=
  match List.find (fun c =>
           match cellAt g r c with
           | Some cell => match type cell with
                          | HLINE | BOTH | NO | NC | OUT => true
                          | _ => false
                          end
           | None => false
           end) (seq 0 cols) with
  | Some c => c
  | None => 0%nat
  end.

Definition initializeBranchPower (w : Window) (st : State) : State :=
  match available w with
  | None => st
  | Some g =>
      foldl (fun st '(r, powerCols) =>
               if (r =? 0)%nat then energizeFrom g r (seq 0 (COLS w)) st
               else
                 foldl (fun st _ =>
                          let startCol := branchStartCol g r (COLS w) in
                          energizeFrom g r (seq startCol (COLS w - startCol)) st)
                       st powerCols)
            st (rowPowerColumns g (ROWS w) (COLS w))
  end.

(** *** evaluateLadder *)

(** isConnectedToLeftRail(grid, targetRow, col, rows) *)
Definition isConnectedToLeftRail (g : Grid.t) (targetRow c : nat) : bool :=
  if (targetRow =? 0)%nat then true
  else
    existsb (fun checkCol =>
      existsb (fun r =>
        isVertical (cellAt g r checkCol)
        && forallb (fun checkR => isVertical (cellAt g checkR checkCol))
                   (seq r (targetRow - r)))
        (seq 0 targetRow))
      (seq 0 (S c)).

(** checkVerticalPower(grid, row, col) *)
Definition checkVerticalPower (st : State) (g : Grid.t) (r c : nat) : bool :=
  match c, r with
  | S c', S r' =>
      isVertical (cellAt g r' c') && default false (wireStates st !! (r', c'))
  | _, _ => false
  end.

(** evaluateCell(grid, row, col): whether power passes, and the new state. *)
Definition evaluateCell (g : Grid.t) (r c : nat) (st : State) : bool * State :=
  match cellAt g r c with
  | None => ((r =? 0)%nat, st)
  | Some cell =>
      match type cell with
      | HLINE | BOTH => (true, st)
      | VLINE => ((r =? 0)%nat, st)
      | NO =>
          let noInputState := getPinState st (address cell) in
          (noInputState, set_component st (r, c) noInputState)
      | NC =>
          let ncConducts := negb (getPinState st (address cell)) in
          (ncConducts, set_component st (r, c) ncConducts)
      | OUT =>
          let st := if startsWith (address cell) "O:"
                    then set_pin st (address cell) true else st in
          (true, set_component st (r, c) true)
      | Other => (true, st)
      end
  end.

(** handleParallelPaths(grid, col, rows, columnPower), on the array. *)
Definition handleParallelPaths (g : Grid.t) (c rows : nat) (columnPower : list bool)
    : list bool :=
  foldl (fun cp r =>
           if isVertical (cellAt g r c) then
             let cp := if default false (cp !! r) then <[S r := true]> cp else cp in
             if default false (cp !! S r) then <[r := true]> cp else cp
           else cp)
        columnPower (seq 0 (rows - 1)).

(** The body of the row loop of evaluateColumn; the accumulator is
    (columnPower, state). *)
Definition columnStep (g : Grid.t) (c : nat) (acc : list bool * State) (r : nat)
    : list bool * State :=
  let '(columnPower, st) := acc in
  let hasPower :=
    if (c =? 0)%nat then
      if (0 <? r)%nat then isConnectedToLeftRail g r c else true
    else
      default false (wireStates st !! (r, (c - 1)%nat))
      || checkVerticalPower st g r c in
  let '(hasPower, st) :=
    if hasPower then evaluateCell g r c st else (hasPower, st) in
  ((columnPower ++ [hasPower])%list, st).

Definition evaluateColumn (g : Grid.t) (c rows : nat) (st : State)
    : list bool * State :=
  let '(columnPower, st) := foldl (columnStep g c) ([], st) (seq 0 rows) in
  (handleParallelPaths g c rows columnPower, st).

Definition evaluateLadder (w : Window) (st : State) : State :=
  match available w with
  | None => st
  | Some g =>
      foldl (fun st c =>
               let '(columnHasPower, st) := evaluateColumn g c (ROWS w) st in
               foldl (fun st r =>
                        set_wire st (r, c) (default false (columnHasPower !! r)))
                     st (seq 0 (ROWS w)))
            st (seq 0 (COLS w))
  end.

(** *** executeScanCycle *)

Definition MAX_ITERATIONS : nat := 10.

(** The output pins with their values: previousOutputStates. *)
Definition outputStates (pins : gmap string bool) : gmap string bool :=
  filter (fun kv => startsWith (fst kv) "O:" = true) pins.

(** One turn of the loop body, up to and including evaluateLadder. *)
Definition iteration (w : Window) (st : State) : State :=
  evaluateLadder w
    (initializeBranchPower w
       (mkState (isRunning st) (clearOutputs (pinStates st)) ∅ ∅)).

(** [stateChanged] at the end of a turn: some output pin of the table holds
    a value that [!==] the saved one (a pin that was not in the table
    before has no saved value and differs). *)
Definition stateChanged (previousOutputStates pins : gmap string bool) : bool :=
  existsb (fun kv => startsWith (fst kv) "O:"
                     && negb (bool_decide (previousOutputStates !! fst kv = Some (snd kv))))
          (map_to_list pins).

(** [while (stateChanged && iterations < MAX_ITERATIONS)], with [budget]
    the turns still allowed; returns the number of turns taken and the
    final state. *)
Fixpoint scanLoop (w : Window) (budget iterations : nat) (st : State)
    : nat * State :=
  match budget with
  | O => (iterations, st)
  | S budget' =>
      let previousOutputStates := outputStates (pinStates st) in
      let st' := iteration w st in
      if stateChanged previousOutputStates (pinStates st')
      then scanLoop w budget' (S iterations) st'
      else (S iterations, st')
  end.

Definition executeScanCycle (w : Window) (st : State) : nat * State :=
  scanLoop w MAX_ITERATIONS 0 st.

Definition start (w : Window) (st : State) : State :=
  snd (executeScanCycle w
         (mkState true (pinStates st) (wireStates st) (componentStates st))).

Definition stop (st : State) : State :=
  mkState false (clearOutputs (pinStates st)) ∅ ∅.

Definition reset (st : State) : State :=
  let st := stop st in
  mkState (isRunning st) (clearAll (pinStates st)) (wireStates st)
          (componentStates st).

(** *** Vocabulary of the properties *)

(** The state after [j] turns of the loop. *)
Definition afterTurns (w : Window) (j : nat) (st : State) : State :=
  Nat.iter j (iteration w) st.

(** The loop test at the end of turn [j + 1]. *)
Definition turnChanged (w : Window) (j : nat) (st : State) : bool :=
  stateChanged (outputStates (pinStates (afterTurns w j st)))
               (pinStates (afterTurns w (S j) st)).

(** Some OUT cell of the grid is bound to the address [a]. *)
Definition coilAddress (w : Window) (a : string) : Prop :=
  exists g r c cell, available w = Some g /\ cellAt g r c = Some cell /\
                     type cell = OUT /\ address cell = a.

(** Two states that differ at most in which false entries their pin tables
    spell out. *)
Definition alike (s1 s2 : State) : Prop :=
  isRunning s1 = isRunning s2 /\
  (forall a, getPinState s1 a = getPinState s2 a) /\
  wireStates s1 = wireStates s2 /\
  componentStates s1 = componentStates s2.

(** Two accumulators of a loop: equal results so far, states alike. *)
Definition alikeAcc {A : Type} (x y : A * State) : Prop :=
  fst x = fst y /\ alike (snd x) (snd y).

(** What the rendering collaborator can observe of a state. *)
Definition sameObservations (s1 s2 : State) : Prop :=
  (forall a, getPinState s1 a = getPinState s2 a) /\
  (forall r c, isWireEnergized s1 r c = isWireEnergized s2 r c) /\
  (forall r c, isComponentActive s1 r c = isComponentActive s2 r c).

End PLCSimulation.

(** ** Editing the diagram: the rest of class LadderStructure *)

(** [Array.prototype.findIndex]: the first index whose element satisfies
    [p], [None] for -1. *)
Fixpoint findIndex {A : Type} (p : A -> bool) (l : list A) : option nat :=
  match l with
  | [] => None
  | x :: l' => if p x then Some 0%nat
               else match findIndex p l' with
                    | Some i => Some (S i)
                    | None => None
                    end
  end.

(** The comparator [(a, b) => a.col - b.col]. *)
Definition byCol (a b : Component) : Z := col a - col b.

(** The body shared by the two addComponent methods: replace the component
    that stands at the column, or push the new one and sort by column. *)
Definition putComponent (c : Component) (l : list Component) : list Component :=
  match findIndex (fun x => col x =? col c) l with
  | Some i => <[i := c]> l
  | None => js_sort byCol (l ++ [c])
  end.

(** A branch with another component list (the array is updated in place). *)
Definition withComponents (b : Branch) (l : list Component) : Branch :=
  mkBranch (id b) (row b) (start_col b) (end_col b) (parent_branch_id b)
           (connection_col b) l.

(** An update of the first branch that satisfies [p]: the object that
    [find] returns is the one that is modified. *)
Fixpoint updateFirst (p : Branch -> bool) (f : Branch -> Branch) (l : list Branch)
    : list Branch :=
  match l with
  | [] => []
  | b :: l' => if p b then f b :: l' else b :: updateFirst p f l'
  end.

(** The same across rungs, rung by rung as findBranchAtRow searches. *)
Fixpoint updateFirstRung (p : Branch -> bool) (f : Branch -> Branch) (rs : list Rung)
    : list Rung :=
  match rs with
  | [] => []
  | r :: rs' =>
      if existsb p (branches r)
      then mkRung (rung_id r) (updateFirst p f (branches r)) :: rs'
      else r :: updateFirstRung p f rs'
  end.

Module LadderStructureEditor.

(** The fields of class LadderStructure (simulation.js, lines 392-402). *)
Record t := mk {
  rungs : list Rung;
  nextRungId : Z;
  nextBranchId : Z;
  gridCols : Z;
  gridRows : Z
}.

(** The diagram the engine reads. *)
Definition structure (e : t) : LadderStructure.t := LadderStructure.mk (rungs e).

(** initialize(), lines 404-420. *)
Definition initialize (e : t) : t :=
  let mainBranch := mkBranch (nextBranchId e) 0 0 (gridCols e - 1) None None [] in
  mk (rungs e ++ [mkRung (nextRungId e) [mainBranch]])
     (nextRungId e + 1) (nextBranchId e + 1) (gridCols e) (gridRows e).

(** constructor(), lines 393-402. *)
Definition constructor : t := initialize (mk [] 0 0 10 3).

(** clear(), lines 604-609. *)
Definition clear (e : t) : t := initialize (mk [] 0 0 (gridCols e) (gridRows e)).

(** addComponent(row, col, type, address, label), lines 425-447: the
    branch it returns ([None] for null) and the new structure. *)
Definition addComponent (r c : Z) (ty : ComponentType) (a : string) (e : t)
    : option Branch * t :=
  match LadderStructure.findBranchAtRow (structure e) r with
  | None => (None, e)
  | Some branch =>
      let f b := withComponents b (putComponent (mkComponent ty a c) (components b)) in
      (Some (f branch),
       mk (updateFirstRung (fun b => row b =? r) f (rungs e))
          (nextRungId e) (nextBranchId e) (gridCols e) (gridRows e))
  end.

(** removeComponent(row, col), lines 452-462. *)
Definition removeComponent (r c : Z) (e : t) : bool * t :=
  match LadderStructure.findBranchAtRow (structure e) r with
  | None => (false, e)
  | Some branch =>
      match findIndex (fun x => col x =? c) (components branch) with
      | Some i =>
          (true,
           mk (updateFirstRung (fun b => row b =? r)
                 (fun b => withComponents b (delete i (components b))) (rungs e))
              (nextRungId e) (nextBranchId e) (gridCols e) (gridRows e))
      | None => (false, e)
      end
  end.

(** createBranch(parentRow, connectionCol, newRow, startCol, endCol), lines
    467-493.  The new branch goes to [rungs[0]], which exists when a parent
    was found. *)
Definition createBranch (parentRow connectionCol newRow startCol endCol : Z) (e : t)
    : option Branch * t :=
  match LadderStructure.findBranchAtRow (structure e) parentRow with
  | None => (None, e)
  | Some parentBranch =>
      let rows := if gridRows e <=? newRow then newRow + 1 else gridRows e in
      let newBranch := mkBranch (nextBranchId e) newRow startCol endCol
                                (Some (id parentBranch)) (Some connectionCol) [] in
      (Some newBranch,
       mk (match rungs e with
           | r0 :: rs => mkRung (rung_id r0) (branches r0 ++ [newBranch]) :: rs
           | [] => []
           end)
          (nextRungId e) (nextBranchId e + 1) (gridCols e) rows)
  end.

(** getComponentAt(row, col), lines 520-525. *)
Definition getComponentAt (r c : Z) (e : t) : option Component :=
  match LadderStructure.findBranchAtRow (structure e) r with
  | None => None
  | Some branch => List.find (fun x => col x =? c) (components branch)
  end.

(** getChildBranches(parentBranchId), lines 541-551; [===] on ids, so
    [null] selects the root branches. *)
Definition getChildBranches (parentBranchId : option Z) (e : t) : list Branch :=
  List.filter (fun b => bool_decide (parent_branch_id b = parentBranchId))
              (LadderStructure.getAllBranches (structure e)).

(** hasVerticalConnection(row, col), lines 556-563. *)
Definition hasVerticalConnection (r c : Z) (e : t) : bool :=
  match LadderStructure.findBranchAtRow (structure e) r with
  | None => false
  | Some branch =>
      existsb (fun child => bool_decide (connection_col child = Some c))
              (getChildBranches (Some (id branch)) e)
  end.

(** The document of toJSON and fromJSON: { rungs, metadata: { grid_cols,
    grid_rows } }, each part possibly missing. *)
Record Json := mkJson {
  json_rungs : option (list Rung);
  json_grid_cols : option Z;
  json_grid_rows : option Z
}.

(** toJSON(), lines 568-576. *)
Definition toJSON (e : t) : Json :=
  mkJson (Some (rungs e)) (Some (gridCols e)) (Some (gridRows e)).

(** [value || fallback] on a number that may be missing: 0 is falsy. *)
Definition orDefault (v : option Z) (fallback : Z) : Z :=
  match v with
  | Some x => if x =? 0 then fallback else x
  | None => fallback
  end.

(** fromJSON(data), lines 581-599. *)
Definition fromJSON (data : Json) (e : t) : t :=
  let rs := default [] (json_rungs data) in
  let maxRungId :=
    foldl (fun m r => if m <=? rung_id r then rung_id r + 1 else m) 0 rs in
  let maxBranchId :=
    foldl (fun m r =>
             foldl (fun m b => if m <=? id b then id b + 1 else m) m (branches r))
          0 rs in
  mk rs maxRungId maxBranchId
     (orDefault (json_grid_cols data) 10) (orDefault (json_grid_rows data) 3).

(** cleanupEmptyBranches(), lines 614-631.  The rungs are filtered one
    after the other; getChildBranches sees the rungs already filtered. *)
Fixpoint cleanupRungs (finished todo : list Rung) : list Rung :=
  match todo with
  | [] => finished
  | r :: todo' =>
      let all := flat_map branches (finished ++ r :: todo') in
      let keep b :=
        bool_decide (parent_branch_id b = None)
        || (0 <? length (components b))%nat
        || (0 <? length (List.filter
                           (fun x => bool_decide (parent_branch_id x = Some (id b)))
                           all))%nat in
      cleanupRungs (finished ++ [mkRung (rung_id r) (List.filter keep (branches r))]) todo'
  end.

Definition cleanupEmptyBranches (e : t) : t :=
  let rs := cleanupRungs [] (rungs e) in
  let maxRow :=
    foldl (fun m b => if m <? row b then row b else m) 0 (flat_map branches rs) in
  mk rs (nextRungId e) (nextBranchId e) (gridCols e) (Z.max 3 (maxRow + 1)).

(** Every branch id is below the next id to hand out. *)
Definition freshIds (e : t) : Prop :=
  forall b, b ∈ LadderStructure.getAllBranches (structure e) -> id b < nextBranchId e.

(** The components of a branch stand at strictly ascending columns. *)
Definition ascending (l : list Component) : Prop :=
  StronglySorted (fun x y => col x < col y) l.

End LadderStructureEditor.

(** ** Editing the diagram: class LadderData *)
Module LadderDataEditor.

(** addComponent(row, col, type, address, label): whether a branch was
    found, and the new data. *)
Definition addComponent (r c : Z) (ty : ComponentType) (a : string) (d : LadderData.t)
    : bool * LadderData.t :=
  match List.find (fun b => row b =? r) (LadderData.branches0 d) with
  | None => (false, d)
  | Some _ =>
      (true,
       LadderData.mk
         (updateFirst (fun b => row b =? r)
            (fun b => withComponents b (putComponent (mkComponent ty a c) (components b)))
            (LadderData.branches0 d))
         (LadderData.inputs d) (LadderData.outputs d))
  end.

(** removeComponent(row, col): every component at the column goes. *)
Definition removeComponent (r c : Z) (d : LadderData.t) : bool * LadderData.t :=
  match List.find (fun b => row b =? r) (LadderData.branches0 d) with
  | None => (false, d)
  | Some _ =>
      (true,
       LadderData.mk
         (updateFirst (fun b => row b =? r)
            (fun b => withComponents b
                        (List.filter (fun x => negb (col x =? c)) (components b)))
            (LadderData.branches0 d))
         (LadderData.inputs d) (LadderData.outputs d))
  end.

(** addBranch(row, start_col, end_col, connection_col): nothing happens
    when the row is taken; the new branch hangs on the main rung (id 0) and
    gets the current number of branches as its id. *)
Definition addBranch (r s e c : Z) (d : LadderData.t) : LadderData.t :=
  match List.find (fun b => row b =? r) (LadderData.branches0 d) with
  | Some _ => d
  | None =>
      LadderData.mk
        (LadderData.branches0 d
         ++ [mkBranch (Z.of_nat (length (LadderData.branches0 d))) r s e
                      (Some 0) (Some c) []])
        (LadderData.inputs d) (LadderData.outputs d)
  end.

(** removeBranch(row) *)
Definition removeBranch (r : Z) (d : LadderData.t) : LadderData.t :=
  LadderData.mk (List.filter (fun b => negb (row b =? r)) (LadderData.branches0 d))
                (LadderData.inputs d) (LadderData.outputs d).

(** getBranch(row) *)
Definition getBranch (r : Z) (d : LadderData.t) : option Branch :=
  List.find (fun b => row b =? r) (LadderData.branches0 d).

(** createEmptyRung(0), the rung of a new LadderData. *)
Definition constructor : LadderData.t :=
  LadderData.mk
    [mkBranch 0 0 0 9 None None []; mkBranch 1 1 0 9 (Some 0) (Some 0) []] [] [].

(** loadPins(inputPins, outputPins) *)
Definition loadPins (inputPins outputPins : list string) (d : LadderData.t)
    : LadderData.t :=
  LadderData.mk (LadderData.branches0 d) inputPins outputPins.

End LadderDataEditor.

(** ** Vocabulary of the further properties of LadderSimulation *)
Module LadderFacts.
Import LadderSimulation.

(** A contact: a component of type NO or NC. *)
Definition isContact (c : Component) : bool :=
  match ctype c with
  | NO | NC => true
  | _ => false
  end.

(** Whether a contact lets power through in a state: an NO contact when
    its pin is on, an NC contact when its pin is off. *)
Definition conducts (st : State) (c : Component) : bool :=
  match ctype c with
  | NO => getPinState st (address c)
  | NC => negb (getPinState st (address c))
  | _ => true
  end.

(** The addresses toggleInput accepts: the pin addresses, which start with
    "I:" or with "O:".  No property that a JavaScript object inherits
    (constructor, toString, ...) has such a name, so on a pin address
    [pinStates[address] || false] is the boolean the table holds, or
    false. *)
Definition isPinAddress (a : string) : bool :=
  startsWith a "I:" || startsWith a "O:".

(** Every component of the list is a contact bound to a pin that is not an
    output pin. *)
Definition contactsOffOutputs (l : list Component) : Prop :=
  forall c, c ∈ l -> isContact c = true /\ startsWith (address c) "O:" = false.

(** Every component of the list is a contact bound to an input pin: its
    address starts with "I:". *)
Definition inputContacts (l : list Component) : Prop :=
  forall c, c ∈ l -> isContact c = true /\ startsWith (address c) "I:" = true.

(** No component of the list writes a power state at column [k]: none
    stands at [k] or right before it. *)
Definition clearOf (k : Z) (l : list Component) : Prop :=
  forall c, c ∈ l -> col c <> k /\ col c + 1 <> k.

End LadderFacts.

(** ** Vocabulary of the further properties of LadderSimulator *)
Module LadderSimulatorFacts.
Import LadderSimulator.

(** Whether a component lets evaluatePowerAtColumn's power through: an NO
    contact when its pin is on, an NC contact when its pin is off, any
    other component always. *)
Definition passes (st : State) (c : Component) : bool :=
  match ctype c with
  | NO => getPinState st (address c)
  | NC => negb (getPinState st (address c))
  | _ => true
  end.

(** The components that stand before the first component at or beyond
    column [k]. *)
Fixpoint leftOf (k : Z) (l : list Component) : list Component :=
  match l with
  | [] => []
  | c :: l' => if k <=? col c then [] else c :: leftOf k l'
  end.

End LadderSimulatorFacts.

(** ** Vocabulary of the properties of the grid engines *)
Module GridFacts.
Import Grid.


End GridFacts.

(** ** Concrete diagrams and pin tables used in the examples below *)
Module Examples.
Import LadderSimulation.

(** One rung, one root branch: contacts on [A] and [B], then a coil on [C]. *)
Definition seriesBranch (A B C : string) : Branch :=
  mkBranch 0 0 0 9 None None
    [mkComponent NO A 1; mkComponent NO B 2; mkComponent OUT C 5].

Definition seriesLadder (A B C : string) : LadderStructure.t :=
  LadderStructure.mk [mkRung 0 [seriesBranch A B C]].

(** O:0/1 and I:0/0 on, O:0/0 off; simulation stopped. *)
Definition feedbackPins : State :=
  mkState false
    (<["O:0/1" := true]> (<["I:0/0" := true]> (<["O:0/0" := false]> ∅))) ∅ ∅.

(** The rung  NO I:0/0 -- OUT O:0/0. *)
Definition contactCoilLadder : LadderStructure.t :=
  LadderStructure.mk
    [mkRung 0 [mkBranch 0 0 0 9 None None
                 [mkComponent NO "I:0/0" 1; mkComponent OUT "O:0/0" 5]]].

(** A running simulation with I:0/0 and O:0/0 off. *)
Definition runningOff : State :=
  mkState true (<["I:0/0" := false]> (<["O:0/0" := false]> ∅)) ∅ ∅.

(** A branch that names itself as its parent, below the main rung. *)
Definition selfParentLadder : LadderStructure.t :=
  LadderStructure.mk
    [mkRung 0 [mkBranch 0 0 0 9 None None [mkComponent OUT "O:0/0" 5];
               mkBranch 1 1 0 9 (Some 1) (Some 0) [mkComponent OUT "O:0/1" 5]]].

(** Two branches that name each other as parent, below the main rung. *)
Definition twoCycleLadder : LadderStructure.t :=
  LadderStructure.mk
    [mkRung 0 [mkBranch 0 0 0 9 None None [mkComponent OUT "O:0/0" 5];
               mkBranch 1 1 0 9 (Some 2) (Some 0) [mkComponent OUT "O:0/1" 5];
               mkBranch 2 2 0 9 (Some 1) (Some 0) [mkComponent OUT "O:0/2" 5]]].

(** A branch whose parent id 7 names no branch. *)
Definition danglingBranch : Branch :=
  mkBranch 1 1 0 9 (Some 7) (Some 0) [mkComponent OUT "O:0/1" 5].

Definition danglingLadder : LadderStructure.t :=
  LadderStructure.mk
    [mkRung 0 [mkBranch 0 0 0 9 None None [mkComponent OUT "O:0/0" 5];
               danglingBranch]].

(** Main rung (row 0), a child at row 2 and a grandchild at row 1 that
    taps the child. *)
Definition grandchildLadder : LadderStructure.t :=
  LadderStructure.mk
    [mkRung 0 [mkBranch 0 0 0 9 None None [];
               mkBranch 1 2 0 9 (Some 0) (Some 0) [];
               mkBranch 2 1 0 9 (Some 1) (Some 0) []]].

(** Main rung with two children at rows 1 and 2. *)
Definition twoChildrenLadder : LadderStructure.t :=
  LadderStructure.mk
    [mkRung 0 [mkBranch 2 2 0 9 (Some 0) (Some 3) [];
               mkBranch 1 1 0 9 (Some 0) (Some 0) [];
               mkBranch 0 0 0 9 None None []]].

(** A coil bound to the input pin I:0/0 on the main rung. *)
Definition coilOnInputLadder : LadderStructure.t :=
  LadderStructure.mk
    [mkRung 0 [mkBranch 0 0 0 9 None None [mkComponent OUT "I:0/0" 5]]].

Definition inputOff : State := mkState true (<["I:0/0" := false]> ∅) ∅ ∅.

(** A freshly placed normally-closed contact and coil, no pins assigned. *)
Definition unassignedLadder : LadderStructure.t :=
  LadderStructure.mk
    [mkRung 0 [mkBranch 0 0 0 9 None None
                 [mkComponent NC "" 1; mkComponent OUT "" 5]]].

(** Pin table after initializePins with one input and one output. *)
Definition freshPins : State :=
  initializePins ["I:0/0"] ["O:0/0"] constructor.

End Examples.

(** ** Concrete inputs for the other engines *)
Module Scenarios.

(** The end-to-end scenario of the specification on LadderData: main rung
    NO I:0/0 (col 1) -- OUT O:0/0 (col 5); branch at row 1 tapping the main
    rung at column 0 with NO I:0/1 (col 3) -- OUT O:0/0 (col 5). *)
Definition mainBranch : Branch :=
  mkBranch 0 0 0 9 None None
    [mkComponent NO "I:0/0" 1; mkComponent OUT "O:0/0" 5].

Definition parallelBranch : Branch :=
  mkBranch 1 1 0 9 (Some 0) (Some 0)
    [mkComponent NO "I:0/1" 3; mkComponent OUT "O:0/0" 5].

Definition parallelData : LadderData.t :=
  LadderData.mk [mainBranch; parallelBranch] ["I:0/0"; "I:0/1"] ["O:0/0"].

(** Running, I:0/0 on, I:0/1 off, O:0/0 off. *)
Definition parallelState : LadderSimulator.State :=
  LadderSimulator.mkState parallelData true
    (<["I:0/0" := true]> (<["I:0/1" := false]> (<["O:0/0" := false]> ∅))) ∅ ∅.

(** The same scenario for LadderSimulation. *)
Definition parallelLadder : LadderStructure.t :=
  LadderStructure.mk [mkRung 0 [mainBranch; parallelBranch]].

Definition parallelPins : LadderSimulation.State :=
  LadderSimulation.mkState true
    (<["I:0/0" := true]> (<["I:0/1" := false]> (<["O:0/0" := false]> ∅))) ∅ ∅.

(** A main rung of the grid editor: OUT O:0/0, NO I:0/0, OUT O:0/0. *)
Definition twoCoilGrid : Grid.t :=
  [[Some (Grid.mkCell Grid.OUT "O:0/0");
    Some (Grid.mkCell Grid.NO "I:0/0");
    Some (Grid.mkCell Grid.OUT "O:0/0")]].

Definition twoCoilWindow : Grid.Window := Grid.mkWindow (Some twoCoilGrid) 1 3.

Definition rungPins : PLCSimulationRung.State :=
  PLCSimulationRung.mkState true
    (<["I:0/0" := false]> (<["O:0/0" := false]> ∅)) ∅ ∅.

(** Two rows: HLINE -- NO I:0/0 -- OUT O:0/0 on the main rung, an NC
    contact on O:0/0 feeding OUT O:0/1 on the row below, tapped by a
    vertical line at column 0. *)
Definition feedbackGrid : Grid.t :=
  [[Some (Grid.mkCell Grid.BOTH ""); Some (Grid.mkCell Grid.NO "I:0/0");
    Some (Grid.mkCell Grid.OUT "O:0/0")];
   [Some (Grid.mkCell Grid.HLINE ""); Some (Grid.mkCell Grid.NC "O:0/0");
    Some (Grid.mkCell Grid.OUT "O:0/1")]].

Definition feedbackWindow : Grid.Window := Grid.mkWindow (Some feedbackGrid) 2 3.

Definition gridPins : PLCSimulation.State :=
  PLCSimulation.mkState true
    (<["I:0/0" := true]> (<["O:0/0" := false]> (<["O:0/1" := false]> ∅))) ∅ ∅.

(** A coil bound to the input pin I:0/0 on the main rung of the grid. *)
Definition coilOnInputGrid : Grid.t := [[Some (Grid.mkCell Grid.OUT "I:0/0")]].

Definition coilOnInputWindow : Grid.Window :=
  Grid.mkWindow (Some coilOnInputGrid) 1 1.

End Scenarios.

(** ** Further scenarios *)
Module MoreScenarios.
Import Scenarios.

(** The pins of the two-row grid with both outputs on and the input off. *)
Definition latchedPins : PLCSimulationRung.State :=
  PLCSimulationRung.mkState true
    (<["I:0/0" := false]> (<["O:0/0" := true]> (<["O:0/1" := true]> ∅))) ∅ ∅.

(** A branch on row 2 that hangs on the branch of row 1. *)
Definition deepBranch : Branch :=
  mkBranch 2 2 3 9 (Some 1) (Some 3) [mkComponent OUT "O:0/0" 5].

(** Main rung (id 0, row 0), a child (id 1) on row 2 and a grandchild
    (id 2) on row 1 that taps the child at column 0 and holds a coil on
    O:0/0: the diagram the editor builds with createBranch(0, 0, 2, 0, 9),
    createBranch(2, 0, 1, 0, 9) and addComponent(1, 5, 'OUT', 'O:0/0'). *)
Definition grandchildRoot : Branch := mkBranch 0 0 0 9 None None [].
Definition grandchildParent : Branch := mkBranch 1 2 0 9 (Some 0) (Some 0) [].
Definition grandchildCoil : Branch :=
  mkBranch 2 1 0 9 (Some 1) (Some 0) [mkComponent OUT "O:0/0" 5].

Definition grandchildCoilLadder : LadderStructure.t :=
  LadderStructure.mk [mkRung 0 [grandchildRoot; grandchildParent; grandchildCoil]].

(** The same branches held by a LadderData. *)
Definition grandchildData : LadderData.t :=
  LadderData.mk [grandchildRoot; grandchildParent; grandchildCoil] [] ["O:0/0"].

(** A running simulation with the output O:0/0 off. *)
Definition outputOff : LadderSimulation.State :=
  LadderSimulation.mkState true (<["O:0/0" := false]> ∅) ∅ ∅.

End MoreScenarios.

(** * The stable sort *)

Section SortFacts.
Context {A : Type} (cmp : A -> A -> Z).

Lemma sort_insert_perm x (l : list A) : Permutation (sort_insert cmp x l) (x :: l).
Proof.
  induction l as [|y l IH]; cbn [sort_insert]; [done|].
  destruct (cmp x y <=? 0); [done|].
  rewrite IH. apply perm_swap.
Qed.

Lemma js_sort_perm (l : list A) : Permutation (js_sort cmp l) l.
Proof.
  induction l as [|x l IH]; cbn [js_sort]; [done|].
  by rewrite sort_insert_perm, IH.
Qed.

Lemma js_sort_elem_of (l : list A) x : x ∈ js_sort cmp l -> x ∈ l.
Proof. by rewrite js_sort_perm. Qed.

Lemma js_sort_length (l : list A) : length (js_sort cmp l) = length l.
Proof. by rewrite js_sort_perm. Qed.

(** The comparator is a total preorder. *)
Hypothesis cmp_total : forall x y, cmp x y <= 0 \/ cmp y x <= 0.
Hypothesis cmp_trans : forall x y z, cmp x y <= 0 -> cmp y z <= 0 -> cmp x z <= 0.

Lemma sort_insert_sorted x (l : list A) :
  StronglySorted (fun a b => cmp a b <= 0) l ->
  StronglySorted (fun a b => cmp a b <= 0) (sort_insert cmp x l).
Proof.
  induction 1 as [|y l Hl IH Hy]; cbn [sort_insert].
  - repeat constructor.
  - destruct (Z.leb_spec (cmp x y) 0) as [Hxy|Hxy].
    + constructor; [by constructor|].
      constructor; [done|].
      eapply Forall_impl; [exact Hy|]. intros z Hz. by eapply cmp_trans.
    + constructor; [done|].
      rewrite sort_insert_perm. constructor; [|done].
      destruct (cmp_total x y); [lia | done].
Qed.

Lemma js_sort_sorted (l : list A) :
  StronglySorted (fun a b => cmp a b <= 0) (js_sort cmp l).
Proof.
  induction l as [|x l IH]; cbn [js_sort]; [constructor|].
  by apply sort_insert_sorted.
Qed.

(** In a sorted list an element that is strictly below another one stands
    before it. *)
Lemma sorted_strictly_before (l : list A) x y :
  StronglySorted (fun a b => cmp a b <= 0) l ->
  x ∈ l -> y ∈ l -> 0 < cmp y x ->
  exists l1 l2 l3, l = (l1 ++ x :: l2 ++ y :: l3)%list.
Proof.
  induction 1 as [|z l Hl IH Hz]; intros Hx Hy Hlt.
  - by apply elem_of_nil in Hx.
  - apply elem_of_cons in Hx as [->|Hx].
    + apply elem_of_cons in Hy as [->|Hy].
      * destruct (cmp_total z z); lia.
      * apply list_elem_of_split in Hy as (l2 & l3 & ->).
        by exists [], l2, l3.
    + apply elem_of_cons in Hy as [->|Hy].
      * rewrite Forall_forall in Hz. specialize (Hz x Hx). lia.
      * destruct (IH Hx Hy Hlt) as (l1 & l2 & l3 & ->).
        by exists (z :: l1), l2, l3.
Qed.
End SortFacts.

(** * Properties of LadderSimulation (simulation-new.js) *)

Section PinTable.
Implicit Types (pins : gmap string bool) (a : string).

Lemma readPin_insert pins a b v :
  readPin (<[a := v]> pins) b = if decide (a = b) then v else readPin pins b.
Proof.
  unfold readPin. rewrite lookup_insert. by case_decide.
Qed.

Lemma lookup_clearOutputs pins a :
  clearOutputs pins !! a =
  (fun v => if startsWith a "O:" then false else v) <$> pins !! a.
Proof.
  unfold clearOutputs. rewrite map_lookup_imap. by destruct (pins !! a).
Qed.

Lemma readPin_clearOutputs pins a :
  readPin (clearOutputs pins) a =
  if startsWith a "O:" then false else readPin pins a.
Proof.
  unfold readPin. rewrite lookup_clearOutputs.
  destruct (pins !! a); simpl; by destruct (startsWith a "O:").
Qed.
End PinTable.

Section ComponentEvaluation.
Import LadderSimulation.

(** ** Components without an address *)

(** C9, as stated, fails: a normally-open contact whose address is empty
    reads the pin table at the empty address, finds nothing there and
    blocks the power that reaches it. *)
Lemma unset_contact_blocks_power :
  address (mkComponent NO "" 1) = "" /\
  powerAfter (fst (evaluateComponent (mkComponent NO "" 1) true constructor)) <> true.
Proof. split; [reflexivity | vm_compute; discriminate]. Qed.

(** The same for the activity flag: a normally-closed contact with the
    empty address is rendered as conducting. *)
Lemma unset_nc_is_active :
  isActive (fst (evaluateComponent (mkComponent NC "" 1) true constructor)) = true.
Proof. reflexivity. Qed.

(** C9 (amended): a component with the empty address is evaluated like any
    other, against the pin-table entry of the empty address.  While that
    entry is absent or false: NO blocks (powerAfter = false, isActive =
    false); NC passes powerBefore and is active; OUT passes powerBefore and
    is active exactly when powered; any other type passes powerBefore and
    is inactive.  Contacts and unknown types leave the state untouched. *)
Theorem unset_component_policy (c : Component) (powerBefore : bool) (st : State) :
  address c = "" ->
  getPinState st "" = false ->
  let r := fst (evaluateComponent c powerBefore st) in
  let st' := snd (evaluateComponent c powerBefore st) in
  match ctype c with
  | NO => powerAfter r = false /\ isActive r = false /\ st' = st
  | NC => powerAfter r = powerBefore /\ isActive r = true /\ st' = st
  | OUT => powerAfter r = powerBefore /\ isActive r = powerBefore
  | Other => powerAfter r = powerBefore /\ isActive r = false /\ st' = st
  end.
Proof.
  intros Ha Hp. unfold evaluateComponent. rewrite Ha, Hp.
  destruct (ctype c); simpl; rewrite ?andb_false_r, ?andb_true_r; auto.
Qed.

Lemma unset_component_policy_witness :
  address (mkComponent NO "" 1) = "" /\
  getPinState constructor "" = false /\
  powerAfter (fst (evaluateComponent (mkComponent NO "" 1) true constructor)) = false /\
  isActive (fst (evaluateComponent (mkComponent NO "" 1) true constructor)) = false /\
  snd (evaluateComponent (mkComponent NO "" 1) true constructor) = constructor.
Proof.
  split; [reflexivity | split; [reflexivity |]].
  apply (unset_component_policy (mkComponent NO "" 1) true constructor);
    reflexivity.
Defined.

(** What evaluating one component does to the state: nothing but, for a
    powered coil, the write of [true] at the coil's address. *)
Lemma evaluateComponent_state c p st :
  snd (evaluateComponent c p st) =
  if decide (ctype c = OUT) then
    if p then set_pins st (<[address c := true]> (pinStates st)) else st
  else st.
Proof. unfold evaluateComponent. by destruct (ctype c). Qed.

Lemma evaluateComponent_getPinState c p st a :
  getPinState (snd (evaluateComponent c p st)) a =
  getPinState st a
  || (bool_decide (ctype c = OUT) && p && bool_decide (address c = a)).
Proof.
  rewrite evaluateComponent_state. unfold getPinState.
  case_decide as Ht.
  - rewrite (bool_decide_eq_true_2 _ Ht). destruct p; simpl.
    + rewrite readPin_insert. case_decide as Ha.
      * rewrite (bool_decide_eq_true_2 _ Ha). by rewrite orb_true_r.
      * rewrite (bool_decide_eq_false_2 _ Ha). by rewrite orb_false_r.
    + by rewrite orb_false_r.
  - rewrite (bool_decide_eq_false_2 _ Ht). by rewrite orb_false_r.
Qed.


(** ** Pins along a pass *)

Lemma poweredCoil_app a l1 l2 :
  poweredCoil a (l1 ++ l2) = poweredCoil a l1 || poweredCoil a l2.
Proof. apply existsb_app. Qed.

Lemma poweredCoil_coilEvent a c p :
  poweredCoil a (coilEvent c p) =
  bool_decide (ctype c = OUT) && p && bool_decide (address c = a).
Proof.
  unfold coilEvent, poweredCoil.
  destruct (ctype c); simpl; try reflexivity.
  rewrite orb_false_r. apply andb_comm.
Qed.

Lemma componentStep_fst branch hp st c :
  fst (componentStep branch (hp, st) c) =
  powerAfter (fst (evaluateComponent c hp (set_power st (id branch, col c) hp))).
Proof.
  unfold componentStep.
  by destruct (evaluateComponent c hp (set_power st (id branch, col c) hp)).
Qed.

Lemma componentStep_snd branch hp st c :
  snd (componentStep branch (hp, st) c) =
  let e := evaluateComponent c hp (set_power st (id branch, col c) hp) in
  set_power (set_component (snd e) (row branch, col c) (isActive (fst e)))
            (id branch, col c + 1) (powerAfter (fst e)).
Proof.
  unfold componentStep.
  by destruct (evaluateComponent c hp (set_power st (id branch, col c) hp)).
Qed.

Lemma componentStep_getPinState branch hp st c a :
  getPinState (snd (componentStep branch (hp, st) c)) a =
  getPinState st a || poweredCoil a (coilEvent c hp).
Proof.
  rewrite componentStep_snd, poweredCoil_coilEvent. cbv zeta.
  change (getPinState (set_power ?s _ _) a) with (getPinState s a).
  change (getPinState (set_component ?s _ _) a) with (getPinState s a).
  by rewrite evaluateComponent_getPinState.
Qed.

Lemma components_getPinState branch l hp st a :
  getPinState (snd (foldl (componentStep branch) (hp, st) l)) a =
  getPinState st a || poweredCoil a (componentsLog branch l hp st).
Proof.
  revert hp st. induction l as [|c l IH]; intros hp st; simpl.
  - by rewrite orb_false_r.
  - rewrite (surjective_pairing (componentStep branch (hp, st) c)) at 1.
    rewrite IH, componentStep_getPinState, poweredCoil_app.
    by rewrite orb_assoc.
Qed.

Lemma evaluateBranch_unfold branch ls st :
  evaluateBranch branch ls st =
  let hp := incomingPower branch ls st in
  let r := foldl (componentStep branch)
                 (hp, set_power st (id branch, start_col branch) hp)
                 (components branch) in
  set_power (snd r) (id branch, end_col branch) (fst r).
Proof.
  unfold evaluateBranch. cbv zeta.
  by destruct (foldl _ _ _).
Qed.

Lemma evaluateBranch_getPinState branch ls st a :
  getPinState (evaluateBranch branch ls st) a =
  getPinState st a || poweredCoil a (branchLog branch ls st).
Proof.
  rewrite evaluateBranch_unfold. cbv zeta.
  change (getPinState (set_power ?s _ _) a) with (getPinState s a).
  by rewrite components_getPinState.
Qed.

Lemma ladder_getPinState ls l st a :
  getPinState (foldl (fun st b => evaluateBranch b ls st) st l) a =
  getPinState st a || poweredCoil a (ladderLog ls l st).
Proof.
  revert st. induction l as [|b l IH]; intros st; simpl.
  - by rewrite orb_false_r.
  - by rewrite IH, evaluateBranch_getPinState, poweredCoil_app, orb_assoc.
Qed.

(** After a scan every pin holds: its value before the scan, unless it is
    an output pin, which restarts from false; or'ed with the power that
    reached the coils bound to it. *)
Lemma executeScan_getPinState ls st a :
  getPinState (executeScan ls st) a =
  (if startsWith a "O:" then false else getPinState st a)
  || poweredCoil a (scanLog ls st).
Proof.
  unfold executeScan, scanLog, evaluateLadder. destruct ls as [s|].
  - rewrite ladder_getPinState. f_equal. apply readPin_clearOutputs.
  - simpl. rewrite orb_false_r. apply readPin_clearOutputs.
Qed.

(** In LadderSimulation the final value of an output pin is the logical OR
    of the power that reached the coils bound to it during the pass. *)
Theorem output_is_or_of_coils ls st a :
  startsWith a "O:" = true ->
  getPinState (executeScan ls st) a = poweredCoil a (scanLog ls st).
Proof. intros Ha. by rewrite executeScan_getPinState, Ha. Qed.

(** Within a pass no coil evaluation, powered or not, turns a pin off. *)
Theorem coil_never_resets branch hp st c a :
  getPinState st a = true ->
  getPinState (snd (componentStep branch (hp, st) c)) a = true.
Proof. intros H. by rewrite componentStep_getPinState, H. Qed.

End ComponentEvaluation.

Section SeriesAnd.
Import LadderSimulation Examples.

(** ** Two contacts in series before a coil *)

(** C4, as stated, fails when a contact is bound to an output pin: the scan
    first clears every output pin, so a contact on "O:0/1" reads false
    although the pin was true when the scan started. *)
Lemma series_and_output_contact :
  getPinState feedbackPins "O:0/1" = true /\
  getPinState feedbackPins "I:0/0" = true /\
  getPinState
    (executeScan (Some (seriesLadder "O:0/1" "I:0/0" "O:0/0")) feedbackPins)
    "O:0/0" = false.
Proof. vm_compute. auto. Qed.

(** C4 (amended): for a single root branch with two NO contacts on
    addresses [A] and [B] that are not output addresses, followed by a coil
    on the output address [C], after one scan the pin [C] is true exactly
    when [A] and [B] were both true when the scan started.  The columns,
    the span, the ids and the row of the branch do not matter. *)
Theorem series_and (A B C : string) (bid r s e rid ca cb cc : Z)
    (conn : option Z) (st : State) :
  startsWith C "O:" = true ->
  startsWith A "O:" = false ->
  startsWith B "O:" = false ->
  let branch := mkBranch bid r s e None conn
                  [mkComponent NO A ca; mkComponent NO B cb; mkComponent OUT C cc] in
  let ls := LadderStructure.mk [mkRung rid [branch]] in
  getPinState (executeScan (Some ls) st) C = true <->
  getPinState st A = true /\ getPinState st B = true.
Proof.
  intros HC HA HB branch ls.
  rewrite (output_is_or_of_coils _ _ _ HC).
  unfold scanLog, sortedBranches, ls. simpl.
  unfold branchLog, incomingPower, poweredCoil. simpl.
  rewrite bool_decide_eq_true_2 by done.
  rewrite orb_false_r. unfold getPinState. simpl.
  rewrite !readPin_clearOutputs, HA, HB.
  rewrite andb_true_iff. reflexivity.
Qed.

Lemma series_and_witness :
  getPinState
    (executeScan (Some (seriesLadder "I:0/0" "I:0/1" "O:0/0"))
       (mkState false (<["I:0/0" := true]> (<["I:0/1" := true]> ∅)) ∅ ∅))
    "O:0/0" = true <->
  getPinState (mkState false (<["I:0/0" := true]> (<["I:0/1" := true]> ∅)) ∅ ∅)
    "I:0/0" = true /\
  getPinState (mkState false (<["I:0/0" := true]> (<["I:0/1" := true]> ∅)) ∅ ∅)
    "I:0/1" = true.
Proof.
  apply (series_and "I:0/0" "I:0/1" "O:0/0" 0 0 0 9 0 1 2 5 None
           (mkState false (<["I:0/0" := true]> (<["I:0/1" := true]> ∅)) ∅ ∅));
    reflexivity.
Defined.

End SeriesAnd.

Section Topology.
Import LadderSimulation Examples.

(** ** Branches without power *)

Lemma evaluateComponent_unpowered c st :
  evaluateComponent c false st
  = (mkResult false (isActive (fst (evaluateComponent c false st))), st).
Proof. unfold evaluateComponent. by destruct (ctype c). Qed.

Lemma componentStep_unpowered branch st c :
  fst (componentStep branch (false, st) c) = false /\
  pinStates (snd (componentStep branch (false, st) c)) = pinStates st /\
  branchPowerStates (snd (componentStep branch (false, st) c))
  = <[(id branch, col c + 1) := false]>
      (<[(id branch, col c) := false]> (branchPowerStates st)).
Proof.
  rewrite componentStep_fst, componentStep_snd.
  rewrite evaluateComponent_unpowered. simpl. auto.
Qed.

Lemma elem_of_componentKeys (i : Z) (c : Component) (l : list Component) (k : Z * Z) :
  k ∈ flat_map (fun c => [(i, col c); (i, col c + 1)]) (c :: l) <->
  k = (i, col c) \/ k = (i, col c + 1)
  \/ k ∈ flat_map (fun c => [(i, col c); (i, col c + 1)]) l.
Proof. cbn [flat_map app]. rewrite !elem_of_cons. tauto. Qed.

Lemma elem_of_branchKeys branch (k : Z * Z) :
  k ∈ branchKeys branch <->
  k = (id branch, start_col branch)
  \/ k ∈ flat_map (fun c => [(id branch, col c); (id branch, col c + 1)])
                  (components branch)
  \/ k = (id branch, end_col branch).
Proof.
  unfold branchKeys. rewrite elem_of_cons, elem_of_app, list_elem_of_singleton. tauto.
Qed.

Lemma components_unpowered branch l st :
  let r := foldl (componentStep branch) (false, st) l in
  fst r = false /\
  pinStates (snd r) = pinStates st /\
  forall k,
    branchPowerStates (snd r) !! k =
    if decide (k ∈ flat_map (fun c => [(id branch, col c); (id branch, col c + 1)]) l)
    then Some false else branchPowerStates st !! k.
Proof.
  revert st. induction l as [|c l IH]; intros st; cbv zeta.
  - cbn [foldl flat_map]. by repeat split.
  - cbn [foldl].
    destruct (componentStep_unpowered branch st c) as (Hf & Hp & Hb).
    rewrite (surjective_pairing (componentStep branch (false, st) c)), Hf.
    destruct (IH (snd (componentStep branch (false, st) c))) as (IH1 & IH2 & IH3).
    split; [done|]. split; [congruence|].
    intros k. rewrite IH3, Hb.
    destruct (decide (k ∈ flat_map
                (fun c => [(id branch, col c); (id branch, col c + 1)]) l)) as [Hl|Hl].
    { rewrite decide_True; [done|]. apply elem_of_componentKeys. auto. }
    destruct (decide (k = (id branch, col c + 1))) as [->|Hafter].
    { rewrite lookup_insert_eq, decide_True; [done|].
      apply elem_of_componentKeys. auto. }
    rewrite lookup_insert_ne by done.
    destruct (decide (k = (id branch, col c))) as [->|Hbefore].
    { rewrite lookup_insert_eq, decide_True; [done|].
      apply elem_of_componentKeys. auto. }
    rewrite lookup_insert_ne by done.
    rewrite decide_False; [done|].
    rewrite elem_of_componentKeys. tauto.
Qed.

(** A branch that starts without power records false at each of its keys,
    touches no other key and writes no pin. *)
Lemma unpowered_branch branch ls st :
  incomingPower branch ls st = false ->
  pinStates (evaluateBranch branch ls st) = pinStates st /\
  forall k,
    branchPowerStates (evaluateBranch branch ls st) !! k =
    if decide (k ∈ branchKeys branch) then Some false
    else branchPowerStates st !! k.
Proof.
  intros Hin. rewrite evaluateBranch_unfold, Hin. cbv zeta.
  destruct (components_unpowered branch (components branch)
              (set_power st (id branch, start_col branch) false))
    as (Hf & Hp & Hb).
  rewrite Hf. cbn [set_power pinStates branchPowerStates].
  split; [by rewrite Hp|].
  intros k.
  destruct (decide (k = (id branch, end_col branch))) as [->|Hend].
  { rewrite lookup_insert_eq, decide_True; [done|]. apply elem_of_branchKeys. auto. }
  rewrite lookup_insert_ne by done. rewrite Hb.
  destruct (decide (k ∈ flat_map
              (fun c => [(id branch, col c); (id branch, col c + 1)])
              (components branch))) as [Hmid|Hmid].
  { rewrite decide_True; [done|]. apply elem_of_branchKeys. auto. }
  cbn [set_power branchPowerStates].
  destruct (decide (k = (id branch, start_col branch))) as [->|Hstart].
  { rewrite lookup_insert_eq, decide_True; [done|]. apply elem_of_branchKeys. auto. }
  rewrite lookup_insert_ne by done.
  rewrite decide_False; [done|]. rewrite elem_of_branchKeys. tauto.
Qed.

(** Every key a branch writes carries the branch's id. *)
Lemma branchKeys_id branch k : k ∈ branchKeys branch -> fst k = id branch.
Proof.
  rewrite elem_of_branchKeys.
  intros [->|[H| ->]]; try done.
  apply list_elem_of_In, in_flat_map in H as (c & _ & Hc).
  simpl in Hc. destruct Hc as [<-|[<-|[]]]; done.
Qed.

Lemma evaluateComponent_power c p st :
  branchPowerStates (snd (evaluateComponent c p st)) = branchPowerStates st.
Proof. rewrite evaluateComponent_state. by repeat case_match. Qed.

Lemma componentStep_power_frame branch hp st c k :
  fst k <> id branch ->
  branchPowerStates (snd (componentStep branch (hp, st) c)) !! k
  = branchPowerStates st !! k.
Proof.
  intros Hk. rewrite componentStep_snd. cbv zeta.
  cbn [set_power set_component branchPowerStates].
  rewrite lookup_insert_ne by (intros <-; done).
  rewrite evaluateComponent_power. cbn [set_power branchPowerStates].
  by rewrite lookup_insert_ne by (intros <-; done).
Qed.

Lemma components_power_frame branch l hp st k :
  fst k <> id branch ->
  branchPowerStates (snd (foldl (componentStep branch) (hp, st) l)) !! k
  = branchPowerStates st !! k.
Proof.
  intros Hk. revert hp st.
  induction l as [|c l IH]; intros hp st; cbn [foldl]; [done|].
  rewrite (surjective_pairing (componentStep branch (hp, st) c)), IH.
  by apply componentStep_power_frame.
Qed.

Lemma evaluateBranch_power_frame branch ls st k :
  fst k <> id branch ->
  branchPowerStates (evaluateBranch branch ls st) !! k = branchPowerStates st !! k.
Proof.
  intros Hk. rewrite evaluateBranch_unfold. cbv zeta.
  cbn [set_power branchPowerStates].
  rewrite lookup_insert_ne by (intros <-; done).
  rewrite components_power_frame by done.
  cbn [set_power branchPowerStates].
  by rewrite lookup_insert_ne by (intros <-; done).
Qed.

Lemma findBranchById_Some ls p b :
  LadderStructure.findBranchById ls p = Some b ->
  id b = p /\ b ∈ LadderStructure.getAllBranches ls.
Proof.
  unfold LadderStructure.findBranchById. intros H.
  apply find_some in H as [Hin Hid].
  split; [lia | by apply list_elem_of_In].
Qed.

(** ** Malformed topology *)

Lemma unrooted_incomingPower ls U branch st :
  unrooted ls U -> noPowerIn U st ->
  branch ∈ LadderStructure.getAllBranches ls -> U (id branch) ->
  incomingPower branch ls st = false.
Proof.
  intros HU Hno Hin Hb. destruct (HU branch Hin Hb) as (p & Hp & Hcase).
  unfold incomingPower. rewrite Hp.
  destruct (LadderStructure.findBranchById ls p) as [pb|] eqn:Hfind; [|done].
  destruct Hcase as [?|Hup]; [done|].
  apply findBranchById_Some in Hfind as [<- _].
  unfold parentPower. destruct (connection_col branch); [|done].
  by apply Hno.
Qed.

Lemma unrooted_evaluateBranch ls U branch st :
  unrooted ls U -> noPowerIn U st ->
  branch ∈ LadderStructure.getAllBranches ls ->
  noPowerIn U (evaluateBranch branch ls st).
Proof.
  intros HU Hno Hin i c Hi.
  destruct (decide (i = id branch)) as [->|Hne].
  - pose proof (unrooted_incomingPower ls U branch st HU Hno Hin Hi) as Hp.
    destruct (unpowered_branch branch ls st Hp) as [_ Hk].
    rewrite Hk. case_decide; [done | by apply Hno].
  - rewrite evaluateBranch_power_frame by done. by apply Hno.
Qed.

Lemma unrooted_ladder ls U l st :
  unrooted ls U -> noPowerIn U st ->
  (forall b, b ∈ l -> b ∈ LadderStructure.getAllBranches ls) ->
  noPowerIn U (foldl (fun st b => evaluateBranch b ls st) st l).
Proof.
  intros HU. revert st. induction l as [|b l IH]; intros st Hno Hl; simpl; [done|].
  apply IH.
  - apply unrooted_evaluateBranch; [done..|]. apply Hl, list_elem_of_here.
  - intros b' Hb'. by apply Hl, list_elem_of_further.
Qed.


(** A branch of an unrooted set writes no pin. *)
Lemma unrooted_branch_writes_no_pin ls U branch st :
  unrooted ls U -> noPowerIn U st ->
  branch ∈ LadderStructure.getAllBranches ls -> U (id branch) ->
  pinStates (evaluateBranch branch ls st) = pinStates st.
Proof.
  intros HU Hno Hin Hb.
  apply unpowered_branch. by apply (unrooted_incomingPower ls U).
Qed.

(** No wire of a row whose branch belongs to an unrooted set is shown
    energized. *)
Lemma unrooted_wire_dark ls U st branch r c :
  noPowerIn U st ->
  LadderStructure.findBranchAtRow ls r = Some branch -> U (id branch) ->
  isWireEnergized (Some ls) st r c = false.
Proof.
  intros Hno Hfind Hb. unfold isWireEnergized. rewrite Hfind.
  case_match; [by apply Hno | done].
Qed.

(** C6, as stated, fails: the engine has no cycle detection and no error to
    raise.  On a diagram in which a branch names itself as its parent the
    scan completes. *)
Lemma self_parent_scan_completes :
  LadderStructure.findBranchById selfParentLadder 1
    = Some (mkBranch 1 1 0 9 (Some 1) (Some 0) [mkComponent OUT "O:0/1" 5]) /\
  scan (Some selfParentLadder) freshPins <> Failed CyclicTopologyError.
Proof. split; [reflexivity | discriminate]. Qed.

(** C6 (amended): the engine never follows a chain of parent links: each
    branch reads, once, the power recorded for its immediate parent.  So
    on every diagram, cyclic or not, the scan completes without error, and
    the branches whose parent chain does not reach a root are evaluated as
    unpowered: no power state recorded for them is true. *)
Theorem unrooted_branches_unpowered (ls : LadderStructure.t) (U : Z -> Prop)
    (st : State) :
  unrooted ls U ->
  scan (Some ls) st = Completed (executeScan (Some ls) st) /\
  forall i c, U i ->
    default false (branchPowerStates (executeScan (Some ls) st) !! (i, c)) = false.
Proof.
  intros HU. split; [reflexivity|].
  unfold executeScan, evaluateLadder.
  apply (unrooted_ladder ls U); [done| |].
  - intros i c _. cbn [branchPowerStates]. by rewrite lookup_empty.
  - intros b Hb. unfold sortedBranches in Hb.
    by apply (js_sort_elem_of branchOrder) in Hb.
Qed.

Lemma twoCycle_unrooted : unrooted twoCycleLadder (fun i => i = 1 \/ i = 2).
Proof.
  intros b Hb Hi. cbn in Hb.
  apply list_elem_of_In in Hb. cbn in Hb.
  destruct Hb as [<-|[<-|[<-|[]]]]; cbn in Hi.
  - lia.
  - exists 2. split; [reflexivity | right; lia].
  - exists 1. split; [reflexivity | right; lia].
Qed.

Lemma unrooted_branches_unpowered_witness :
  scan (Some twoCycleLadder) freshPins
    = Completed (executeScan (Some twoCycleLadder) freshPins) /\
  forall i c, i = 1 \/ i = 2 ->
    default false
      (branchPowerStates (executeScan (Some twoCycleLadder) freshPins) !! (i, c))
    = false.
Proof.
  exact (unrooted_branches_unpowered twoCycleLadder (fun i => i = 1 \/ i = 2)
           freshPins twoCycle_unrooted).
Defined.

(** C8, as stated, fails: a parent id that names no branch raises nothing;
    the scan of such a diagram completes. *)
Lemma dangling_parent_scan_completes :
  parent_branch_id danglingBranch = Some 7 /\
  LadderStructure.findBranchById danglingLadder 7 = None /\
  scan (Some danglingLadder) freshPins <> Failed DanglingParentError.
Proof. split; [reflexivity | split; [reflexivity | discriminate]]. Qed.

(** C8 (amended): a non-root branch whose parent_branch_id names no
    existing branch raises no error.  It is evaluated as a branch without
    incoming power: false is recorded at its start column, before and
    after each of its components and at its end column, no other power
    state changes and no pin is written; the scan of the diagram
    completes. *)
Theorem dangling_parent_unpowered (branch : Branch) (ls : LadderStructure.t)
    (p : Z) (st : State) :
  parent_branch_id branch = Some p ->
  LadderStructure.findBranchById ls p = None ->
  incomingPower branch ls st = false /\
  pinStates (evaluateBranch branch ls st) = pinStates st /\
  (forall k, branchPowerStates (evaluateBranch branch ls st) !! k =
             if decide (k ∈ branchKeys branch) then Some false
             else branchPowerStates st !! k) /\
  scan (Some ls) st = Completed (executeScan (Some ls) st).
Proof.
  intros Hp Hfind.
  assert (Hin : incomingPower branch ls st = false).
  { unfold incomingPower. by rewrite Hp, Hfind. }
  destruct (unpowered_branch branch ls st Hin) as [H1 H2].
  by repeat split.
Qed.

Lemma dangling_parent_unpowered_witness :
  parent_branch_id danglingBranch = Some 7 /\
  LadderStructure.findBranchById danglingLadder 7 = None /\
  incomingPower danglingBranch danglingLadder freshPins = false /\
  pinStates (evaluateBranch danglingBranch danglingLadder freshPins)
    = pinStates freshPins.
Proof.
  split; [reflexivity|]. split; [reflexivity|].
  destruct (dangling_parent_unpowered danglingBranch danglingLadder 7 freshPins
              eq_refl eq_refl) as (H1 & H2 & _).
  exact (conj H1 H2).
Defined.

End Topology.

Section EvaluationOrder.
Import LadderSimulation Examples.

(** ** The order in which branches are evaluated *)

Lemma branchOrder_total a b : branchOrder a b <= 0 \/ branchOrder b a <= 0.
Proof.
  unfold branchOrder.
  destruct (parent_branch_id a), (parent_branch_id b); lia.
Qed.

Lemma branchOrder_trans a b c :
  branchOrder a b <= 0 -> branchOrder b c <= 0 -> branchOrder a c <= 0.
Proof.
  unfold branchOrder.
  destruct (parent_branch_id a), (parent_branch_id b), (parent_branch_id c); lia.
Qed.

(** The order is the list of all branches, sorted by the comparator: root
    branches first, and within the roots and within the others by
    ascending row. *)
Lemma sortedBranches_perm ls :
  Permutation (sortedBranches ls) (LadderStructure.getAllBranches ls).
Proof. apply js_sort_perm. Qed.

Lemma sortedBranches_sorted ls :
  StronglySorted (fun a b => branchOrder a b <= 0) (sortedBranches ls).
Proof. apply js_sort_sorted; [apply branchOrder_total | apply branchOrder_trans]. Qed.

Lemma branchOrder_roots_first a b :
  parent_branch_id a = None -> parent_branch_id b <> None -> branchOrder a b <= 0.
Proof.
  unfold branchOrder. intros ->. destruct (parent_branch_id b); [lia | done].
Qed.

Lemma branchOrder_same_kind a b :
  (parent_branch_id a = None <-> parent_branch_id b = None) ->
  branchOrder a b = row a - row b.
Proof.
  unfold branchOrder.
  destruct (parent_branch_id a), (parent_branch_id b); intros [H1 H2]; try done.
  - by specialize (H2 eq_refl).
  - by specialize (H1 eq_refl).
Qed.

(** A grandchild whose row is smaller than its parent's: both are non-root
    branches, so they are ordered by row alone, and the grandchild (id 2,
    row 1) is evaluated before its parent (id 1, row 2). *)
Lemma grandchild_evaluated_before_parent :
  map id (sortedBranches grandchildLadder) = [0; 2; 1] /\
  map parent_branch_id (sortedBranches grandchildLadder) = [None; Some 1; Some 0].
Proof. split; reflexivity. Qed.

(** Where the comparator does give a parent-first order: the evaluation
    order is the list of all branches sorted with root branches first and,
    among the roots and among the non-root branches, by ascending row, so a
    branch stands after its parent whenever the parent is a root branch or
    has a smaller row than the branch. *)
Theorem parent_evaluated_first (ls : LadderStructure.t) (b pb : Branch) :
  b ∈ LadderStructure.getAllBranches ls ->
  pb ∈ LadderStructure.getAllBranches ls ->
  parent_branch_id b = Some (id pb) ->
  parent_branch_id pb = None \/ row pb < row b ->
  Permutation (sortedBranches ls) (LadderStructure.getAllBranches ls) /\
  StronglySorted (fun x y => branchOrder x y <= 0) (sortedBranches ls) /\
  exists l1 l2 l3, sortedBranches ls = (l1 ++ pb :: l2 ++ b :: l3)%list.
Proof.
  intros Hb Hpb Hpar Hrow.
  split; [apply sortedBranches_perm|].
  split; [apply sortedBranches_sorted|].
  apply (sorted_strictly_before branchOrder branchOrder_total).
  - apply sortedBranches_sorted.
  - by rewrite sortedBranches_perm.
  - by rewrite sortedBranches_perm.
  - unfold branchOrder. rewrite Hpar.
    destruct (parent_branch_id pb); [|lia].
    destruct Hrow; [done | lia].
Qed.

Lemma parent_evaluated_first_witness :
  exists l1 l2 l3,
    sortedBranches twoChildrenLadder
    = (l1 ++ mkBranch 0 0 0 9 None None []
          :: l2 ++ mkBranch 2 2 0 9 (Some 0) (Some 3) [] :: l3)%list.
Proof.
  apply (parent_evaluated_first twoChildrenLadder
           (mkBranch 2 2 0 9 (Some 0) (Some 3) [])
           (mkBranch 0 0 0 9 None None [])).
  - cbn. apply list_elem_of_here.
  - cbn. do 2 apply list_elem_of_further. apply list_elem_of_here.
  - reflexivity.
  - left. reflexivity.
Defined.

(** C7: the order is not parent-first on a grandchild above its parent.
    The diagram is the one the editor builds with createBranch(0, 0, 2, 0,
    9), createBranch(2, 0, 1, 0, 9) and addComponent(1, 5, 'OUT',
    'O:0/0'): main rung (id 0, row 0), a child (id 1, row 2) and a
    grandchild (id 2, row 1) with a coil.  The comparator of
    LadderSimulation orders the two non-root branches by row, so the
    grandchild is evaluated before its parent; it reads the parent's power
    before the parent has recorded any, and after the scan the parent is
    energized at the connection column while the grandchild is dark and
    its coil's pin is off.  Evaluated parent first, by the same
    evaluateBranch, the coil's pin is on.  LadderSimulator, which sorts
    the branch array of its LadderData in place by row alone, leaves the
    same branches in the same order. *)
Theorem grandchild_read_before_parent :
  LadderStructureEditor.structure
    (snd (LadderStructureEditor.addComponent 1 5 OUT "O:0/0"
       (snd (LadderStructureEditor.createBranch 2 0 1 0 9
          (snd (LadderStructureEditor.createBranch 0 0 2 0 9
             LadderStructureEditor.constructor))))))
  = MoreScenarios.grandchildCoilLadder /\
  map id (sortedBranches MoreScenarios.grandchildCoilLadder) = [0; 2; 1] /\
  map parent_branch_id (sortedBranches MoreScenarios.grandchildCoilLadder)
  = [None; Some 1; Some 0] /\
  (let st := executeScan (Some MoreScenarios.grandchildCoilLadder)
                         MoreScenarios.outputOff in
   isWireEnergized (Some MoreScenarios.grandchildCoilLadder) st 2 0 = true /\
   isWireEnergized (Some MoreScenarios.grandchildCoilLadder) st 1 0 = false /\
   getPinState st "O:0/0" = false) /\
  getPinState
    (foldl (fun st b => evaluateBranch b MoreScenarios.grandchildCoilLadder st)
           (mkState true (clearOutputs (pinStates MoreScenarios.outputOff)) ∅ ∅)
           [MoreScenarios.grandchildRoot; MoreScenarios.grandchildParent;
            MoreScenarios.grandchildCoil]) "O:0/0" = true /\
  map id (LadderData.getAllBranches
            (LadderSimulator.ladderData
               (LadderSimulator.evaluateLadder
                  (LadderSimulator.constructor MoreScenarios.grandchildData))))
  = [0; 2; 1].
Proof.
  split; [reflexivity|]. split; [reflexivity|]. split; [reflexivity|].
  split; [|split; [|reflexivity]].
  - cbv zeta. repeat split; vm_compute; reflexivity.
  - vm_compute. reflexivity.
Qed.

End EvaluationOrder.

Section Idempotence.
Import LadderSimulation Examples.

(** ** Scans on pin tables that read alike *)

Lemma alike_refl s : alike s s.
Proof. by repeat split. Qed.

Lemma alike_set_power s1 s2 k v :
  alike s1 s2 -> alike (set_power s1 k v) (set_power s2 k v).
Proof.
  intros (H1 & H2 & H3 & H4). repeat split; cbn; [done.. | by rewrite H3 | done].
Qed.

Lemma alike_set_component s1 s2 k v :
  alike s1 s2 -> alike (set_component s1 k v) (set_component s2 k v).
Proof.
  intros (H1 & H2 & H3 & H4). repeat split; cbn; [done.. | by rewrite H4].
Qed.

Lemma alike_evaluateComponent c p s1 s2 :
  alike s1 s2 ->
  fst (evaluateComponent c p s1) = fst (evaluateComponent c p s2) /\
  alike (snd (evaluateComponent c p s1)) (snd (evaluateComponent c p s2)).
Proof.
  intros (H1 & H2 & H3 & H4). split.
  - unfold evaluateComponent. rewrite (H2 (address c)). by destruct (ctype c).
  - repeat split.
    + rewrite !evaluateComponent_state. by repeat case_match.
    + intros a. by rewrite !evaluateComponent_getPinState, H2.
    + by rewrite !evaluateComponent_power.
    + rewrite !evaluateComponent_state. by repeat case_match.
Qed.

Lemma alike_componentStep branch hp c s1 s2 :
  alike s1 s2 ->
  fst (componentStep branch (hp, s1) c) = fst (componentStep branch (hp, s2) c) /\
  alike (snd (componentStep branch (hp, s1) c)) (snd (componentStep branch (hp, s2) c)).
Proof.
  intros H. rewrite !componentStep_fst, !componentStep_snd. cbv zeta.
  destruct (alike_evaluateComponent c hp _ _
              (alike_set_power _ _ (id branch, col c) hp H)) as [Hr Hs].
  rewrite Hr. split; [done|].
  by apply alike_set_power, alike_set_component.
Qed.

Lemma alike_components branch l hp s1 s2 :
  alike s1 s2 ->
  fst (foldl (componentStep branch) (hp, s1) l)
  = fst (foldl (componentStep branch) (hp, s2) l) /\
  alike (snd (foldl (componentStep branch) (hp, s1) l))
        (snd (foldl (componentStep branch) (hp, s2) l)).
Proof.
  revert hp s1 s2. induction l as [|c l IH]; intros hp s1 s2 H; cbn [foldl].
  - done.
  - destruct (alike_componentStep branch hp c s1 s2 H) as [Hf Hs].
    rewrite (surjective_pairing (componentStep branch (hp, s1) c)).
    rewrite (surjective_pairing (componentStep branch (hp, s2) c)).
    rewrite Hf. by apply IH.
Qed.

Lemma alike_incomingPower branch ls s1 s2 :
  alike s1 s2 -> incomingPower branch ls s1 = incomingPower branch ls s2.
Proof.
  intros (H1 & H2 & H3 & H4). unfold incomingPower, parentPower.
  by rewrite H3.
Qed.

Lemma alike_evaluateBranch branch ls s1 s2 :
  alike s1 s2 -> alike (evaluateBranch branch ls s1) (evaluateBranch branch ls s2).
Proof.
  intros H. rewrite !evaluateBranch_unfold. cbv zeta.
  rewrite (alike_incomingPower branch ls s1 s2 H).
  destruct (alike_components branch (components branch)
              (incomingPower branch ls s2) _ _
              (alike_set_power _ _ (id branch, start_col branch)
                 (incomingPower branch ls s2) H)) as [Hf Hs].
  rewrite Hf. by apply alike_set_power.
Qed.

Lemma alike_ladder ls l s1 s2 :
  alike s1 s2 ->
  alike (foldl (fun st b => evaluateBranch b ls st) s1 l)
        (foldl (fun st b => evaluateBranch b ls st) s2 l).
Proof.
  revert s1 s2. induction l as [|b l IH]; intros s1 s2 H; cbn [foldl]; [done|].
  by apply IH, alike_evaluateBranch.
Qed.

Lemma alike_observations ls s1 s2 : alike s1 s2 -> sameObservations ls s1 s2.
Proof.
  intros (H1 & H2 & H3 & H4). repeat split.
  - done.
  - intros r c. unfold isWireEnergized. by rewrite H3.
  - intros r c. unfold isComponentActive. by rewrite H4.
Qed.

(** ** The coils that can appear in the log *)

Lemma componentsLog_coils branch l hp st e :
  e ∈ componentsLog branch l hp st ->
  exists c, c ∈ l /\ ctype c = OUT /\ address c = fst e.
Proof.
  revert hp st. induction l as [|c l IH]; intros hp st; cbn [componentsLog].
  - intros H. by apply elem_of_nil in H.
  - rewrite elem_of_app. intros [H|H].
    + exists c. split; [apply list_elem_of_here|].
      unfold coilEvent in H. destruct (ctype c) eqn:Ht;
        try (by apply elem_of_nil in H).
      apply list_elem_of_singleton in H as ->. done.
    + destruct (IH _ _ H) as (c' & Hc' & Ht & Ha).
      exists c'. split; [by apply list_elem_of_further | done].
Qed.

Lemma ladderLog_coils ls l st e :
  (forall b, b ∈ l -> b ∈ LadderStructure.getAllBranches ls) ->
  e ∈ ladderLog ls l st -> coilOf ls (fst e).
Proof.
  revert st. induction l as [|b l IH]; intros st Hl; cbn [ladderLog].
  - intros H. by apply elem_of_nil in H.
  - rewrite elem_of_app. intros [H|H].
    + apply componentsLog_coils in H as (c & Hc & Ht & Ha).
      exists b, c. split; [apply Hl, list_elem_of_here | done].
    + apply (IH (evaluateBranch b ls st)); [|done].
      intros b' Hb'. by apply Hl, list_elem_of_further.
Qed.

Lemma scanLog_coils ls st e : e ∈ scanLog (Some ls) st -> coilOf ls (fst e).
Proof.
  apply ladderLog_coils. intros b. apply js_sort_elem_of.
Qed.

Lemma poweredCoil_true a log :
  poweredCoil a log = true -> exists e, e ∈ log /\ fst e = a /\ snd e = true.
Proof.
  unfold poweredCoil. rewrite existsb_exists.
  intros (e & He & Hb). apply andb_true_iff in Hb as [Ha Hp].
  apply bool_decide_eq_true in Ha.
  exists e. split; [by apply list_elem_of_In | done].
Qed.

(** A pin to which no coil is bound keeps its value, unless it is an output
    pin, which the scan clears. *)
Lemma executeScan_no_coil ls st a :
  ~ coilOf ls a ->
  getPinState (executeScan (Some ls) st) a =
  if startsWith a "O:" then false else getPinState st a.
Proof.
  intros Hno. rewrite executeScan_getPinState.
  destruct (poweredCoil a (scanLog (Some ls) st)) eqn:Hpow.
  - apply poweredCoil_true in Hpow as (e & He & Ha & _).
    apply scanLog_coils in He. by rewrite Ha in He.
  - apply orb_false_r.
Qed.

Lemma componentStep_isRunning branch hp st c :
  isRunning (snd (componentStep branch (hp, st) c)) = isRunning st.
Proof.
  rewrite componentStep_snd. cbv zeta. cbn [set_power set_component isRunning].
  rewrite evaluateComponent_state. by repeat case_match.
Qed.

Lemma components_isRunning branch l hp st :
  isRunning (snd (foldl (componentStep branch) (hp, st) l)) = isRunning st.
Proof.
  revert hp st. induction l as [|c l IH]; intros hp st; cbn [foldl]; [done|].
  rewrite (surjective_pairing (componentStep branch (hp, st) c)), IH.
  apply componentStep_isRunning.
Qed.

Lemma evaluateBranch_isRunning branch ls st :
  isRunning (evaluateBranch branch ls st) = isRunning st.
Proof.
  rewrite evaluateBranch_unfold. cbv zeta. cbn [set_power isRunning].
  by rewrite components_isRunning.
Qed.

Lemma ladder_isRunning ls l st :
  isRunning (foldl (fun st b => evaluateBranch b ls st) st l) = isRunning st.
Proof.
  revert st. induction l as [|b l IH]; intros st; cbn [foldl]; [done|].
  by rewrite IH, evaluateBranch_isRunning.
Qed.

Lemma executeScan_isRunning ls st : isRunning (executeScan ls st) = isRunning st.
Proof.
  unfold executeScan, evaluateLadder. destruct ls as [s|]; [|done].
  by rewrite ladder_isRunning.
Qed.

(** ** Input pins during a scan *)

(** C3 fails on LadderSimulation: its coil writes [pinStates[address]]
    without looking at the address.  A powered coil bound to the input pin
    I:0/0 turns that input pin on. *)
Theorem coil_writes_input_pin :
  startsWith "I:0/0" "I:" = true /\
  getPinState inputOff "I:0/0" = false /\
  getPinState (executeScan (Some coilOnInputLadder) inputOff) "I:0/0" = true.
Proof. repeat split. Qed.

(** On diagrams whose coils are all bound to output addresses the scan of
    LadderSimulation leaves every other pin as it was. *)
Lemma executeScan_keeps_inputs ls st a :
  coilsOnOutputs ls ->
  startsWith a "O:" = false ->
  getPinState (executeScan (Some ls) st) a = getPinState st a.
Proof.
  intros Hc Ha. rewrite executeScan_no_coil, Ha; [done|].
  intros (b & c & Hb & Hcb & Ht & Hac).
  specialize (Hc b c Hb Hcb Ht). congruence.
Qed.

(** ** Scanning twice *)

(** C5 fails on LadderSimulation, by the same unguarded coil write: a
    freshly placed NC contact and coil, both still without a pin, share the
    empty address.  The first scan finds the contact conducting and the
    coil latches the entry of the empty address, which no scan clears; the
    second scan finds the contact open. *)
Theorem scan_twice_differs :
  isComponentActive (executeScan (Some unassignedLadder) freshPins) 0 1 = true /\
  isWireEnergized (Some unassignedLadder)
    (executeScan (Some unassignedLadder) freshPins) 0 2 = true /\
  isComponentActive
    (executeScan (Some unassignedLadder)
       (executeScan (Some unassignedLadder) freshPins)) 0 1 = false /\
  isWireEnergized (Some unassignedLadder)
    (executeScan (Some unassignedLadder)
       (executeScan (Some unassignedLadder) freshPins)) 0 2 = false.
Proof. repeat split; vm_compute; reflexivity. Qed.

(** What a scan shows depends on the pin table only through the pins that
    are not output pins. *)
Lemma executeScan_alike ls s1 s2 :
  isRunning s1 = isRunning s2 ->
  (forall a, startsWith a "O:" = false -> getPinState s1 a = getPinState s2 a) ->
  alike (executeScan ls s1) (executeScan ls s2).
Proof.
  intros Hr Hp.
  assert (Hclear : alike (mkState (isRunning s1) (clearOutputs (pinStates s1)) ∅ ∅)
                         (mkState (isRunning s2) (clearOutputs (pinStates s2)) ∅ ∅)).
  { repeat split; cbn; [done|].
    intros a. unfold getPinState. cbn. rewrite !readPin_clearOutputs.
    destruct (startsWith a "O:") eqn:Ha; [done | by apply Hp]. }
  unfold executeScan, evaluateLadder. destruct ls as [s|]; [|done].
  by apply alike_ladder.
Qed.

(** X2: on diagrams whose coils are all bound to output addresses a second
    scan of LadderSimulation, with no pin changed in between, shows what
    the first one showed: the same pin states, energized wires and active
    components. *)
Lemma scan_idempotent ls st :
  coilsOnOutputs ls ->
  sameObservations (Some ls)
    (executeScan (Some ls) (executeScan (Some ls) st))
    (executeScan (Some ls) st).
Proof.
  intros Hc. apply alike_observations, executeScan_alike.
  - apply executeScan_isRunning.
  - intros a Ha. by apply executeScan_keeps_inputs.
Qed.

Lemma scan_idempotent_without_ladder st :
  executeScan None (executeScan None st) = executeScan None st.
Proof.
  unfold executeScan, evaluateLadder. cbn. f_equal.
  apply map_eq. intros a. rewrite !lookup_clearOutputs.
  destruct (pinStates st !! a); cbn; [|done].
  by destruct (startsWith a "O:").
Qed.

End Idempotence.

Section Toggle.
Import LadderSimulation Examples.

(** ** toggleInput *)

(** C10, as stated, fails while the simulation is running: the toggle is
    followed by a scan, which recomputes the output pins.  Toggling the
    input "I:0/0" of the rung  NO I:0/0 -- OUT O:0/0  also changes the
    entry of "O:0/0". *)
Lemma toggle_running_changes_output :
  "O:0/0" <> "I:0/0" /\
  pinStates (snd (toggleInput (Some contactCoilLadder) "I:0/0" runningOff)) !! "O:0/0"
    <> pinStates runningOff !! "O:0/0".
Proof. split; [discriminate | vm_compute; discriminate]. Qed.

(** C10 (amended): on an address that starts with neither "I:" nor "O:",
    toggleInput returns false and leaves the state unchanged.  On an
    address that starts with "I:" or with "O:" (output pins are treated
    exactly like input pins), and while the simulation is not running, it
    negates the named pin (a missing entry counts as false), returns the
    new value, and changes no other entry of the pin table and nothing
    else of the state.  While the simulation is running, the state it
    leaves is the one executeScan computes from the table with the named
    pin negated, the value it returns is what the named pin reads after
    that scan, and every pin then reads its toggled value (false for an
    output pin, which the scan clears) or'ed with the power that reached
    the coils bound to it: the output pins are recomputed. *)
Theorem toggleInput_frame (ls : option LadderStructure.t) (a : string) (st : State) :
  let v := fst (toggleInput ls a st) in
  let st' := snd (toggleInput ls a st) in
  let toggled := set_pins st (<[a := negb (getPinState st a)]> (pinStates st)) in
  if startsWith a "I:" || startsWith a "O:" then
    if isRunning st then
      st' = executeScan ls toggled /\
      v = getPinState (executeScan ls toggled) a /\
      isRunning st' = true /\
      (forall b, getPinState st' b
                 = (if startsWith b "O:" then false
                    else if decide (b = a) then negb (getPinState st a)
                    else getPinState st b)
                   || poweredCoil b (scanLog ls toggled))
    else
      v = negb (getPinState st a) /\
      pinStates st' !! a = Some v /\
      (forall a', a' <> a -> pinStates st' !! a' = pinStates st !! a') /\
      isRunning st' = isRunning st /\
      branchPowerStates st' = branchPowerStates st /\
      componentStates st' = componentStates st
  else v = false /\ st' = st.
Proof.
  unfold toggleInput.
  destruct (startsWith a "I:" || startsWith a "O:") eqn:Hp; cbn [fst snd]; [|done].
  cbn [set_pins isRunning pinStates].
  destruct (isRunning st) eqn:Hrun; cbn [fst snd].
  - split; [done|]. split; [done|]. split.
    + rewrite executeScan_isRunning. by cbn.
    + intros b. rewrite executeScan_getPinState. f_equal.
      destruct (startsWith b "O:"); [done|].
      unfold getPinState. cbn [set_pins pinStates]. rewrite readPin_insert.
      destruct (decide (b = a)) as [->|Hne];
        [by rewrite decide_True | by rewrite decide_False by congruence].
  - cbn [set_pins isRunning pinStates branchPowerStates componentStates].
    rewrite readPin_insert, decide_True by done.
    split; [done|]. split; [by rewrite lookup_insert_eq|].
    split; [|done].
    intros a' Hne. by rewrite lookup_insert_ne.
Qed.

Lemma toggleInput_frame_witness :
  snd (toggleInput (Some contactCoilLadder) "I:0/0" runningOff)
  = executeScan (Some contactCoilLadder)
      (set_pins runningOff
         (<["I:0/0" := negb (getPinState runningOff "I:0/0")]> (pinStates runningOff)))
  /\ fst (toggleInput (Some contactCoilLadder) "I:0/0" runningOff) = true
  /\ getPinState (snd (toggleInput (Some contactCoilLadder) "I:0/0" runningOff)) "O:0/0"
     = true.
Proof.
  pose proof (toggleInput_frame (Some contactCoilLadder) "I:0/0" runningOff) as H.
  cbv zeta in H.
  change (startsWith "I:0/0" "I:" || startsWith "I:0/0" "O:") with true in H.
  change (isRunning runningOff) with true in H.
  destruct H as (Hstate & Hvalue & _ & _).
  split; [exact Hstate|]. split.
  - rewrite Hvalue. reflexivity.
  - rewrite Hstate. reflexivity.
Defined.

End Toggle.

(** * Properties of LadderSimulator and of evaluateRung *)

Section LastWriterWins.
Import Scenarios.

(** ** Several coils on one output address *)

(** The end-to-end scenario of the specification on LadderSimulation: with
    I:0/0 on and I:0/1 off the main path conducts; with I:0/0 off and
    I:0/1 on the branch conducts, fed from the main rung at column 0. *)
Example end_to_end_main_path :
  LadderSimulation.getPinState
    (LadderSimulation.executeScan (Some parallelLadder) parallelPins) "O:0/0" = true.
Proof. vm_compute. reflexivity. Qed.

Example end_to_end_branch_path :
  LadderSimulation.getPinState
    (LadderSimulation.executeScan (Some parallelLadder)
       (snd (LadderSimulation.toggleInput (Some parallelLadder) "I:0/1"
               (snd (LadderSimulation.toggleInput (Some parallelLadder) "I:0/0" parallelPins)))))
    "O:0/0" = true.
Proof. vm_compute. reflexivity. Qed.

(** In LadderSimulator a coil that no power reaches writes false, whatever
    an earlier coil wrote. *)
Lemma unpowered_coil_resets (c : Component) (st : LadderSimulator.State) :
  ctype c = OUT ->
  LadderSimulator.getPinState
    (snd (LadderSimulator.evaluateComponent c false st)) (address c) = false.
Proof.
  intros Ht. unfold LadderSimulator.evaluateComponent. rewrite Ht. cbn.
  unfold LadderSimulator.getPinState. cbn. by rewrite readPin_insert, decide_True.
Qed.

(** C1 fails on LadderSimulator.  In the end-to-end scenario of the
    specification (I:0/0 on, I:0/1 off) the coil of the main rung is
    reached by power and turns O:0/0 on; the coil of the parallel branch,
    bound to the same address, is not reached and turns it off again: the
    pass ends with O:0/0 off.  LadderSimulation, on the same diagram and
    pins, ends with O:0/0 on. *)
Theorem parallel_coil_reset :
  LadderSimulator.getPinState
    (LadderSimulator.evaluateBranch mainBranch parallelState) "O:0/0" = true /\
  LadderSimulator.getPinState (LadderSimulator.executeScan parallelState) "O:0/0"
    = false /\
  LadderSimulation.getPinState
    (LadderSimulation.executeScan (Some parallelLadder) parallelPins) "O:0/0" = true.
Proof. repeat split; vm_compute; reflexivity. Qed.

(** The same on the main rung of PLCSimulation.evaluateRung, which assigns
    the incoming power to the pin: of two coils on O:0/0 with an open
    contact between them, the first is powered, the second is not, and the
    pin ends off. *)
Lemma rung_coil_overwritten :
  PLCSimulationRung.wire
    (PLCSimulationRung.executeScanCycle twoCoilWindow rungPins) 0 0
    PLCSimulationRung.PosIn = true /\
  PLCSimulationRung.getPinState
    (PLCSimulationRung.evaluateRung twoCoilGrid 0 1 rungPins) "O:0/0" = true /\
  PLCSimulationRung.getPinState
    (PLCSimulationRung.executeScanCycle twoCoilWindow rungPins) "O:0/0" = false.
Proof. repeat split; vm_compute; reflexivity. Qed.

(** LadderSimulator evaluates the branches by ascending row alone. *)
Lemma byRow_sorted (d : LadderData.t) :
  StronglySorted (fun a b => row a <= row b)
    (js_sort LadderSimulator.byRow (LadderData.getAllBranches d)).
Proof.
  assert (H : StronglySorted (fun a b => LadderSimulator.byRow a b <= 0)
                (js_sort LadderSimulator.byRow (LadderData.getAllBranches d))).
  { apply js_sort_sorted; unfold LadderSimulator.byRow; intros; lia. }
  induction H as [|b l Hl IH Hb]; constructor; [done|].
  eapply Forall_impl; [exact Hb|].
  unfold LadderSimulator.byRow. intros; cbn in *; lia.
Qed.

End LastWriterWins.

(** * Properties of PLCSimulation with the feedback loop *)

Section FoldFacts.
Context {A B : Type}.

Lemma foldl_invariant (P : A -> Prop) (f : A -> B -> A) (l : list B) (a : A) :
  P a -> (forall a b, P a -> P (f a b)) -> P (foldl f a l).
Proof.
  intros Ha Hf. revert a Ha. induction l as [|b l IH]; intros a Ha; cbn [foldl].
  - done.
  - by apply IH, Hf.
Qed.

Lemma foldl_related (R : A -> A -> Prop) (f : A -> B -> A) (l : list B) (a a' : A) :
  R a a' -> (forall a a' b, R a a' -> R (f a b) (f a' b)) ->
  R (foldl f a l) (foldl f a' l).
Proof.
  intros Ha Hf. revert a a' Ha.
  induction l as [|b l IH]; intros a a' Ha; cbn [foldl].
  - done.
  - by apply IH, Hf.
Qed.

Lemma foldl_pointwise (f g : A -> B -> A) (l : list B) (a : A) :
  (forall a b, f a b = g a b) -> foldl f a l = foldl g a l.
Proof.
  intros Hfg. revert a. induction l as [|b l IH]; intros a; cbn [foldl]; [done|].
  by rewrite Hfg, IH.
Qed.
End FoldFacts.

Section ScanLoop.
Import Grid PLCSimulation Scenarios.

(** ** The feedback loop *)

Lemma afterTurns_S w j st :
  afterTurns w (S j) st = afterTurns w j (iteration w st).
Proof. unfold afterTurns. apply Nat.iter_succ_r. Qed.

Lemma afterTurns_last w j st :
  afterTurns w (S j) st = iteration w (afterTurns w j st).
Proof. reflexivity. Qed.

Lemma turnChanged_S w j st :
  turnChanged w (S j) st = turnChanged w j (iteration w st).
Proof. unfold turnChanged. by rewrite !afterTurns_S. Qed.

(** The loop, started with a budget of [b] turns, takes some [k] turns,
    [1 <= k <= b]: every turn before the last one changed an output pin,
    and if the budget was not used up the last turn changed none. *)
Lemma scanLoop_turns w b i st :
  (0 < b)%nat ->
  exists k,
    (1 <= k <= b)%nat /\
    scanLoop w b i st = ((i + k)%nat, afterTurns w k st) /\
    (forall j, (S j < k)%nat -> turnChanged w j st = true) /\
    ((k < b)%nat -> turnChanged w (k - 1) st = false).
Proof.
  revert i st. induction b as [|b IH]; intros i st Hb; [lia|].
  cbn [scanLoop].
  destruct (stateChanged (outputStates (pinStates st))
              (pinStates (iteration w st))) eqn:Hch.
  - destruct b as [|b'].
    + exists 1%nat. cbn [scanLoop]. split; [lia|]. split.
      { f_equal. lia. }
      split; [intros j Hj; lia | intros Hlt; lia].
    + destruct (IH (S i) (iteration w st) ltac:(lia))
        as (k & Hk & Hloop & Hbefore & Hlast).
      exists (S k). split; [lia|]. split.
      { rewrite Hloop, afterTurns_S. f_equal. lia. }
      split.
      * intros [|j] Hj; [exact Hch|].
        rewrite turnChanged_S. apply Hbefore. lia.
      * intros Hlt. replace (S k - 1)%nat with (S (k - 1)) by lia.
        rewrite turnChanged_S. apply Hlast. lia.
  - exists 1%nat. split; [lia|]. split.
    { f_equal. lia. }
    split; [intros j Hj; lia|].
    intros _. exact Hch.
Qed.

End ScanLoop.

Section GridInvariants.
Import Grid PLCSimulation.

(** ** What a turn of the loop can change *)

Lemma columnStep_unfold g c cp st r :
  columnStep g c (cp, st) r =
  let hasPower :=
    if (c =? 0)%nat then
      if (0 <? r)%nat then isConnectedToLeftRail g r c else true
    else
      default false (wireStates st !! (r, (c - 1)%nat))
      || checkVerticalPower st g r c in
  let e := if hasPower then evaluateCell g r c st else (hasPower, st) in
  ((cp ++ [fst e])%list, snd e).
Proof.
  unfold columnStep. cbv zeta.
  by destruct (if _ : bool then evaluateCell g r c st else _).
Qed.

Lemma evaluateColumn_unfold g c rows st :
  evaluateColumn g c rows st =
  let r := foldl (columnStep g c) ([], st) (seq 0 rows) in
  (handleParallelPaths g c rows (fst r), snd r).
Proof. unfold evaluateColumn. by destruct (foldl _ _ _). Qed.

Lemma evaluateLadder_unfold w g st :
  available w = Some g ->
  evaluateLadder w st =
  foldl (fun st c =>
           let e := evaluateColumn g c (ROWS w) st in
           foldl (fun st r => set_wire st (r, c) (default false (fst e !! r)))
                 (snd e) (seq 0 (ROWS w)))
        st (seq 0 (COLS w)).
Proof.
  intros Hg. unfold evaluateLadder. rewrite Hg.
  apply foldl_pointwise. intros s c. by destruct (evaluateColumn g c (ROWS w) s).
Qed.

Section Preserved.
Variable w : Window.
Variable P : State -> Prop.
Hypothesis P_wire : forall st k v, P st -> P (set_wire st k v).
Hypothesis P_component : forall st k v, P st -> P (set_component st k v).
Hypothesis P_coil : forall st a,
  coilAddress w a -> startsWith a "O:" = true -> P st -> P (set_pin st a true).

Lemma evaluateCell_preserves g r c st :
  available w = Some g -> P st -> P (snd (evaluateCell g r c st)).
Proof.
  intros Hg HP. unfold evaluateCell.
  destruct (cellAt g r c) as [cell|] eqn:Hcell; [|done].
  destruct (type cell) eqn:Ht; cbn [snd]; auto.
  apply P_component.
  destruct (startsWith (address cell) "O:") eqn:Ho; [|done].
  apply P_coil; [|done..]. by exists g, r, c, cell.
Qed.

Lemma columnStep_preserves g c acc r :
  available w = Some g -> P (snd acc) -> P (snd (columnStep g c acc r)).
Proof.
  intros Hg HP. destruct acc as [cp st]. rewrite columnStep_unfold. cbv zeta.
  cbn [snd] in *. case_match; [by apply evaluateCell_preserves | done].
Qed.

Lemma evaluateColumn_preserves g c rows st :
  available w = Some g -> P st -> P (snd (evaluateColumn g c rows st)).
Proof.
  intros Hg HP. rewrite evaluateColumn_unfold. cbv zeta. cbn [snd].
  apply (foldl_invariant (fun acc => P (snd acc))); [done|].
  intros acc r Hacc. by apply columnStep_preserves.
Qed.

Lemma evaluateLadder_preserves st : P st -> P (evaluateLadder w st).
Proof.
  intros HP. destruct (available w) as [g|] eqn:Hg.
  - rewrite (evaluateLadder_unfold w g st Hg).
    apply foldl_invariant; [done|]. intros s c Hs. cbv zeta.
    apply foldl_invariant; [by apply evaluateColumn_preserves|].
    intros s' r Hs'. by apply P_wire.
  - unfold evaluateLadder. by rewrite Hg.
Qed.

Lemma energizeFrom_preserves g r cs st : P st -> P (energizeFrom g r cs st).
Proof.
  revert st. induction cs as [|c cs IH]; intros st HP; cbn [energizeFrom]; [done|].
  repeat case_match; auto.
Qed.

Lemma initializeBranchPower_preserves st : P st -> P (initializeBranchPower w st).
Proof.
  intros HP. unfold initializeBranchPower.
  destruct (available w) as [g|]; [|done].
  apply foldl_invariant; [done|]. intros s [r powerCols] Hs.
  case_match; [by apply energizeFrom_preserves|].
  apply foldl_invariant; [done|]. intros s' _ Hs'.
  by apply energizeFrom_preserves.
Qed.
End Preserved.

(** A turn writes pins only at output addresses to which a coil of the grid
    is bound; every other entry of the table, present or not, is left as
    the clearing of the outputs left it. *)
Lemma iteration_pins w st a :
  startsWith a "O:" = false \/ ~ coilAddress w a ->
  pinStates (iteration w st) !! a = clearOutputs (pinStates st) !! a.
Proof.
  intros Ha. unfold iteration.
  set (v := clearOutputs (pinStates st) !! a).
  apply (evaluateLadder_preserves w (fun s => pinStates s !! a = v)); try done.
  - intros s b Hb Hob Hs. cbn. rewrite lookup_insert_ne; [done|].
    intros ->. destruct Ha as [Ha|Ha]; [congruence | done].
  - by apply (initializeBranchPower_preserves w (fun s => pinStates s !! a = v)).
Qed.

Lemma iteration_isRunning w st : isRunning (iteration w st) = isRunning st.
Proof.
  unfold iteration.
  apply (evaluateLadder_preserves w (fun s => isRunning s = isRunning st)); try done.
  by apply (initializeBranchPower_preserves w (fun s => isRunning s = isRunning st)).
Qed.

(** The engine never modifies a pin that is not an output pin. *)
Lemma iteration_keeps_inputs w st a :
  startsWith a "O:" = false ->
  pinStates (iteration w st) !! a = pinStates st !! a.
Proof.
  intros Ha. rewrite iteration_pins by auto.
  rewrite lookup_clearOutputs, Ha. by destruct (pinStates st !! a).
Qed.

Lemma afterTurns_keeps_inputs w j st a :
  startsWith a "O:" = false ->
  pinStates (afterTurns w j st) !! a = pinStates st !! a.
Proof.
  intros Ha. induction j as [|j IH]; [done|].
  by rewrite afterTurns_last, iteration_keeps_inputs.
Qed.

Lemma afterTurns_isRunning w j st : isRunning (afterTurns w j st) = isRunning st.
Proof.
  induction j as [|j IH]; [done|].
  by rewrite afterTurns_last, iteration_isRunning.
Qed.


End GridInvariants.

Section GridIdempotence.
Import Grid PLCSimulation Scenarios.

(** ** Turns on pin tables that read alike *)

Lemma alike_refl_grid s : alike s s.
Proof. by repeat split. Qed.

Lemma alike_sym_grid s1 s2 : alike s1 s2 -> alike s2 s1.
Proof. intros (H1 & H2 & H3 & H4). by repeat split. Qed.

Lemma alike_trans_grid s1 s2 s3 : alike s1 s2 -> alike s2 s3 -> alike s1 s3.
Proof.
  intros (H1 & H2 & H3 & H4) (K1 & K2 & K3 & K4).
  repeat split; [congruence | | congruence | congruence].
  intros a. by rewrite H2.
Qed.

Lemma alike_set_wire_grid s1 s2 k v :
  alike s1 s2 -> alike (set_wire s1 k v) (set_wire s2 k v).
Proof.
  intros (H1 & H2 & H3 & H4). repeat split; cbn; [done.. | by rewrite H3 | done].
Qed.

Lemma alike_set_component_grid s1 s2 k v :
  alike s1 s2 -> alike (set_component s1 k v) (set_component s2 k v).
Proof.
  intros (H1 & H2 & H3 & H4). repeat split; cbn; [done.. | by rewrite H4].
Qed.

Lemma alike_set_pin_grid s1 s2 a v :
  alike s1 s2 -> alike (set_pin s1 a v) (set_pin s2 a v).
Proof.
  intros (H1 & H2 & H3 & H4). repeat split; cbn; [done | | done..].
  intros b. unfold getPinState in *. cbn. rewrite !readPin_insert.
  case_decide; [done | apply H2].
Qed.

Lemma alike_evaluateCell g r c s1 s2 :
  alike s1 s2 ->
  fst (evaluateCell g r c s1) = fst (evaluateCell g r c s2) /\
  alike (snd (evaluateCell g r c s1)) (snd (evaluateCell g r c s2)).
Proof.
  intros H. pose proof H as (H1 & H2 & H3 & H4). unfold evaluateCell.
  destruct (cellAt g r c) as [cell|]; [|done].
  destruct (type cell); cbn [fst snd]; try done.
  - rewrite H2. split; [done | by apply alike_set_component_grid].
  - rewrite H2. split; [done | by apply alike_set_component_grid].
  - split; [done|]. apply alike_set_component_grid.
    destruct (startsWith (address cell) "O:"); [by apply alike_set_pin_grid | done].
Qed.

Lemma alike_columnStep g c acc1 acc2 r :
  alikeAcc acc1 acc2 -> alikeAcc (columnStep g c acc1 r) (columnStep g c acc2 r).
Proof.
  destruct acc1 as [cp1 s1], acc2 as [cp2 s2]. intros [Hcp H]. cbn in Hcp, H.
  subst cp2. rewrite !columnStep_unfold. cbv zeta.
  pose proof H as (H1 & H2 & H3 & H4).
  unfold checkVerticalPower. rewrite H3.
  case_match.
  - destruct (alike_evaluateCell g r c s1 s2 H) as [Hf Hs].
    split; cbn [fst snd]; [by rewrite Hf | done].
  - split; cbn [fst snd]; done.
Qed.

Lemma alike_evaluateColumn g c rows s1 s2 :
  alike s1 s2 ->
  alikeAcc (evaluateColumn g c rows s1) (evaluateColumn g c rows s2).
Proof.
  intros H. rewrite !evaluateColumn_unfold. cbv zeta.
  assert (Hfold : alikeAcc (foldl (columnStep g c) ([], s1) (seq 0 rows))
                           (foldl (columnStep g c) ([], s2) (seq 0 rows))).
  { apply (foldl_related alikeAcc); [by split|].
    intros a a' r. apply alike_columnStep. }
  destruct Hfold as [Hf Hs]. split; cbn [fst snd]; [by rewrite Hf | done].
Qed.

Lemma alike_evaluateLadder w s1 s2 :
  alike s1 s2 -> alike (evaluateLadder w s1) (evaluateLadder w s2).
Proof.
  intros H. destruct (available w) as [g|] eqn:Hg.
  - rewrite !(evaluateLadder_unfold w g _ Hg).
    apply (foldl_related alike); [done|]. intros a a' c Ha. cbv zeta.
    destruct (alike_evaluateColumn g c (ROWS w) a a' Ha) as [Hf Hs].
    rewrite Hf. apply (foldl_related alike); [done|].
    intros b b' r Hb. by apply alike_set_wire_grid.
  - unfold evaluateLadder. by rewrite Hg.
Qed.

Lemma alike_energizeFrom g r cs s1 s2 :
  alike s1 s2 -> alike (energizeFrom g r cs s1) (energizeFrom g r cs s2).
Proof.
  revert s1 s2. induction cs as [|c cs IH]; intros s1 s2 H; cbn [energizeFrom]; [done|].
  repeat case_match; auto. by apply IH, alike_set_wire_grid.
Qed.

Lemma alike_initializeBranchPower w s1 s2 :
  alike s1 s2 -> alike (initializeBranchPower w s1) (initializeBranchPower w s2).
Proof.
  intros H. unfold initializeBranchPower.
  destruct (available w) as [g|]; [|done].
  apply (foldl_related alike); [done|]. intros a a' [r powerCols] Ha.
  case_match; [by apply alike_energizeFrom|].
  apply (foldl_related alike); [done|]. intros b b' _ Hb.
  by apply alike_energizeFrom.
Qed.

(** What a turn yields depends on the pin table only through the pins that
    are not output pins. *)
Lemma alike_iteration w s1 s2 :
  isRunning s1 = isRunning s2 ->
  (forall a, startsWith a "O:" = false -> getPinState s1 a = getPinState s2 a) ->
  alike (iteration w s1) (iteration w s2).
Proof.
  intros Hr Hp. unfold iteration.
  apply alike_evaluateLadder, alike_initializeBranchPower.
  repeat split; cbn; [done|].
  intros a. unfold getPinState. cbn. rewrite !readPin_clearOutputs.
  destruct (startsWith a "O:") eqn:Ha; [done | by apply Hp].
Qed.

Lemma getPinState_keeps_inputs w j st a :
  startsWith a "O:" = false ->
  getPinState (afterTurns w j st) a = getPinState st a.
Proof.
  intros Ha. unfold getPinState, readPin. by rewrite afterTurns_keeps_inputs.
Qed.

(** However many turns the loop takes, it ends in a state that reads like
    the state after one turn. *)
Lemma afterTurns_alike w j st :
  alike (afterTurns w (S j) st) (iteration w st).
Proof.
  rewrite afterTurns_last. apply alike_iteration.
  - apply afterTurns_isRunning.
  - intros a Ha. by apply getPinState_keeps_inputs.
Qed.

Lemma executeScanCycle_turns w st :
  exists k,
    (1 <= k <= MAX_ITERATIONS)%nat /\
    executeScanCycle w st = (k, afterTurns w k st) /\
    (forall j, (S j < k)%nat -> turnChanged w j st = true) /\
    ((k < MAX_ITERATIONS)%nat -> turnChanged w (k - 1) st = false).
Proof.
  unfold executeScanCycle.
  destruct (scanLoop_turns w MAX_ITERATIONS 0 st) as (k & H1 & H2 & H3 & H4).
  { unfold MAX_ITERATIONS. lia. }
  exists k. split; [exact H1|]. split; [exact H2|]. split; [exact H3 | exact H4].
Qed.

Lemma executeScanCycle_alike w st :
  alike (snd (executeScanCycle w st)) (iteration w st).
Proof.
  destruct (executeScanCycle_turns w st) as (k & Hk & -> & _).
  cbn [snd]. destruct k as [|k]; [lia|]. apply afterTurns_alike.
Qed.

Lemma alike_sameObservations s1 s2 : alike s1 s2 -> sameObservations s1 s2.
Proof.
  intros (H1 & H2 & H3 & H4). repeat split; [done | |].
  - intros r c. unfold isWireEnergized. by rewrite H3.
  - intros r c. unfold isComponentActive. by rewrite H4.
Qed.

(** X10: the iterated scan of PLCSimulation is idempotent on what it shows:
    for every grid and pin table a second executeScanCycle, with no pin
    changed in between, shows the pin states, energized wires and active
    components that the first one showed. *)
Lemma executeScanCycle_idempotent w st :
  sameObservations
    (snd (executeScanCycle w (snd (executeScanCycle w st))))
    (snd (executeScanCycle w st)).
Proof.
  apply alike_sameObservations.
  eapply alike_trans_grid; [apply executeScanCycle_alike|].
  eapply alike_trans_grid; [|apply alike_sym_grid, executeScanCycle_alike].
  destruct (executeScanCycle_turns w st) as (k & Hk & -> & _). cbn [snd].
  apply alike_iteration.
  - apply afterTurns_isRunning.
  - intros a Ha. by apply getPinState_keeps_inputs.
Qed.

(** X9: PLCSimulation guards its coil write with the output prefix: no
    executeScanCycle changes, adds or removes the entry of a pin whose
    address does not start with "O:", whatever the grid and the pin
    table. *)
Lemma executeScanCycle_keeps_inputs w st a :
  startsWith a "O:" = false ->
  pinStates (snd (executeScanCycle w st)) !! a = pinStates st !! a.
Proof.
  intros Ha. destruct (executeScanCycle_turns w st) as (k & Hk & -> & _).
  cbn [snd]. by apply afterTurns_keeps_inputs.
Qed.

(** The loop test is the comparison of the output pins with their saved
    values. *)
Lemma stateChanged_false prev pins :
  stateChanged prev pins = false <->
  forall a v, pins !! a = Some v -> startsWith a "O:" = true -> prev !! a = Some v.
Proof.
  unfold stateChanged. split.
  - intros H a v Hav Ha. destruct (decide (prev !! a = Some v)) as [|Hne]; [done|].
    exfalso. apply not_true_iff_false in H. apply H, existsb_exists.
    exists (a, v). split; [by apply list_elem_of_In, elem_of_map_to_list|].
    cbn [fst snd]. rewrite Ha. cbn [andb]. by rewrite bool_decide_eq_false_2.
  - intros H. apply not_true_iff_false. rewrite existsb_exists.
    intros ([a v] & Hin & Hb). cbn [fst snd] in Hb.
    apply list_elem_of_In, elem_of_map_to_list in Hin.
    apply andb_true_iff in Hb as [Ha Hne].
    apply negb_true_iff, bool_decide_eq_false in Hne. by apply Hne, H.
Qed.





(** On the two-row feedback diagram the first turn turns both outputs on,
    the second turn confirms them, and the loop stops after two turns. *)
Example scan_cycle_two_turns :
  fst (executeScanCycle feedbackWindow gridPins) = 2%nat /\
  getPinState (snd (executeScanCycle feedbackWindow gridPins)) "O:0/0" = true /\
  getPinState (snd (executeScanCycle feedbackWindow gridPins)) "O:0/1" = true.
Proof. repeat split; vm_compute; reflexivity. Qed.

End GridIdempotence.

(** * Further properties of LadderSimulation *)

Section ScanResults.
Import LadderSimulation LadderFacts Examples Scenarios.

(** X1: after a scan of LadderSimulation every pin holds its value from
    before the scan (false for an output pin, which the scan clears),
    or'ed with the power that reached the coils bound to it during the
    pass; and only coils of the diagram appear among those coils. *)
Theorem coils_or_accumulate (ls : LadderStructure.t) (st : State) (a : string) :
  getPinState (executeScan (Some ls) st) a
  = (if startsWith a "O:" then false else getPinState st a)
    || poweredCoil a (scanLog (Some ls) st)
  /\ (poweredCoil a (scanLog (Some ls) st) = true -> coilOf ls a).
Proof.
  split; [apply executeScan_getPinState|].
  intros Hpow. apply poweredCoil_true in Hpow as (e & He & <- & _).
  by apply scanLog_coils in He.
Qed.

Lemma contactCoil_coilsOnOutputs : coilsOnOutputs contactCoilLadder.
Proof.
  intros b c Hb Hc Ht. cbn in Hb.
  apply list_elem_of_singleton in Hb as ->. cbn in Hc.
  apply elem_of_cons in Hc as [->|Hc]; [discriminate|].
  apply list_elem_of_singleton in Hc as ->. reflexivity.
Qed.

Lemma scan_idempotent_witness :
  sameObservations (Some contactCoilLadder)
    (executeScan (Some contactCoilLadder) (executeScan (Some contactCoilLadder) runningOff))
    (executeScan (Some contactCoilLadder) runningOff).
Proof. exact (scan_idempotent contactCoilLadder runningOff contactCoil_coilsOnOutputs). Defined.

(** X3: what a scan of LadderSimulation shows depends on the state it
    starts from only through the pins that are not output pins: the
    values of the output pins, the recorded power states and the
    component states of earlier scans have no influence. *)
Theorem scan_reads_inputs_only (ls : option LadderStructure.t) (s1 s2 : State) :
  isRunning s1 = isRunning s2 ->
  (forall a, startsWith a "O:" = false -> getPinState s1 a = getPinState s2 a) ->
  sameObservations ls (executeScan ls s1) (executeScan ls s2).
Proof.
  intros Hr Hp. apply alike_observations. by apply executeScan_alike.
Qed.

Lemma scan_reads_inputs_only_witness :
  sameObservations (Some contactCoilLadder)
    (executeScan (Some contactCoilLadder)
       (mkState true (<["O:0/0" := true]> (pinStates runningOff)) ∅ ∅))
    (executeScan (Some contactCoilLadder) runningOff).
Proof.
  apply (scan_reads_inputs_only (Some contactCoilLadder)
           (mkState true (<["O:0/0" := true]> (pinStates runningOff)) ∅ ∅) runningOff).
  - reflexivity.
  - intros a Ha. unfold getPinState. cbn [pinStates].
    rewrite readPin_insert. case_decide as Heq; [|reflexivity].
    subst a. discriminate Ha.
Defined.


(** ** Contacts in series *)

Lemma forallb_pointwise {A : Type} (f g : A -> bool) (l : list A) :
  (forall x, f x = g x) -> forallb f l = forallb g l.
Proof.
  intros Hfg. induction l as [|x l IH]; cbn [forallb]; [done|].
  by rewrite Hfg, IH.
Qed.

Lemma conducts_pins s1 s2 c :
  pinStates s1 = pinStates s2 -> conducts s1 c = conducts s2 c.
Proof. intros H. unfold conducts, getPinState. by rewrite H. Qed.

Lemma componentStep_contact branch hp st c :
  isContact c = true ->
  fst (componentStep branch (hp, st) c) = hp && conducts st c /\
  pinStates (snd (componentStep branch (hp, st) c)) = pinStates st.
Proof.
  intros Hc. rewrite componentStep_fst, componentStep_snd. cbv zeta.
  unfold evaluateComponent, conducts, isContact in *.
  destruct (ctype c); try discriminate; cbn; auto.
Qed.

Lemma contacts_in_series branch l hp st :
  (forall c, c ∈ l -> isContact c = true) ->
  fst (foldl (componentStep branch) (hp, st) l) = hp && forallb (conducts st) l /\
  pinStates (snd (foldl (componentStep branch) (hp, st) l)) = pinStates st.
Proof.
  revert hp st. induction l as [|c l IH]; intros hp st Hl; cbn [foldl forallb].
  - by rewrite andb_true_r.
  - destruct (componentStep_contact branch hp st c) as [Hf Hp].
    { apply Hl, list_elem_of_here. }
    rewrite (surjective_pairing (componentStep branch (hp, st) c)).
    destruct (IH (fst (componentStep branch (hp, st) c))
                 (snd (componentStep branch (hp, st) c))) as [IHf IHp].
    { intros c' Hc'. by apply Hl, list_elem_of_further. }
    rewrite IHf, IHp, Hf, Hp. split; [|done].
    rewrite <- andb_assoc. f_equal. f_equal.
    apply forallb_pointwise. intros c'. by apply conducts_pins.
Qed.

(** The pins after one branch of contacts that ends in a coil. *)
Lemma contacts_coil_pins (branch : Branch) (ls : LadderStructure.t) (st : State)
    (contacts : list Component) (C : string) (cc : Z) :
  components branch = (contacts ++ [mkComponent OUT C cc])%list ->
  (forall c, c ∈ contacts -> isContact c = true) ->
  getPinState (evaluateBranch branch ls st) C
  = getPinState st C
    || (incomingPower branch ls st && forallb (conducts st) contacts)
  /\ forall a, a <> C -> getPinState (evaluateBranch branch ls st) a = getPinState st a.
Proof.
  intros Hcomps Hcontacts.
  rewrite evaluateBranch_unfold. cbv zeta. rewrite Hcomps, foldl_app. cbn [foldl].
  set (st0 := set_power st (id branch, start_col branch) (incomingPower branch ls st)).
  destruct (contacts_in_series branch contacts (incomingPower branch ls st) st0 Hcontacts)
    as [Hf Hp].
  rewrite (surjective_pairing (foldl (componentStep branch) _ contacts)).
  change (getPinState (set_power ?s _ _)) with (getPinState s).
  split.
  - rewrite componentStep_getPinState, poweredCoil_coilEvent. cbn.
    rewrite !bool_decide_eq_true_2 by done. rewrite andb_true_r, Hf.
    unfold getPinState at 1. rewrite Hp. cbn [andb].
    change (readPin (pinStates st0) C) with (getPinState st C).
    rewrite (forallb_pointwise (conducts st0) (conducts st)); [done|].
    intros c. by apply conducts_pins.
  - intros a Ha. rewrite componentStep_getPinState, poweredCoil_coilEvent. cbn.
    rewrite (bool_decide_eq_false_2 (C = a)) by congruence.
    rewrite andb_false_r, orb_false_r. unfold getPinState. by rewrite Hp.
Qed.

Lemma input_is_pin (a : string) : startsWith a "I:" = true -> isPinAddress a = true.
Proof. intros Ha. unfold isPinAddress. by rewrite Ha. Qed.

Lemma input_not_output (a : string) :
  startsWith a "I:" = true -> startsWith a "O:" = false.
Proof.
  unfold startsWith. intros Hin.
  destruct (String.prefix "O:" a) eqn:Hout; [|done].
  apply String.prefix_correct in Hin, Hout. cbn [String.length] in Hin, Hout.
  rewrite Hin in Hout. discriminate.
Qed.

Lemma inputContacts_off_outputs (l : list Component) :
  inputContacts l -> contactsOffOutputs l.
Proof.
  intros Hl c Hc. destruct (Hl c Hc) as [Hcontact Hin].
  split; [done | by apply input_not_output].
Qed.

(** X4: in LadderSimulation a branch made of any number of NO and NC
    contacts followed by a coil, all bound to pin addresses (addresses that
    start with "I:" or "O:"), turns the coil's pin on exactly when the
    branch has incoming power and every contact conducts (series AND); a
    pin that was already on stays on, and no other pin changes. *)
Theorem contacts_then_coil (branch : Branch) (ls : LadderStructure.t) (st : State)
    (contacts : list Component) (C : string) (cc : Z) :
  components branch = (contacts ++ [mkComponent OUT C cc])%list ->
  (forall c, c ∈ contacts -> isContact c = true) ->
  (forall c, c ∈ contacts -> isPinAddress (address c) = true) ->
  isPinAddress C = true ->
  getPinState (evaluateBranch branch ls st) C
  = getPinState st C
    || (incomingPower branch ls st && forallb (conducts st) contacts)
  /\ forall a, a <> C -> getPinState (evaluateBranch branch ls st) a = getPinState st a.
Proof.
  intros Hcomps Hcontacts _ _.
  exact (contacts_coil_pins branch ls st contacts C cc Hcomps Hcontacts).
Qed.

Lemma two_input_contacts :
  inputContacts [mkComponent NO "I:0/0" 1; mkComponent NO "I:0/1" 2].
Proof.
  intros c Hc. apply elem_of_cons in Hc as [->|Hc]; [by split|].
  apply list_elem_of_singleton in Hc as ->. by split.
Qed.

Lemma contacts_then_coil_witness :
  getPinState (evaluateBranch (seriesBranch "I:0/0" "I:0/1" "O:0/0")
                 (seriesLadder "I:0/0" "I:0/1" "O:0/0") feedbackPins) "O:0/0"
  = getPinState feedbackPins "O:0/0"
    || (incomingPower (seriesBranch "I:0/0" "I:0/1" "O:0/0")
          (seriesLadder "I:0/0" "I:0/1" "O:0/0") feedbackPins
        && forallb (conducts feedbackPins)
             [mkComponent NO "I:0/0" 1; mkComponent NO "I:0/1" 2])
  /\ forall a, a <> "O:0/0" ->
       getPinState (evaluateBranch (seriesBranch "I:0/0" "I:0/1" "O:0/0")
                      (seriesLadder "I:0/0" "I:0/1" "O:0/0") feedbackPins) a
       = getPinState feedbackPins a.
Proof.
  exact (contacts_then_coil (seriesBranch "I:0/0" "I:0/1" "O:0/0")
           (seriesLadder "I:0/0" "I:0/1" "O:0/0") feedbackPins
           [mkComponent NO "I:0/0" 1; mkComponent NO "I:0/1" 2] "O:0/0" 5
           eq_refl (fun c Hc => proj1 (two_input_contacts c Hc))
           (fun c Hc => input_is_pin _ (proj2 (two_input_contacts c Hc)))
           eq_refl).
Defined.

(** ** Parallel branches *)

Lemma componentStep_power_other branch hp st c k :
  k <> (id branch, col c) -> k <> (id branch, col c + 1) ->
  branchPowerStates (snd (componentStep branch (hp, st) c)) !! k
  = branchPowerStates st !! k.
Proof.
  intros H1 H2. rewrite componentStep_snd. cbv zeta.
  cbn [set_power set_component branchPowerStates].
  rewrite lookup_insert_ne by done.
  rewrite evaluateComponent_power. cbn [set_power branchPowerStates].
  by rewrite lookup_insert_ne by done.
Qed.

Lemma components_power_other branch l hp st k :
  (forall c, c ∈ l -> k <> (id branch, col c) /\ k <> (id branch, col c + 1)) ->
  branchPowerStates (snd (foldl (componentStep branch) (hp, st) l)) !! k
  = branchPowerStates st !! k.
Proof.
  revert hp st. induction l as [|c l IH]; intros hp st Hl; cbn [foldl]; [done|].
  rewrite (surjective_pairing (componentStep branch (hp, st) c)), IH.
  - apply componentStep_power_other; apply Hl, list_elem_of_here.
  - intros c' Hc'. by apply Hl, list_elem_of_further.
Qed.

(** The power a branch starts with stays recorded at its start column when
    no component stands at that column or right before it and the branch
    does not end there. *)
Lemma evaluateBranch_start_power branch ls st :
  start_col branch <> end_col branch ->
  clearOf (start_col branch) (components branch) ->
  branchPowerStates (evaluateBranch branch ls st) !! (id branch, start_col branch)
  = Some (incomingPower branch ls st).
Proof.
  intros Hend Hclear. rewrite evaluateBranch_unfold. cbv zeta.
  cbn [set_power branchPowerStates].
  rewrite lookup_insert_ne by congruence.
  rewrite components_power_other.
  - cbn [set_power branchPowerStates]. by rewrite lookup_insert_eq.
  - intros c Hc. destruct (Hclear c Hc) as [H1 H2]. split; congruence.
Qed.

Lemma conducts_input (s1 s2 : State) (c : Component) :
  startsWith (address c) "O:" = false ->
  (forall a, startsWith a "O:" = false -> getPinState s1 a = getPinState s2 a) ->
  conducts s1 c = conducts s2 c.
Proof.
  intros Ha H. unfold conducts. by rewrite (H _ Ha).
Qed.

Lemma forallb_conducts_input (s1 s2 : State) (l : list Component) :
  contactsOffOutputs l ->
  (forall a, startsWith a "O:" = false -> getPinState s1 a = getPinState s2 a) ->
  forallb (conducts s1) l = forallb (conducts s2) l.
Proof.
  intros Hl H. induction l as [|c l IH]; cbn [forallb]; [done|].
  rewrite IH.
  - f_equal. apply conducts_input; [|done]. apply Hl, list_elem_of_here.
  - intros c' Hc'. by apply Hl, list_elem_of_further.
Qed.

(** X5: parallel OR in LadderSimulation.  A main rung of contacts on input
    pins (addresses that start with "I:") followed by a coil on the output
    pin [C], and a child branch that taps the main rung at its start
    column, with its own contacts on input pins and a coil on the same pin
    [C]: after a scan [C] is on exactly when all the contacts of the main
    rung or all the contacts of the child conduct, for the pin values the
    scan started with. *)
Theorem parallel_or (i0 i1 r0 r1 s0 e0 s1 e1 rid cc0 cc1 : Z) (conn0 : option Z)
    (cs0 cs1 : list Component) (C : string) (st : State) :
  startsWith C "O:" = true ->
  inputContacts cs0 ->
  inputContacts cs1 ->
  s0 <> e0 ->
  clearOf s0 (cs0 ++ [mkComponent OUT C cc0]) ->
  getPinState
    (executeScan
       (Some (LadderStructure.mk
                [mkRung rid
                   [mkBranch i0 r0 s0 e0 None conn0 (cs0 ++ [mkComponent OUT C cc0]);
                    mkBranch i1 r1 s1 e1 (Some i0) (Some s0)
                             (cs1 ++ [mkComponent OUT C cc1])]]))
       st) C
  = forallb (conducts st) cs0 || forallb (conducts st) cs1.
Proof.
  intros HC Hin0' Hin1' Hend Hclear.
  pose proof (inputContacts_off_outputs cs0 Hin0') as H0.
  pose proof (inputContacts_off_outputs cs1 Hin1') as H1.
  set (b0 := mkBranch i0 r0 s0 e0 None conn0 (cs0 ++ [mkComponent OUT C cc0])).
  set (b1 := mkBranch i1 r1 s1 e1 (Some i0) (Some s0) (cs1 ++ [mkComponent OUT C cc1])).
  set (ls := LadderStructure.mk [mkRung rid [b0; b1]]).
  set (st0 := mkState (isRunning st) (clearOutputs (pinStates st)) ∅ ∅).
  assert (Hscan : executeScan (Some ls) st
                  = evaluateBranch b1 ls (evaluateBranch b0 ls st0)) by reflexivity.
  rewrite Hscan.
  assert (Hcleared : forall a, startsWith a "O:" = false ->
                               getPinState st0 a = getPinState st a).
  { intros a Ha. unfold getPinState. cbn. by rewrite readPin_clearOutputs, Ha. }
  destruct (contacts_coil_pins b0 ls st0 cs0 C cc0 eq_refl
              (fun c Hc => proj1 (H0 c Hc))) as [HC0 Hother0].
  destruct (contacts_coil_pins b1 ls (evaluateBranch b0 ls st0) cs1 C cc1 eq_refl
              (fun c Hc => proj1 (H1 c Hc))) as [HC1 _].
  rewrite HC1, HC0.
  assert (Hin0 : incomingPower b0 ls st0 = true) by reflexivity.
  assert (Hin1 : incomingPower b1 ls (evaluateBranch b0 ls st0) = true).
  { unfold incomingPower. cbn [parent_branch_id b1].
    assert (Hfind : LadderStructure.findBranchById ls i0 = Some b0).
    { unfold LadderStructure.findBranchById. cbn. by rewrite Z.eqb_refl. }
    rewrite Hfind. unfold parentPower. cbn [connection_col b1].
    change (id b0, s0) with (id b0, start_col b0).
    rewrite evaluateBranch_start_power; [by rewrite Hin0 | done | done]. }
  rewrite Hin0, Hin1. cbn [andb].
  assert (HCclear : getPinState st0 C = false).
  { unfold getPinState. cbn. by rewrite readPin_clearOutputs, HC. }
  rewrite HCclear. cbn [orb].
  rewrite (forallb_conducts_input st0 st cs0 H0 Hcleared).
  rewrite (forallb_conducts_input (evaluateBranch b0 ls st0) st cs1 H1).
  - done.
  - intros a Ha. rewrite Hother0; [by apply Hcleared|]. congruence.
Qed.

Lemma parallel_clear : clearOf 0 [mkComponent NO "I:0/0" 1; mkComponent OUT "O:0/0" 5].
Proof.
  intros c Hc. apply elem_of_cons in Hc as [->|Hc]; [by split|].
  apply list_elem_of_singleton in Hc as ->. by split.
Qed.

Lemma parallel_contact (a : string) (c : Z) :
  startsWith a "I:" = true -> inputContacts [mkComponent NO a c].
Proof.
  intros Ha c' Hc. apply list_elem_of_singleton in Hc as ->. by split.
Qed.

Lemma parallel_or_witness :
  getPinState (executeScan (Some parallelLadder) parallelPins) "O:0/0"
  = forallb (conducts parallelPins) [mkComponent NO "I:0/0" 1]
    || forallb (conducts parallelPins) [mkComponent NO "I:0/1" 3].
Proof.
  exact (parallel_or 0 1 0 1 0 9 0 9 0 5 5 None
           [mkComponent NO "I:0/0" 1] [mkComponent NO "I:0/1" 3] "O:0/0" parallelPins
           eq_refl (parallel_contact "I:0/0" 1 eq_refl)
           (parallel_contact "I:0/1" 3 eq_refl)
           ltac:(discriminate) parallel_clear).
Defined.

(** ** Contacts on output pins *)

(** X6: a rung of LadderSimulation that begins with an NO contact bound to
    an output pin never conducts: the scan clears the output pins before it
    evaluates the rung, so the contact reads false whatever the pin held,
    and with a single such rung every output pin is off after the scan (a
    self-holding rung cannot energize itself). *)
Theorem output_contact_blocks_rung (bid r s e rid c0 : Z) (conn : option Z)
    (a : string) (rest : list Component) (st : State) (b : string) :
  startsWith a "O:" = true ->
  startsWith b "O:" = true ->
  getPinState
    (executeScan
       (Some (LadderStructure.mk
                [mkRung rid [mkBranch bid r s e None conn
                               (mkComponent NO a c0 :: rest)]]))
       st) b = false.
Proof.
  intros Ha Hb.
  set (branch := mkBranch bid r s e None conn (mkComponent NO a c0 :: rest)).
  set (ls := LadderStructure.mk [mkRung rid [branch]]).
  set (st0 := mkState (isRunning st) (clearOutputs (pinStates st)) ∅ ∅).
  assert (Hscan : executeScan (Some ls) st = evaluateBranch branch ls st0) by reflexivity.
  rewrite Hscan, evaluateBranch_unfold. cbv zeta.
  change (getPinState (set_power ?x _ _)) with (getPinState x).
  change (components branch) with (mkComponent NO a c0 :: rest). cbn [foldl].
  set (st1 := set_power st0 (id branch, start_col branch) (incomingPower branch ls st0)).
  destruct (componentStep_contact branch (incomingPower branch ls st0) st1
              (mkComponent NO a c0) eq_refl) as [Hf Hp].
  assert (Hoff : conducts st1 (mkComponent NO a c0) = false).
  { unfold conducts, getPinState. cbn. by rewrite readPin_clearOutputs, Ha. }
  rewrite Hoff, andb_false_r in Hf.
  rewrite (surjective_pairing (componentStep branch _ (mkComponent NO a c0))), Hf.
  destruct (components_unpowered branch rest
              (snd (componentStep branch (incomingPower branch ls st0, st1)
                      (mkComponent NO a c0)))) as (_ & Hpins & _).
  unfold getPinState. rewrite Hpins, Hp. cbn.
  by rewrite readPin_clearOutputs, Hb.
Qed.

Lemma output_contact_blocks_rung_witness :
  getPinState
    (executeScan (Some (seriesLadder "O:0/0" "I:0/0" "O:0/0")) feedbackPins) "O:0/0"
  = false.
Proof.
  exact (output_contact_blocks_rung 0 0 0 9 0 1 None "O:0/0"
           [mkComponent NO "I:0/0" 2; mkComponent OUT "O:0/0" 5] feedbackPins "O:0/0"
           eq_refl eq_refl).
Defined.

(** ** Toggling and initializing pins *)

Lemma toggleInput_stopped ls a st :
  isRunning st = false ->
  startsWith a "I:" || startsWith a "O:" = true ->
  toggleInput ls a st
  = (negb (readPin (pinStates st) a),
     set_pins st (<[a := negb (readPin (pinStates st) a)]> (pinStates st))).
Proof.
  intros Hrun Hp. unfold toggleInput. rewrite Hp.
  cbn [set_pins isRunning pinStates]. rewrite Hrun.
  unfold set_pins at 1. cbn [pinStates].
  by rewrite readPin_insert, decide_True.
Qed.

(** X7: while the simulation is stopped, toggling a pin twice restores
    what every pin reads and leaves the rest of the state as it was; the
    second call returns the value the pin read at the start. *)
Theorem toggle_twice_restores (ls : option LadderStructure.t) (a : string) (st : State) :
  isRunning st = false ->
  let st1 := snd (toggleInput ls a st) in
  let st2 := snd (toggleInput ls a st1) in
  (forall b, getPinState st2 b = getPinState st b) /\
  isRunning st2 = false /\
  branchPowerStates st2 = branchPowerStates st /\
  componentStates st2 = componentStates st /\
  (startsWith a "I:" || startsWith a "O:" = true ->
   fst (toggleInput ls a st1) = getPinState st a).
Proof.
  intros Hrun st1 st2. subst st1 st2.
  destruct (startsWith a "I:" || startsWith a "O:") eqn:Hp.
  - rewrite (toggleInput_stopped ls a st Hrun Hp). cbn [snd].
    rewrite (toggleInput_stopped ls a (set_pins st _) Hrun Hp).
    cbn [snd fst]. unfold set_pins.
    cbn [pinStates isRunning branchPowerStates componentStates].
    assert (Hread : readPin (<[a := negb (readPin (pinStates st) a)]> (pinStates st)) a
                    = negb (readPin (pinStates st) a)).
    { rewrite readPin_insert. by rewrite decide_True. }
    rewrite Hread, negb_involutive.
    split; [|by repeat split].
    intros b. unfold getPinState. cbn [pinStates]. rewrite !readPin_insert.
    case_decide as Hab; [by subst b | done].
  - unfold toggleInput. rewrite Hp. cbn [snd]. rewrite ?Hp. cbn [snd].
    repeat split; try done.
Qed.

Lemma toggle_twice_restores_witness :
  (forall b, getPinState
               (snd (toggleInput None "I:0/0" (snd (toggleInput None "I:0/0" feedbackPins))))
               b = getPinState feedbackPins b) /\
  fst (toggleInput None "I:0/0" (snd (toggleInput None "I:0/0" feedbackPins)))
  = getPinState feedbackPins "I:0/0".
Proof.
  destruct (toggle_twice_restores None "I:0/0" feedbackPins eq_refl)
    as (H1 & _ & _ & _ & H2).
  exact (conj H1 (H2 eq_refl)).
Defined.

Lemma lookup_clear_pins (l : list string) (pins : gmap string bool) (b : string) :
  foldl (fun p a => <[a := false]> p) pins l !! b
  = if decide (b ∈ l) then Some false else pins !! b.
Proof.
  revert pins. induction l as [|a l IH]; intros pins; cbn [foldl].
  - by rewrite decide_False by apply not_elem_of_nil.
  - rewrite IH. destruct (decide (b ∈ l)) as [Hl|Hl].
    + by rewrite decide_True by (by apply list_elem_of_further).
    + destruct (decide (a = b)) as [->|Hab].
      * by rewrite lookup_insert_eq, decide_True by apply list_elem_of_here.
      * rewrite lookup_insert_ne by done.
        rewrite decide_False; [done|]. rewrite elem_of_cons. intros [?|?]; congruence.
Qed.

(** X8: initializePins turns every listed input and output pin off and
    keeps every other entry of the pin table as it was (pins of an earlier
    configuration are not dropped); the scratch state is not touched. *)
Theorem initializePins_lookup (inputPins outputPins : list string) (st : State)
    (b : string) :
  pinStates (initializePins inputPins outputPins st) !! b
  = (if decide (b ∈ (inputPins ++ outputPins)%list) then Some false
     else pinStates st !! b)
  /\ branchPowerStates (initializePins inputPins outputPins st) = branchPowerStates st
  /\ componentStates (initializePins inputPins outputPins st) = componentStates st
  /\ isRunning (initializePins inputPins outputPins st) = isRunning st.
Proof.
  split; [|by repeat split].
  unfold initializePins. cbn [set_pins pinStates]. rewrite !lookup_clear_pins.
  destruct (decide (b ∈ outputPins)) as [Ho|Ho].
  - rewrite decide_True; [done|]. apply elem_of_app. by right.
  - destruct (decide (b ∈ inputPins)) as [Hi|Hi].
    + rewrite decide_True; [done|]. apply elem_of_app. by left.
    + rewrite decide_False; [done|]. rewrite elem_of_app. tauto.
Qed.

(** X30: reset stops the simulation and turns every pin off, inputs and
    outputs alike, without dropping or adding a pin; afterwards no wire is
    energized and no component is active, whatever the diagram. *)
Theorem reset_all_off (ls : option LadderStructure.t) (st : State) (a : string)
    (r c : Z) :
  isRunning (reset st) = false /\
  getPinState (reset st) a = false /\
  (is_Some (pinStates (reset st) !! a) <-> is_Some (pinStates st !! a)) /\
  isWireEnergized ls (reset st) r c = false /\
  isComponentActive (reset st) r c = false.
Proof.
  unfold reset, stop, getPinState, readPin, clearAll, isWireEnergized, isComponentActive.
  cbn [set_pins isRunning pinStates branchPowerStates componentStates].
  rewrite lookup_fmap. split; [done|]. split; [|split; [|split]].
  - by destruct (pinStates st !! a).
  - by rewrite fmap_is_Some.
  - destruct ls as [ladderStructure|]; [|done].
    destruct (LadderStructure.findBranchAtRow ladderStructure r) as [branch|]; [|done].
    rewrite lookup_empty. by destruct (_ && _).
  - by rewrite lookup_empty.
Qed.

End ScanResults.

(** * Further properties of PLCSimulation with the feedback loop *)

Section FeedbackLoop.
Import Grid PLCSimulation Scenarios.

Lemma executeScanCycle_keeps_inputs_witness :
  pinStates (snd (executeScanCycle feedbackWindow gridPins)) !! "I:0/0"
  = pinStates gridPins !! "I:0/0".
Proof. exact (executeScanCycle_keeps_inputs feedbackWindow gridPins "I:0/0" eq_refl). Defined.

(** An entry that is false after a turn was in the table before the turn:
    the entries a turn adds are the ones its coils turn on. *)
Lemma iteration_false_was_present w st a :
  pinStates (iteration w st) !! a = Some false -> is_Some (pinStates st !! a).
Proof.
  unfold iteration.
  set (P := fun s : State =>
              forall a, pinStates s !! a = Some false -> is_Some (pinStates st !! a)).
  assert (HP : P (evaluateLadder w
                    (initializeBranchPower w
                       (mkState (isRunning st) (clearOutputs (pinStates st)) ∅ ∅))));
    [|by apply HP].
  apply (evaluateLadder_preserves w P).
  - intros s k v Hs. exact Hs.
  - intros s k v Hs. exact Hs.
  - intros s b _ _ Hs a' Ha'. cbn in Ha'.
    rewrite lookup_insert in Ha'. case_decide; [discriminate | by apply Hs].
  - apply (initializeBranchPower_preserves w P).
    + intros s k v Hs. exact Hs.
    + intros a' Ha'. cbn in Ha'. rewrite lookup_clearOutputs in Ha'.
      destruct (pinStates st !! a'); [by eexists | discriminate].
Qed.

(** A turn that follows a turn changes no output pin. *)
Lemma second_turn_stable w st :
  stateChanged (outputStates (pinStates (iteration w st)))
               (pinStates (iteration w (iteration w st))) = false.
Proof.
  apply stateChanged_false. intros a v Hav Ha.
  unfold outputStates. apply map_lookup_filter_Some. split; [|exact Ha].
  destruct (afterTurns_alike w 1 st) as (_ & Hread & _).
  specialize (Hread a). unfold getPinState, readPin in Hread.
  change (afterTurns w 2 st) with (iteration w (iteration w st)) in Hread.
  rewrite Hav in Hread. cbn [default] in Hread.
  destruct v.
  - destruct (pinStates (iteration w st) !! a) as [[]|]; cbn in Hread; congruence.
  - destruct (iteration_false_was_present w (iteration w st) a Hav) as [v' Hv'].
    rewrite Hv' in *. cbn in Hread. congruence.
Qed.

(** X11: the feedback loop of executeScanCycle never takes more than two
    turns: every turn starts by clearing the outputs, so the second turn
    recomputes exactly the output pins of the first and the loop stops; the
    cap of 10 iterations is never reached, and what the scan shows is what
    a single turn shows. *)
Theorem scan_cycle_two_turns_at_most (w : Window) (st : State) :
  (1 <= fst (executeScanCycle w st) <= 2)%nat /\
  sameObservations (snd (executeScanCycle w st)) (iteration w st).
Proof.
  split; [|apply alike_sameObservations, executeScanCycle_alike].
  destruct (executeScanCycle_turns w st) as (k & Hk & Hrun & Hbefore & _).
  rewrite Hrun. cbn [fst]. split; [lia|].
  destruct (le_lt_dec k 2) as [|Hgt]; [done|].
  specialize (Hbefore 1%nat ltac:(lia)).
  unfold turnChanged in Hbefore.
  change (afterTurns w 1 st) with (iteration w st) in Hbefore.
  change (afterTurns w 2 st) with (iteration w (iteration w st)) in Hbefore.
  rewrite second_turn_stable in Hbefore. discriminate.
Qed.

(** X12: what executeScanCycle shows depends on the state it starts from
    only through the pins that are not output pins: neither the values of
    the output pins nor the wire and component states of earlier scans
    influence the result. *)
Theorem scan_cycle_reads_inputs_only (w : Window) (s1 s2 : State) :
  isRunning s1 = isRunning s2 ->
  (forall a, startsWith a "O:" = false -> getPinState s1 a = getPinState s2 a) ->
  sameObservations (snd (executeScanCycle w s1)) (snd (executeScanCycle w s2)).
Proof.
  intros Hr Hp. apply alike_sameObservations.
  eapply alike_trans_grid; [apply executeScanCycle_alike|].
  eapply alike_trans_grid; [|apply alike_sym_grid, executeScanCycle_alike].
  by apply alike_iteration.
Qed.

Lemma scan_cycle_reads_inputs_only_witness :
  sameObservations
    (snd (executeScanCycle feedbackWindow
            (mkState true (<["O:0/1" := true]> (pinStates gridPins)) ∅ ∅)))
    (snd (executeScanCycle feedbackWindow gridPins)).
Proof.
  apply (scan_cycle_reads_inputs_only feedbackWindow
           (mkState true (<["O:0/1" := true]> (pinStates gridPins)) ∅ ∅) gridPins).
  - reflexivity.
  - intros a Ha. unfold getPinState. cbn [pinStates].
    rewrite readPin_insert. case_decide as Heq; [|reflexivity].
    subst a. discriminate Ha.
Defined.

End FeedbackLoop.

(** * Further properties of PLCSimulation of simulation.js *)

Section RungEngine.
Import Grid PLCSimulationRung Scenarios.

Lemma rungStep_snd_cases g r hp st c :
  exists st1 st2,
    snd (rungStep g r (hp, st) c) = st2 /\
    (st2 = st1 \/ exists v, st2 = set_wire st1 r c PosOut v) /\
    (st1 = set_wire st r c PosIn hp
     \/ (exists v, st1 = set_component (set_wire st r c PosIn hp) r c v)
     \/ (exists cell, cellAt g r c = Some cell /\ type cell = OUT /\
                      startsWith (address cell) "O:" = true /\
                      st1 = set_component
                              (set_pin (set_wire st r c PosIn hp) (address cell) hp)
                              r c hp)).
Proof.
  unfold rungStep.
  destruct (cellAt g r c) as [cell|] eqn:Hcell.
  - destruct (type cell) eqn:Ht; cbn [snd].
    + eexists _, _. split; [reflexivity|]. split; [right; eauto | left; reflexivity].
    + eexists _, _. split; [reflexivity|]. split; [right; eauto | left; reflexivity].
    + eexists _, _. split; [reflexivity|]. split; [right; eauto | left; reflexivity].
    + eexists _, _. split; [reflexivity|]. split; [right; eauto | right; left; eauto].
    + eexists _, _. split; [reflexivity|]. split; [right; eauto | right; left; eauto].
    + destruct (startsWith (address cell) "O:") eqn:Ho.
      * eexists _, _. split; [reflexivity|]. split; [right; eauto|].
        right; right. exists cell. eauto.
      * eexists _, _. split; [reflexivity|]. split; [right; eauto | left; reflexivity].
    + eexists _, _. split; [reflexivity|]. split; [left; reflexivity | left; reflexivity].
  - cbn [snd]. eexists _, _. split; [reflexivity|].
    split; [right; eauto | left; reflexivity].
Qed.

Section Kept.
Variable g : Grid.t.
Variable P : State -> Prop.
Hypothesis P_wire : forall st r c p v, P st -> P (set_wire st r c p v).
Hypothesis P_component : forall st r c v, P st -> P (set_component st r c v).
Hypothesis P_rung_coil : forall st c cell v,
  cellAt g 0 c = Some cell -> type cell = OUT ->
  startsWith (address cell) "O:" = true -> P st -> P (set_pin st (address cell) v).
Hypothesis P_branch_coil : forall st a v,
  startsWith a "O:" = true -> P st -> P (set_pin st a (getPinState st a || v)).

Lemma rungStep_keeps acc c : P (snd acc) -> P (snd (rungStep g 0 acc c)).
Proof.
  destruct acc as [hp st]. cbn [snd]. intros HP.
  destruct (rungStep_snd_cases g 0 hp st c) as (st1 & st2 & -> & H2 & H1).
  assert (P st1) as HP1.
  { destruct H1 as [->|[[v ->]|(cell & Hc & Ht & Ho & ->)]]; auto.
    apply P_component. eapply P_rung_coil; eauto. }
  destruct H2 as [->|[v ->]]; auto.
Qed.

Lemma evaluateRung_keeps cols st : P st -> P (evaluateRung g 0 cols st).
Proof.
  intros HP. unfold evaluateRung.
  apply (foldl_invariant (fun acc => P (snd acc))); [done|].
  intros acc c. apply rungStep_keeps.
Qed.

Lemma branchRowStep_keeps r acc c : P (snd acc) -> P (snd (branchRowStep g r acc c)).
Proof.
  destruct acc as [hp st]. cbn [snd]. intros HP. unfold branchRowStep.
  destruct (cellAt g r c) as [cell|]; [|cbn [snd]; auto].
  destruct (type cell); cbn [snd]; auto.
  - apply P_wire. repeat case_match; auto.
  - apply P_wire. case_match; auto.
Qed.

Lemma extendLeft_keeps r n st : P st -> P (extendLeft g r n st).
Proof.
  revert st. induction n as [|n IH]; intros st HP; cbn [extendLeft]; [done|].
  repeat case_match; auto.
Qed.

Lemma evaluateBranchRow_keeps r startCol cols st :
  P st -> P (evaluateBranchRow g r startCol cols st).
Proof.
  intros HP. unfold evaluateBranchRow. apply extendLeft_keeps.
  apply (foldl_invariant (fun acc => P (snd acc))); [done|].
  intros acc c. apply branchRowStep_keeps.
Qed.

Lemma evaluateBranches_keeps rows cols st : P st -> P (evaluateBranches g rows cols st).
Proof.
  intros HP. unfold evaluateBranches.
  apply foldl_invariant; [done|]. intros s c Hs.
  apply foldl_invariant; [done|]. intros s' r Hs'.
  repeat case_match; auto. by apply evaluateBranchRow_keeps, P_wire.
Qed.
End Kept.

Lemma executeScanCycle_keeps (w : Window) (P : State -> Prop) (st : State) :
  (forall st r c p v, P st -> P (set_wire st r c p v)) ->
  (forall st r c v, P st -> P (set_component st r c v)) ->
  (forall g st c cell v, available w = Some g ->
     cellAt g 0 c = Some cell -> type cell = OUT ->
     startsWith (address cell) "O:" = true -> P st -> P (set_pin st (address cell) v)) ->
  (forall st a v, startsWith a "O:" = true -> P st ->
                  P (set_pin st a (getPinState st a || v))) ->
  P (mkState (isRunning st) (pinStates st) ∅ ∅) ->
  P (executeScanCycle w st).
Proof.
  intros Hw Hc Hr Hb HP. unfold executeScanCycle, evaluateLadder.
  destruct (available w) as [g|] eqn:Hg; [|done].
  apply evaluateBranches_keeps; auto.
  apply evaluateRung_keeps; auto.
  intros s c cell v. by apply Hr.
Qed.

(** X13: PLCSimulation of simulation.js writes a pin only through a coil
    whose address starts with "O:": a scan changes, adds or removes no
    entry of a pin that is not an output pin, whatever the grid. *)
Theorem rung_scan_keeps_inputs (w : Window) (st : State) (a : string) :
  startsWith a "O:" = false ->
  pinStates (executeScanCycle w st) !! a = pinStates st !! a.
Proof.
  intros Ha.
  apply (executeScanCycle_keeps w (fun s => pinStates s !! a = pinStates st !! a));
    try done.
  - intros g s c cell v _ _ _ Ho Hs. cbn.
    rewrite lookup_insert_ne; [done|]. intros Heq. rewrite Heq in Ho. congruence.
  - intros s b v Hb Hs. cbn.
    rewrite lookup_insert_ne; [done|]. intros Heq. rewrite Heq in Hb. congruence.
Qed.

Lemma rung_scan_keeps_inputs_witness :
  pinStates (executeScanCycle twoCoilWindow rungPins) !! "I:0/0"
  = pinStates rungPins !! "I:0/0".
Proof. exact (rung_scan_keeps_inputs twoCoilWindow rungPins "I:0/0" eq_refl). Defined.

(** X14: PLCSimulation of simulation.js never clears its outputs, and a
    coil on a branch row or's into the pin: an output pin that is on and to
    which no coil of the main rung (row 0) is bound is still on after a
    scan, whatever the inputs are (it stays latched until stop or reset). *)
Theorem rung_scan_latches_branch_outputs (w : Window) (st : State) (a : string) :
  (forall g c cell, available w = Some g -> cellAt g 0 c = Some cell ->
                    type cell = OUT -> address cell <> a) ->
  getPinState st a = true ->
  getPinState (executeScanCycle w st) a = true.
Proof.
  intros Hmain Hon.
  apply (executeScanCycle_keeps w (fun s => getPinState s a = true)); try done.
  - intros g s c cell v Hg Hcell Ht _ Hs. unfold getPinState. cbn.
    rewrite readPin_insert, decide_False; [done|]. by apply (Hmain g c cell).
  - intros s b v _ Hs. unfold getPinState in *. cbn.
    rewrite readPin_insert. case_decide as Hab; [|done].
    subst b. by rewrite Hs.
Qed.

Lemma rung_scan_latches_branch_outputs_witness :
  getPinState (executeScanCycle feedbackWindow MoreScenarios.latchedPins) "O:0/1" = true.
Proof.
  apply (rung_scan_latches_branch_outputs feedbackWindow MoreScenarios.latchedPins
           "O:0/1").
  - intros g c cell Hg Hcell Hty. injection Hg as <-.
    destruct c as [|[|[|c]]]; cbn in Hcell; try discriminate;
      injection Hcell as <-; cbn in Hty |- *; discriminate.
  - reflexivity.
Defined.

End RungEngine.

(** * Further properties of LadderSimulator *)

Section SimulatorFacts.
Import LadderSimulator LadderSimulatorFacts Scenarios.

Lemma powerAtColumnLoop_off st l c : powerAtColumnLoop st l c false = false.
Proof.
  destruct l as [|x l]; cbn [powerAtColumnLoop]; [done|].
  destruct (c <=? col x); [done|].
  by destruct (ctype x).
Qed.

(** X15: evaluatePowerAtColumn sees power at a column of a branch exactly
    when the branch lies on row 0 and every contact that stands before the
    first component at or beyond that column conducts; coils and unknown
    components do not count, and a branch on another row never has power
    to give. *)
Theorem evaluatePowerAtColumn_series (st : State) (branch : Branch) (c : Z) :
  evaluatePowerAtColumn st branch c
  = (row branch =? 0) && forallb (passes st) (leftOf c (components branch)).
Proof.
  unfold evaluatePowerAtColumn.
  generalize (row branch =? 0). intros hp.
  induction (components branch) as [|x l IH] in hp |- *;
    cbn [powerAtColumnLoop leftOf forallb].
  - by rewrite andb_true_r.
  - destruct (c <=? col x); cbn [forallb]; [by rewrite andb_true_r|].
    set (hp' := match ctype x with
                | NO => hp && getPinState st (address x)
                | NC => hp && negb (getPinState st (address x))
                | _ => hp
                end).
    assert (Hhp' : hp' = hp && passes st x).
    { unfold hp', passes. destruct (ctype x); by rewrite ?andb_true_r. }
    rewrite Hhp'. destruct (hp && passes st x) eqn:Hp; cbn [negb].
    + rewrite IH. by rewrite andb_assoc, Hp.
    + by rewrite andb_assoc, Hp.
Qed.

(** X16: in LadderSimulator only the children of a row-0 branch can be
    powered.  A branch that is not on row 0 and whose parent is missing or
    not on row 0 is skipped: evaluating it changes nothing, not a pin, not
    a wire, not a component state, whatever the pins are. *)
Theorem branch_below_branch_is_skipped (branch : Branch) (st : State) :
  row branch <> 0 ->
  (forall parent,
     LadderData.findById (ladderData st) (parent_branch_id branch) = Some parent ->
     row parent <> 0) ->
  evaluateBranch branch st = st.
Proof.
  intros Hrow Hparent. unfold evaluateBranch.
  rewrite (proj2 (Z.eqb_neq _ _) Hrow).
  destruct (connection_col branch) as [c|]; [|done].
  destruct (LadderData.findById (ladderData st) (parent_branch_id branch))
    as [parent|] eqn:Hfind; [|done].
  unfold evaluatePowerAtColumn.
  rewrite (proj2 (Z.eqb_neq _ _) (Hparent parent eq_refl)).
  by rewrite powerAtColumnLoop_off.
Qed.

Lemma branch_below_branch_is_skipped_witness :
  evaluateBranch MoreScenarios.deepBranch parallelState = parallelState.
Proof.
  apply (branch_below_branch_is_skipped MoreScenarios.deepBranch parallelState).
  - cbn. lia.
  - intros parent Hparent. cbn in Hparent. injection Hparent as <-. cbn. lia.
Defined.


(** ** What a scan of LadderSimulator keeps *)

Section KeptSim.
Variable P : State -> Prop.
Hypothesis P_wire : forall st k, P st -> P (set_wire st k).
Hypothesis P_component : forall st k, P st -> P (set_component st k).
Hypothesis P_pin : forall st a v, P st -> P (setPinState a v st).

Lemma markWires_keeps r from to hp st : P st -> P (markWires r from to hp st).
Proof.
  intros HP. unfold markWires. destruct hp; [|done].
  apply foldl_invariant; [done|]. intros s c Hs. by apply P_wire.
Qed.

Lemma evaluateComponent_keeps c hp st : P st -> P (snd (evaluateComponent c hp st)).
Proof.
  intros HP. unfold evaluateComponent.
  destruct hp; cbn [negb]; destruct (ctype c); cbn [snd]; auto.
Qed.

Lemma componentStep_unfold branch hp cc st c :
  componentStep branch (hp, cc, st) c =
  let st1 := markWires (row branch) cc (col c) hp st in
  let e := evaluateComponent c hp st1 in
  (fst e, col c + 1,
   if fst e then set_wire (set_component (snd e) (row branch, col c)) (row branch, col c)
   else if bool_decide (ctype c = NC) && hp
        then set_component (snd e) (row branch, col c)
        else snd e).
Proof.
  unfold componentStep. cbv zeta.
  by destruct (evaluateComponent c hp (markWires (row branch) cc (col c) hp st)).
Qed.

Lemma componentStep_keeps branch acc c :
  P (snd acc) -> P (snd (componentStep branch acc c)).
Proof.
  destruct acc as [[hp cc] st]. cbn [snd]. intros HP.
  rewrite componentStep_unfold. cbv zeta. cbn [snd].
  assert (P (snd (evaluateComponent c hp (markWires (row branch) cc (col c) hp st)))).
  { by apply evaluateComponent_keeps, markWires_keeps. }
  repeat case_match; auto.
Qed.

Lemma components_keeps branch acc l :
  P (snd acc) -> P (snd (foldl (componentStep branch) acc l)).
Proof.
  intros HP. apply (foldl_invariant (fun acc => P (snd acc))); [done|].
  intros a c. apply componentStep_keeps.
Qed.

Lemma evaluateBranch_keeps branch st : P st -> P (evaluateBranch branch st).
Proof.
  intros HP. unfold evaluateBranch. case_match; [done|].
  pose proof (components_keeps branch
                (true, start_col branch, set_wire st (row branch, start_col branch))
                (components branch) (P_wire _ _ HP)) as Hfold.
  destruct (foldl _ _ _) as [[hp cc] s]. cbn [snd] in Hfold.
  by apply markWires_keeps.
Qed.

Lemma branches_keeps l st :
  P st -> P (foldl (fun st branch => evaluateBranch branch st) st l).
Proof.
  intros HP. apply foldl_invariant; [done|]. intros s b. apply evaluateBranch_keeps.
Qed.
End KeptSim.

Lemma evaluateBranch_row0_start branch st :
  row branch = 0 ->
  wireStates (evaluateBranch branch st) !! (row branch, start_col branch) = Some true.
Proof.
  intros Hrow. unfold evaluateBranch. rewrite Hrow. cbn [Z.eqb negb].
  set (k := (0, start_col branch)).
  pose proof (components_keeps (fun s => wireStates s !! k = Some true)) as Hkeep.
  specialize (Hkeep
    ltac:(intros s k' Hs; cbn; rewrite lookup_insert; by case_decide)
    ltac:(intros s k' Hs; exact Hs)
    ltac:(intros s a v Hs; exact Hs)
    branch (true, start_col branch, set_wire st (0, start_col branch))
    (components branch)).
  cbn [snd] in Hkeep. specialize (Hkeep ltac:(cbn; by rewrite lookup_insert_eq)).
  destruct (foldl _ _ _) as [[hp cc] s]. cbn [snd] in Hkeep.
  apply (markWires_keeps (fun s => wireStates s !! k = Some true)); [|done].
  intros s' k' Hs. cbn. rewrite lookup_insert. by case_decide.
Qed.

(** X17: after every scan of LadderSimulator the wire at the start column
    of each branch on row 0 is energized: the main rung is live from the
    left rail, whatever the pins and the rest of the diagram. *)
Theorem main_rung_start_energized (st : State) (branch : Branch) :
  branch ∈ LadderData.getAllBranches (ladderData st) ->
  row branch = 0 ->
  isWireEnergized (executeScan st) 0 (start_col branch) = true.
Proof.
  intros Hin Hrow. unfold isWireEnergized, executeScan, evaluateLadder. cbv zeta.
  cbn [ladderData isRunning pinStates wireStates componentStates].
  set (l := js_sort byRow (LadderData.getAllBranches (ladderData st))).
  assert (Hl : branch ∈ l) by (unfold l; by rewrite js_sort_perm).
  generalize (mkState
    (LadderData.mk l (LadderData.inputs (ladderData st))
                   (LadderData.outputs (ladderData st)))
    (isRunning st)
    (foldl (fun p a => <[a := false]> p) (pinStates st)
           (LadderData.outputs (ladderData st))) ∅ ∅).
  clearbody l. intros s.
  assert (Hgoal : wireStates (foldl (fun st b => evaluateBranch b st) s l)
                  !! (0, start_col branch) = Some true); [|by rewrite Hgoal].
  revert s. induction l as [|x l IH]; intros s; [by apply elem_of_nil in Hl|].
  cbn [foldl]. apply elem_of_cons in Hl as [<-|Hl].
  - apply (branches_keeps (fun s => wireStates s !! (0, start_col branch) = Some true)).
    + intros s' k' Hs. cbn. rewrite lookup_insert. by case_decide.
    + intros s' k' Hs. exact Hs.
    + intros s' a v Hs. exact Hs.
    + rewrite <- Hrow at 1. by apply evaluateBranch_row0_start.
  - by apply IH.
Qed.

Lemma main_rung_start_energized_witness :
  isWireEnergized (executeScan parallelState) 0 (start_col mainBranch) = true.
Proof.
  apply (main_rung_start_energized parallelState mainBranch).
  - apply list_elem_of_here.
  - reflexivity.
Defined.


End SimulatorFacts.

(** * Properties of the diagram editors *)

Section FindFacts.
Context {A : Type}.
Implicit Types (p : A -> bool) (l : list A).

Lemma find_app_first p l1 l2 :
  List.find p (l1 ++ l2)
  = match List.find p l1 with
    | Some x => Some x
    | None => List.find p l2
    end.
Proof.
  induction l1 as [|x l1 IH]; cbn [List.find app]; [done|].
  by destruct (p x).
Qed.

Lemma find_none_iff p l : List.find p l = None <-> forall x, x ∈ l -> p x = false.
Proof.
  induction l as [|x l IH]; cbn [List.find].
  - split; [|done]. intros _ y Hy. by apply elem_of_nil in Hy.
  - destruct (p x) eqn:Hpx.
    + split; [done|]. intros H. specialize (H x (list_elem_of_here _ _)). congruence.
    + rewrite IH. split.
      * intros H y Hy. apply elem_of_cons in Hy as [->|Hy]; auto.
      * intros H y Hy. by apply H, list_elem_of_further.
Qed.

Lemma existsb_false_find p l : existsb p l = false -> List.find p l = None.
Proof.
  induction l as [|x l IH]; cbn [existsb List.find]; [done|].
  destruct (p x); cbn [orb]; [discriminate | exact IH].
Qed.

(** findIndex returns the position of the element that find returns. *)
Lemma findIndex_Some p l i :
  findIndex p l = Some i ->
  exists l1 y l2, l = (l1 ++ y :: l2)%list /\ length l1 = i /\ p y = true /\
                  forall x, x ∈ l1 -> p x = false.
Proof.
  revert i. induction l as [|x l IH]; intros i; cbn [findIndex]; [done|].
  destruct (p x) eqn:Hpx.
  - intros [= <-]. exists [], x, l. repeat split; [done|].
    intros y Hy. by apply elem_of_nil in Hy.
  - destruct (findIndex p l) as [j|]; [|done]. intros [= <-].
    destruct (IH j eq_refl) as (l1 & y & l2 & -> & Hlen & Hy & Hl1).
    exists (x :: l1), y, l2. repeat split; [by cbn; rewrite Hlen | done |].
    intros z Hz. apply elem_of_cons in Hz as [->|Hz]; auto.
Qed.

Lemma findIndex_None p l : findIndex p l = None <-> forall x, x ∈ l -> p x = false.
Proof.
  induction l as [|x l IH]; cbn [findIndex].
  - split; [|done]. intros _ y Hy. by apply elem_of_nil in Hy.
  - destruct (p x) eqn:Hpx.
    + split; [done|]. intros H. specialize (H x (list_elem_of_here _ _)). congruence.
    + destruct (findIndex p l) as [j|].
      * split; [done|]. intros H.
        assert (Some j = None); [|done]. apply IH.
        intros y Hy. by apply H, list_elem_of_further.
      * split; [|done]. intros _ y Hy.
        apply elem_of_cons in Hy as [->|Hy]; [done|]. by apply (proj1 IH).
Qed.
End FindFacts.

Section UpdateFacts.
Implicit Types (p : Branch -> bool) (f : Branch -> Branch).

Lemma find_updateFirst p f l :
  (forall b, p (f b) = p b) ->
  List.find p (updateFirst p f l) = f <$> List.find p l.
Proof.
  intros Hpf. induction l as [|b l IH]; cbn [updateFirst List.find]; [done|].
  destruct (p b) eqn:Hpb; cbn [List.find].
  - by rewrite Hpf, Hpb.
  - by rewrite Hpb, IH.
Qed.

Lemma find_updateFirstRung p f rs :
  (forall b, p (f b) = p b) ->
  List.find p (flat_map branches (updateFirstRung p f rs))
  = f <$> List.find p (flat_map branches rs).
Proof.
  intros Hpf. induction rs as [|r rs IH]; cbn [updateFirstRung flat_map]; [done|].
  destruct (existsb p (branches r)) eqn:Hex; cbn [flat_map branches];
    rewrite !find_app_first.
  - rewrite find_updateFirst by done.
    destruct (List.find p (branches r)) as [b|] eqn:Hfind; [done|].
    pose proof (proj1 (find_none_iff _ _) Hfind) as Hnone.
    apply existsb_exists in Hex as (x & Hx & Hpx).
    rewrite Hnone in Hpx; [done | by apply list_elem_of_In].
  - rewrite (existsb_false_find _ _ Hex). exact IH.
Qed.

End UpdateFacts.

Section PutComponent.
Import LadderStructureEditor.

Lemma putComponent_replace c l l1 y l2 :
  l = (l1 ++ y :: l2)%list -> col y = col c ->
  (forall x, x ∈ l1 -> (col x =? col c) = false) ->
  putComponent c l = (l1 ++ c :: l2)%list.
Proof.
  intros -> Hy Hl1. unfold putComponent.
  assert (Hidx : findIndex (fun x => col x =? col c) (l1 ++ y :: l2) = Some (length l1)).
  { clear -Hy Hl1. induction l1 as [|x l1 IH]; cbn [findIndex app length].
    - by rewrite Hy, Z.eqb_refl.
    - rewrite (Hl1 x (list_elem_of_here _ _)).
      rewrite IH; [done|]. intros z Hz. by apply Hl1, list_elem_of_further. }
  rewrite Hidx.
  replace (length l1) with (length l1 + 0)%nat by lia.
  by rewrite insert_app_r.
Qed.

Lemma putComponent_cases c l :
  (exists l1 y l2, l = (l1 ++ y :: l2)%list /\ col y = col c /\
                   (forall x, x ∈ l1 -> (col x =? col c) = false) /\
                   putComponent c l = (l1 ++ c :: l2)%list)
  \/ ((forall x, x ∈ l -> (col x =? col c) = false) /\
      putComponent c l = js_sort byCol (l ++ [c])).
Proof.
  destruct (findIndex (fun x => col x =? col c) l) as [i|] eqn:Hidx.
  - left. apply findIndex_Some in Hidx as (l1 & y & l2 & Hl & _ & Hy & Hl1).
    apply Z.eqb_eq in Hy. exists l1, y, l2. repeat split; try done.
    by apply putComponent_replace with y.
  - right. split; [by apply findIndex_None|].
    unfold putComponent. by rewrite Hidx.
Qed.

Lemma find_putComponent c l :
  List.find (fun x => col x =? col c) (putComponent c l) = Some c.
Proof.
  destruct (putComponent_cases c l)
    as [(l1 & y & l2 & Hl & Hy & Hl1 & ->)|[Hnone ->]].
  - rewrite find_app_first.
    rewrite (proj2 (find_none_iff _ _) Hl1). cbn [List.find]. by rewrite Z.eqb_refl.
  - destruct (List.find _ _) as [x|] eqn:Hfind.
    + apply find_some in Hfind as [Hin Hx].
      apply list_elem_of_In in Hin. rewrite js_sort_perm in Hin.
      apply elem_of_app in Hin as [Hin|Hin].
      * rewrite (Hnone x Hin) in Hx. discriminate.
      * by apply list_elem_of_singleton in Hin as ->.
    + pose proof (proj1 (find_none_iff _ _) Hfind c) as Hc.
      cbn beta in Hc. rewrite Z.eqb_refl in Hc. assert (true = false); [|done]. apply Hc.
      rewrite js_sort_perm. apply elem_of_app. right. apply list_elem_of_here.
Qed.

Lemma ascending_cons x l :
  ascending (x :: l) <-> (forall y, y ∈ l -> col x < col y) /\ ascending l.
Proof.
  unfold ascending. rewrite StronglySorted_cons, Forall_forall. tauto.
Qed.

Lemma sort_insert_ascending c l :
  ascending l -> (forall x, x ∈ l -> col x <> col c) ->
  ascending (sort_insert byCol c l).
Proof.
  induction l as [|y l IH]; intros Hasc Hfresh; cbn [sort_insert].
  - apply ascending_cons. split; [|constructor].
    intros z Hz. by apply elem_of_nil in Hz.
  - apply ascending_cons in Hasc as [Hy Hl].
    pose proof (Hfresh y (list_elem_of_here _ _)) as Hyc.
    unfold byCol at 1. destruct (Z.leb_spec (col c - col y) 0) as [Hle|Hgt].
    + apply ascending_cons. split; [|by apply ascending_cons].
      intros z Hz. apply elem_of_cons in Hz as [->|Hz]; [lia|].
      specialize (Hy z Hz). lia.
    + apply ascending_cons. split.
      * intros z Hz. rewrite sort_insert_perm in Hz.
        apply elem_of_cons in Hz as [->|Hz]; [lia | by apply Hy].
      * apply IH; [done|]. intros z Hz. by apply Hfresh, list_elem_of_further.
Qed.

Lemma js_sort_push_ascending c l :
  ascending l -> (forall x, x ∈ l -> col x <> col c) ->
  ascending (js_sort byCol (l ++ [c])).
Proof.
  induction l as [|y l IH]; intros Hasc Hfresh; cbn [js_sort app sort_insert].
  - apply ascending_cons. split; [|constructor].
    intros z Hz. by apply elem_of_nil in Hz.
  - apply ascending_cons in Hasc as [Hy Hl].
    apply sort_insert_ascending.
    + apply IH; [done|]. intros z Hz. by apply Hfresh, list_elem_of_further.
    + intros z Hz. rewrite js_sort_perm in Hz.
      apply elem_of_app in Hz as [Hz|Hz].
      * specialize (Hy z Hz). lia.
      * apply list_elem_of_singleton in Hz as ->.
        pose proof (Hfresh y (list_elem_of_here _ _)). lia.
Qed.

Lemma ascending_middle l1 y l2 x :
  ascending (l1 ++ y :: l2) -> x ∈ (l1 ++ l2)%list -> col x <> col y.
Proof.
  unfold ascending. rewrite StronglySorted_app, StronglySorted_cons, Forall_forall.
  intros (H12 & _ & Hy & _) Hx. apply elem_of_app in Hx as [Hx|Hx].
  - specialize (H12 x y Hx (list_elem_of_here _ _)). lia.
  - specialize (Hy x Hx). lia.
Qed.

Lemma ascending_replace l1 y c l2 :
  col y = col c -> ascending (l1 ++ y :: l2) -> ascending (l1 ++ c :: l2).
Proof.
  unfold ascending. rewrite !StronglySorted_app, !StronglySorted_cons, !Forall_forall.
  intros Hy (H12 & H1 & Hy2 & H2). split; [|split; [done|split; [|done]]].
  - intros x1 x2 Hx1 Hx2. apply elem_of_cons in Hx2 as [->|Hx2].
    + rewrite <- Hy. apply H12; [done | apply list_elem_of_here].
    + apply H12; [done | by apply list_elem_of_further].
  - intros x Hx. rewrite <- Hy. by apply Hy2.
Qed.

(** What putComponent yields on a list that stands at ascending columns:
    an ascending list again, made of the new component and of the old ones
    that stand at other columns. *)
Lemma putComponent_ascending c l :
  ascending l ->
  ascending (putComponent c l) /\
  forall x, x ∈ putComponent c l <-> x = c \/ (x ∈ l /\ col x <> col c).
Proof.
  intros Hasc.
  destruct (putComponent_cases c l)
    as [(l1 & y & l2 & -> & Hy & Hl1 & ->)|[Hnone ->]].
  - split; [by apply (ascending_replace l1 y c l2)|].
    intros x. rewrite !elem_of_app, !elem_of_cons. split.
    + intros [Hx|[->|Hx]]; [right|by left|right].
      * split; [by left|]. rewrite <- Hy.
        apply (ascending_middle l1 y l2); [done|]. apply elem_of_app. by left.
      * split; [by right; right|]. rewrite <- Hy.
        apply (ascending_middle l1 y l2); [done|]. apply elem_of_app. by right.
    + intros [->|[[Hx|[->|Hx]] Hne]]; [by right; left | by left | done | by right; right].
  - assert (Hfresh : forall x, x ∈ l -> col x <> col c).
    { intros x Hx. apply Z.eqb_neq. by apply Hnone. }
    split; [by apply js_sort_push_ascending|].
    intros x. rewrite js_sort_perm, elem_of_app, list_elem_of_singleton. split.
    + intros [Hx| ->]; [right | by left]. split; [done | by apply Hfresh].
    + intros [->|[Hx _]]; [by right | by left].
Qed.
End PutComponent.

Section StructureEditor.
Import LadderStructureEditor.

Lemma findBranchAtRow_update r f e :
  (forall b, row (f b) = row b) ->
  LadderStructure.findBranchAtRow
    (LadderStructure.mk (updateFirstRung (fun b => row b =? r) f (rungs e))) r
  = f <$> LadderStructure.findBranchAtRow (structure e) r.
Proof.
  intros Hrow. unfold LadderStructure.findBranchAtRow, LadderStructure.getAllBranches.
  cbn [LadderStructure.rungs structure].
  apply find_updateFirstRung. intros b. by rewrite Hrow.
Qed.

(** X18: addComponent followed by getComponentAt at the same position gives
    back the component just placed, whether it replaced a component at that
    column or was added; on a row without a branch addComponent returns
    null and changes nothing. *)
Theorem addComponent_then_getComponentAt (r c : Z) (ty : ComponentType) (a : string)
    (e : t) :
  match LadderStructure.findBranchAtRow (structure e) r with
  | Some _ =>
      getComponentAt r c (snd (addComponent r c ty a e)) = Some (mkComponent ty a c)
      /\ is_Some (fst (addComponent r c ty a e))
  | None => addComponent r c ty a e = (None, e)
  end.
Proof.
  unfold addComponent, getComponentAt.
  destruct (LadderStructure.findBranchAtRow (structure e) r) as [b|] eqn:Hfind; [|done].
  cbn [snd fst]. split; [|by eexists].
  unfold structure at 1. cbn [rungs].
  rewrite findBranchAtRow_update by done. rewrite Hfind. cbn [fmap option_fmap option_map].
  cbn [withComponents components].
  apply (find_putComponent (mkComponent ty a c)).
Qed.

(** X19: addComponent keeps the column order of a branch.  When the
    components of the branch at the row stand at strictly ascending
    columns, they still do afterwards, and they are the new component plus
    the old components of the other columns: at most one component per
    column, sorted by column. *)
Theorem addComponent_keeps_ascending (r c : Z) (ty : ComponentType) (a : string)
    (e : t) (b : Branch) :
  LadderStructure.findBranchAtRow (structure e) r = Some b ->
  ascending (components b) ->
  exists b',
    fst (addComponent r c ty a e) = Some b' /\
    LadderStructure.findBranchAtRow (structure (snd (addComponent r c ty a e))) r
    = Some b' /\
    ascending (components b') /\
    forall x, x ∈ components b'
              <-> x = mkComponent ty a c \/ (x ∈ components b /\ col x <> c).
Proof.
  intros Hfind Hasc. unfold addComponent. rewrite Hfind. cbn [fst snd].
  eexists. split; [reflexivity|]. split.
  - unfold structure at 1. cbn [rungs].
    rewrite findBranchAtRow_update by done. by rewrite Hfind.
  - cbn [withComponents components].
    exact (putComponent_ascending (mkComponent ty a c) (components b) Hasc).
Qed.

Lemma addComponent_keeps_ascending_witness :
  exists b',
    fst (addComponent 0 3 NO "I:0/0" constructor) = Some b' /\
    LadderStructure.findBranchAtRow
      (structure (snd (addComponent 0 3 NO "I:0/0" constructor))) 0 = Some b' /\
    ascending (components b') /\
    forall x, x ∈ components b'
              <-> x = mkComponent NO "I:0/0" 3
                  \/ (x ∈ components (mkBranch 0 0 0 9 None None []) /\ col x <> 3).
Proof.
  exact (addComponent_keeps_ascending 0 3 NO "I:0/0" constructor
           (mkBranch 0 0 0 9 None None []) eq_refl (SSorted_nil _)).
Defined.

Lemma find_delete_first (c : Z) (l l1 : list Component) (y : Component)
    (l2 : list Component) :
  l = (l1 ++ y :: l2)%list -> col y = c ->
  (forall x, x ∈ l1 -> (col x =? c) = false) ->
  ascending l ->
  List.find (fun x => col x =? c) (delete (length l1) l) = None /\
  forall c', c' <> c ->
    List.find (fun x => col x =? c') (delete (length l1) l)
    = List.find (fun x => col x =? c') l.
Proof.
  intros -> Hy Hl1 Hasc. rewrite delete_middle. split.
  - apply find_none_iff. intros x Hx. apply Z.eqb_neq. rewrite <- Hy.
    by apply (ascending_middle l1 y l2).
  - intros c' Hc'. rewrite !find_app_first. cbn [List.find].
    by rewrite (proj2 (Z.eqb_neq (col y) c')) by congruence.
Qed.

(** X20: removeComponent empties the position.  When the components of the
    branch at the row stand at strictly ascending columns, getComponentAt
    finds nothing at the column afterwards, the call returns true exactly
    when there was a component to remove, and every other column of the row
    reads as before. *)
Theorem removeComponent_then_getComponentAt (r c : Z) (e : t) (b : Branch) :
  LadderStructure.findBranchAtRow (structure e) r = Some b ->
  ascending (components b) ->
  getComponentAt r c (snd (removeComponent r c e)) = None /\
  (fst (removeComponent r c e) = true <-> is_Some (getComponentAt r c e)) /\
  forall c', c' <> c ->
    getComponentAt r c' (snd (removeComponent r c e)) = getComponentAt r c' e.
Proof.
  intros Hfind Hasc. unfold removeComponent, getComponentAt. rewrite Hfind.
  destruct (findIndex (fun x => col x =? c) (components b)) as [i|] eqn:Hidx.
  - cbn [fst snd]. unfold structure. cbn [rungs].
    rewrite !findBranchAtRow_update by done. rewrite Hfind.
    cbn [fmap option_fmap option_map withComponents components].
    apply findIndex_Some in Hidx as (l1 & y & l2 & Hl & <- & Hy & Hl1).
    apply Z.eqb_eq in Hy.
    destruct (find_delete_first c (components b) l1 y l2 Hl Hy Hl1 Hasc) as [Hgone Hrest].
    split; [exact Hgone|]. split; [|exact Hrest].
    split; [|done]. intros _. rewrite Hl, find_app_first.
    rewrite (proj2 (find_none_iff _ _) Hl1). cbn [List.find].
    rewrite (proj2 (Z.eqb_eq _ _) Hy). by eexists.
  - cbn [fst snd]. rewrite Hfind.
    pose proof (proj1 (findIndex_None _ _) Hidx) as Hnone.
    rewrite (proj2 (find_none_iff _ _) Hnone).
    split; [done|]. split; [|done].
    split; [done|]. intros [x Hx]. discriminate.
Qed.

Lemma removeComponent_then_getComponentAt_witness :
  getComponentAt 0 3
    (snd (removeComponent 0 3 (snd (addComponent 0 3 NO "I:0/0" constructor)))) = None.
Proof.
  exact (proj1 (removeComponent_then_getComponentAt 0 3
                  (snd (addComponent 0 3 NO "I:0/0" constructor))
                  (mkBranch 0 0 0 9 None None [mkComponent NO "I:0/0" 3])
                  eq_refl
                  (SSorted_cons _ (SSorted_nil _) (Forall_nil_2 _)))).
Defined.

End StructureEditor.

Section AddThenRemove.
Import LadderStructureEditor.

Lemma ascending_without l1 y l2 : ascending (l1 ++ y :: l2) -> ascending (l1 ++ l2).
Proof.
  unfold ascending. rewrite !StronglySorted_app, !StronglySorted_cons, !Forall_forall.
  intros (H12 & H1 & _ & H2). split; [|done].
  intros x1 x2 Hx1 Hx2. apply H12; [done | by apply list_elem_of_further].
Qed.

(** A component put at a free column of an ascending list stands between
    the components that were there, which keep their order. *)
Lemma putComponent_free c l :
  ascending l -> (forall x, x ∈ l -> col x <> col c) ->
  exists l1 l2, putComponent c l = (l1 ++ c :: l2)%list /\ l = (l1 ++ l2)%list /\
                forall x, x ∈ (l1 ++ l2)%list -> (col x =? col c) = false.
Proof.
  intros Hasc Hfresh.
  destruct (putComponent_cases c l)
    as [(l1 & y & l2 & -> & Hy & _)|[_ Hput]].
  { exfalso. apply (Hfresh y); [|done].
    apply elem_of_app. right. apply list_elem_of_here. }
  assert (Hin : c ∈ putComponent c l).
  { rewrite Hput, js_sort_perm. apply elem_of_app. right. apply list_elem_of_here. }
  apply list_elem_of_split in Hin as (l1 & l2 & Hsplit).
  assert (Hsorted : ascending (l1 ++ c :: l2)).
  { rewrite <- Hsplit, Hput. by apply js_sort_push_ascending. }
  assert (Hperm : (l1 ++ l2)%list ≡ₚ l).
  { apply (Permutation_cons_inv (a := c)).
    rewrite Permutation_middle, <- Hsplit, Hput, js_sort_perm.
    by rewrite Permutation_app_comm. }
  assert (Heq : (l1 ++ l2)%list = l).
  { apply (StronglySorted_unique_strong (fun x y => col x < col y));
      [|by apply (ascending_without l1 c l2)|done|done].
    intros x1 x2 _ _ ? ?. lia. }
  exists l1, l2. split; [done|]. split; [done|].
  intros x Hx. apply Z.eqb_neq, Hfresh. by rewrite <- Heq.
Qed.

Lemma findIndex_middle {A : Type} (p : A -> bool) (l1 : list A) (y : A) (l2 : list A) :
  (forall x, x ∈ l1 -> p x = false) -> p y = true ->
  findIndex p (l1 ++ y :: l2) = Some (length l1).
Proof.
  intros Hl1 Hy. induction l1 as [|x l1 IH]; cbn [findIndex app length].
  - by rewrite Hy.
  - rewrite (Hl1 x (list_elem_of_here _ _)), IH; [done|].
    intros z Hz. by apply Hl1, list_elem_of_further.
Qed.

Lemma filter_middle (c : Z) (l1 : list Component) (y : Component) (l2 : list Component) :
  (forall x, x ∈ (l1 ++ l2)%list -> (col x =? c) = false) -> col y = c ->
  List.filter (fun x => negb (col x =? c)) (l1 ++ y :: l2) = (l1 ++ l2)%list.
Proof.
  intros Hrest Hy.
  assert (Hkeep : forall l : list Component,
             (forall x, x ∈ l -> (col x =? c) = false) ->
             List.filter (fun x => negb (col x =? c)) l = l).
  { induction l as [|x l IH]; intros Hl; cbn [List.filter]; [done|].
    rewrite (Hl x (list_elem_of_here _ _)). cbn [negb]. rewrite IH; [done|].
    intros z Hz. by apply Hl, list_elem_of_further. }
  rewrite List.filter_app. cbn [List.filter].
  rewrite (proj2 (Z.eqb_eq _ _) Hy). cbn [negb].
  rewrite !Hkeep; [done|..]; intros x Hx; apply Hrest, elem_of_app; auto.
Qed.

Lemma existsb_updateFirst p f l :
  (forall b, p (f b) = p b) -> existsb p (updateFirst p f l) = existsb p l.
Proof.
  intros Hp. induction l as [|b l IH]; cbn [updateFirst existsb]; [done|].
  destruct (p b) eqn:Hb; cbn [existsb].
  - by rewrite Hp, Hb.
  - by rewrite Hb, IH.
Qed.

(** Two updates of the first match, the second undoing the first on the
    branch that is found, leave the list as it was. *)
Lemma updateFirst_undo p f g l b :
  (forall x, p (f x) = p x) ->
  List.find p l = Some b -> g (f b) = b ->
  updateFirst p g (updateFirst p f l) = l.
Proof.
  intros Hp. induction l as [|x l IH]; cbn [List.find updateFirst]; [done|].
  intros Hfind Hundo. destruct (p x) eqn:Hx; cbn [updateFirst].
  - injection Hfind as ->. by rewrite Hp, Hx, Hundo.
  - rewrite Hx. f_equal. by apply IH.
Qed.

Lemma updateFirstRung_undo p f g rs b :
  (forall x, p (f x) = p x) ->
  List.find p (flat_map branches rs) = Some b -> g (f b) = b ->
  updateFirstRung p g (updateFirstRung p f rs) = rs.
Proof.
  intros Hp. induction rs as [|r rs IH]; cbn [flat_map updateFirstRung]; [done|].
  rewrite find_app_first. intros Hfind Hundo.
  destruct (existsb p (branches r)) eqn:Hex; cbn [updateFirstRung branches rung_id].
  - rewrite existsb_updateFirst, Hex by done.
    cbn [branches rung_id].
    destruct (List.find p (branches r)) as [b'|] eqn:Hb'.
    + injection Hfind as ->. rewrite (updateFirst_undo p f g _ b) by done.
      by destruct r.
    + apply existsb_exists in Hex as (x & Hx & Hpx).
      apply list_elem_of_In in Hx.
      rewrite (proj1 (find_none_iff _ _) Hb' x Hx) in Hpx. discriminate.
  - rewrite Hex. f_equal. apply IH; [|done].
    by rewrite (existsb_false_find _ _ Hex) in Hfind.
Qed.

(** X21: a component added at a free position and removed again leaves the
    structure as it was.  When the branch of the row has its components at
    strictly ascending columns and none at the column, removeComponent
    after addComponent returns true and gives back the very structure
    addComponent started from. *)
Theorem add_then_remove_restores (r c : Z) (ty : ComponentType) (a : string)
    (e : t) (b : Branch) :
  LadderStructure.findBranchAtRow (structure e) r = Some b ->
  ascending (components b) ->
  getComponentAt r c e = None ->
  removeComponent r c (snd (addComponent r c ty a e)) = (true, e).
Proof.
  intros Hfind Hasc Hfree.
  assert (Hfresh : forall x, x ∈ components b -> col x <> col (mkComponent ty a c)).
  { unfold getComponentAt in Hfree. rewrite Hfind in Hfree.
    intros x Hx. apply Z.eqb_neq. exact (proj1 (find_none_iff _ _) Hfree x Hx). }
  destruct (putComponent_free (mkComponent ty a c) (components b) Hasc Hfresh)
    as (l1 & l2 & Hput & Hl & Hrest).
  cbn [col] in Hrest.
  unfold addComponent. rewrite Hfind. cbn [snd].
  unfold removeComponent. unfold structure at 1. cbn [rungs].
  rewrite findBranchAtRow_update by done. rewrite Hfind.
  cbn [fmap option_fmap option_map withComponents components].
  rewrite Hput, (findIndex_middle _ l1 (mkComponent ty a c) l2).
  - cbn [rungs nextRungId nextBranchId gridCols gridRows].
    rewrite (updateFirstRung_undo _ _ _ (rungs e) b); [by destruct e|done|exact Hfind|].
    unfold withComponents.
    cbn [components id row start_col end_col parent_branch_id connection_col].
    rewrite Hput, delete_middle, <- Hl. by destruct b.
  - intros x Hx. apply Hrest, elem_of_app. by left.
  - cbn [col]. apply Z.eqb_refl.
Qed.

Lemma add_then_remove_restores_witness :
  removeComponent 0 3 (snd (addComponent 0 3 NO "I:0/0" constructor))
  = (true, constructor).
Proof.
  exact (add_then_remove_restores 0 3 NO "I:0/0" constructor
           (mkBranch 0 0 0 9 None None []) eq_refl (SSorted_nil _) eq_refl).
Defined.

End AddThenRemove.
(** * Branches of the diagram: createBranch, fromJSON, cleanupEmptyBranches *)

Section BranchEditor.
Import LadderStructureEditor.

Lemma find_skip_middle {A : Type} (p : A -> bool) (l1 : list A) (x : A) (l2 : list A) :
  p x = false -> List.find p (l1 ++ x :: l2) = List.find p (l1 ++ l2).
Proof.
  intros Hx. rewrite !find_app_first. cbn [List.find]. by rewrite Hx.
Qed.

(** The branches after createBranch: the new one stands at the end of the
    first rung. *)
Lemma createBranch_branches (parentRow connectionCol newRow startCol endCol : Z)
    (e : t) (parent : Branch) :
  LadderStructure.findBranchAtRow (structure e) parentRow = Some parent ->
  exists l1 l2,
    LadderStructure.getAllBranches (structure e) = (l1 ++ l2)%list /\
    LadderStructure.getAllBranches
      (structure (snd (createBranch parentRow connectionCol newRow startCol endCol e)))
    = (l1 ++ mkBranch (nextBranchId e) newRow startCol endCol
                      (Some (id parent)) (Some connectionCol) [] :: l2)%list.
Proof.
  intros Hfind. unfold createBranch. rewrite Hfind. cbn [snd].
  unfold LadderStructure.findBranchAtRow, LadderStructure.getAllBranches in *.
  unfold structure in *. cbn [LadderStructure.rungs rungs] in *.
  destruct (rungs e) as [|r0 rs]; [discriminate|].
  exists (branches r0), (flat_map branches rs).
  split; [done|]. cbn [flat_map branches]. by rewrite <- app_assoc.
Qed.

(** X22: createBranch hangs the new branch on its parent.  When a branch
    stands at the parent row and the new row is another row, the parent row
    afterwards has a vertical connection at the connection column, and the
    new branch is among the child branches of the parent. *)
Theorem createBranch_connects (parentRow connectionCol newRow startCol endCol : Z)
    (e : t) (parent : Branch) :
  LadderStructure.findBranchAtRow (structure e) parentRow = Some parent ->
  newRow <> parentRow ->
  let e' := snd (createBranch parentRow connectionCol newRow startCol endCol e) in
  hasVerticalConnection parentRow connectionCol e' = true /\
  exists nb, fst (createBranch parentRow connectionCol newRow startCol endCol e) = Some nb
             /\ nb ∈ getChildBranches (Some (id parent)) e'
             /\ row nb = newRow /\ components nb = [].
Proof.
  intros Hfind Hrow e'.
  destruct (createBranch_branches parentRow connectionCol newRow startCol endCol
              e parent Hfind) as (l1 & l2 & Hold & Hnew).
  fold e' in Hnew.
  set (nb := mkBranch (nextBranchId e) newRow startCol endCol
                      (Some (id parent)) (Some connectionCol) []) in *.
  assert (Hparent : LadderStructure.findBranchAtRow (structure e') parentRow
                    = Some parent).
  { unfold LadderStructure.findBranchAtRow in *. rewrite Hnew, find_skip_middle.
    - by rewrite <- Hold.
    - subst nb. cbn [row]. by apply Z.eqb_neq. }
  assert (Hchild : nb ∈ getChildBranches (Some (id parent)) e').
  { unfold getChildBranches. rewrite Hnew. apply list_elem_of_In, filter_In. split.
    - apply list_elem_of_In, elem_of_app. right. apply list_elem_of_here.
    - subst nb. cbn [parent_branch_id]. by apply bool_decide_eq_true. }
  split.
  - unfold hasVerticalConnection. rewrite Hparent.
    apply existsb_exists. exists nb. split; [by apply list_elem_of_In|].
    subst nb. cbn [connection_col]. by apply bool_decide_eq_true.
  - exists nb. split; [|done].
    unfold createBranch. by rewrite Hfind.
Qed.

Lemma createBranch_connects_witness :
  hasVerticalConnection 0 2 (snd (createBranch 0 2 1 2 5 constructor)) = true /\
  exists nb, fst (createBranch 0 2 1 2 5 constructor) = Some nb
             /\ nb ∈ getChildBranches (Some (id (mkBranch 0 0 0 9 None None [])))
                                      (snd (createBranch 0 2 1 2 5 constructor))
             /\ row nb = 1 /\ components nb = [].
Proof.
  apply (createBranch_connects 0 2 1 2 5 constructor (mkBranch 0 0 0 9 None None [])
           eq_refl).
  lia.
Defined.


Lemma constructor_freshIds : freshIds constructor.
Proof.
  intros b Hb. cbn in Hb. apply list_elem_of_singleton in Hb as ->. done.
Qed.


End BranchEditor.

Section Reload.
Import LadderStructureEditor.

(** The running maximum of fromJSON over the branches of one rung. *)
Lemma bump_branches (m : Z) (l : list Branch) :
  let m' := foldl (fun m b => if m <=? id b then id b + 1 else m) m l in
  m <= m' /\ forall b, b ∈ l -> id b < m'.
Proof.
  revert m. induction l as [|x l IH]; intros m; cbn [foldl].
  - split; [lia|]. intros b Hb. by apply elem_of_nil in Hb.
  - destruct (IH (if m <=? id x then id x + 1 else m)) as [Hle Hall].
    destruct (Z.leb_spec m (id x)); (split; [lia|]);
      intros b Hb; apply elem_of_cons in Hb as [->|Hb]; try lia; by apply Hall.
Qed.

Lemma bump_rungs (m : Z) (rs : list Rung) :
  let m' := foldl (fun m r =>
                     foldl (fun m b => if m <=? id b then id b + 1 else m) m (branches r))
                  m rs in
  m <= m' /\ forall b, b ∈ flat_map branches rs -> id b < m'.
Proof.
  revert m. induction rs as [|r rs IH]; intros m; cbn [foldl flat_map].
  - split; [lia|]. intros b Hb. by apply elem_of_nil in Hb.
  - destruct (bump_branches m (branches r)) as [Hle1 Hall1].
    destruct (IH (foldl (fun m b => if m <=? id b then id b + 1 else m) m (branches r)))
      as [Hle2 Hall2].
    split; [lia|]. intros b Hb. apply elem_of_app in Hb as [Hb|Hb].
    + specialize (Hall1 b Hb). lia.
    + by apply Hall2.
Qed.

(** The running maximum stays below any bound of the start value and of
    the ids. *)
Lemma bump_branches_bound (n m : Z) (l : list Branch) :
  m <= n -> (forall b, b ∈ l -> id b < n) ->
  foldl (fun m b => if m <=? id b then id b + 1 else m) m l <= n.
Proof.
  revert m. induction l as [|x l IH]; intros m Hm Hl; cbn [foldl]; [done|].
  apply IH.
  - pose proof (Hl x (list_elem_of_here _ _)). destruct (m <=? id x); lia.
  - intros b Hb. by apply Hl, list_elem_of_further.
Qed.

Lemma bump_rungs_bound (n m : Z) (rs : list Rung) :
  m <= n -> (forall b, b ∈ flat_map branches rs -> id b < n) ->
  foldl (fun m r =>
           foldl (fun m b => if m <=? id b then id b + 1 else m) m (branches r))
        m rs <= n.
Proof.
  revert m. induction rs as [|r rs IH]; intros m Hm Hl; cbn [foldl]; [done|].
  cbn [flat_map] in Hl. apply IH.
  - apply bump_branches_bound; [done|]. intros b Hb. apply Hl, elem_of_app. by left.
  - intros b Hb. apply Hl, elem_of_app. by right.
Qed.


(** X25: a structure saved with toJSON and loaded with fromJSON has the same
    rungs, and the same grid size when neither dimension is 0.  The id
    counter is not saved: it is computed again from the ids in use, so when
    every id was below the old counter (itself not negative) the new counter
    is at most the old one, and still above every id. *)
Theorem toJSON_fromJSON_round_trip (e e0 : t) :
  gridCols e <> 0 -> gridRows e <> 0 ->
  freshIds e -> 0 <= nextBranchId e ->
  let e' := fromJSON (toJSON e) e0 in
  rungs e' = rungs e /\ gridCols e' = gridCols e /\ gridRows e' = gridRows e /\
  nextBranchId e' <= nextBranchId e /\ freshIds e'.
Proof.
  intros Hc Hr Hfresh Hnext e'. subst e'.
  unfold fromJSON, toJSON.
  cbn [json_rungs json_grid_cols json_grid_rows default rungs gridCols gridRows
       nextBranchId orDefault].
  rewrite (proj2 (Z.eqb_neq _ _) Hc), (proj2 (Z.eqb_neq _ _) Hr).
  split; [done|]. split; [done|]. split; [done|]. split.
  - by apply bump_rungs_bound.
  - intros b Hb. cbn [nextBranchId]. by apply (bump_rungs 0 (rungs e)).
Qed.

Lemma toJSON_fromJSON_round_trip_witness :
  rungs (fromJSON (toJSON constructor) constructor) = rungs constructor /\
  gridCols (fromJSON (toJSON constructor) constructor) = gridCols constructor /\
  gridRows (fromJSON (toJSON constructor) constructor) = gridRows constructor /\
  nextBranchId (fromJSON (toJSON constructor) constructor) <= nextBranchId constructor /\
  freshIds (fromJSON (toJSON constructor) constructor).
Proof.
  apply (toJSON_fromJSON_round_trip constructor constructor).
  - cbn. lia.
  - cbn. lia.
  - exact constructor_freshIds.
  - cbn. lia.
Defined.

End Reload.

Section Cleanup.
Import LadderStructureEditor.

(** The filter of cleanupEmptyBranches adds no branch. *)
Lemma cleanupRungs_subset (finished todo : list Rung) (b : Branch) :
  b ∈ flat_map branches (cleanupRungs finished todo) ->
  b ∈ flat_map branches (finished ++ todo).
Proof.
  revert finished. induction todo as [|r todo IH]; intros finished; cbn [cleanupRungs].
  - by rewrite app_nil_r.
  - intros Hb. apply IH in Hb. rewrite <- app_assoc in Hb. cbn [app] in Hb.
    rewrite !flat_map_app in *. cbn [flat_map branches] in *.
    rewrite !elem_of_app in *. destruct Hb as [Hb|[Hb|Hb]]; [by left| |by right; right].
    right. left. apply list_elem_of_In in Hb. apply filter_In in Hb as [Hb _].
    by apply list_elem_of_In.
Qed.

Lemma cleanupRungs_keeps (finished todo : list Rung) (b : Branch) :
  b ∈ flat_map branches (finished ++ todo) ->
  parent_branch_id b = None \/ components b <> [] ->
  b ∈ flat_map branches (cleanupRungs finished todo).
Proof.
  revert finished. induction todo as [|r todo IH]; intros finished; cbn [cleanupRungs].
  - by rewrite app_nil_r.
  - intros Hb Hkeep. apply IH; [|done]. rewrite <- app_assoc. cbn [app].
    rewrite !flat_map_app in *. cbn [flat_map branches] in *.
    rewrite !elem_of_app in *. destruct Hb as [Hb|[Hb|Hb]]; [by left| |by right; right].
    right. left. apply list_elem_of_In, filter_In. split; [by apply list_elem_of_In|].
    destruct Hkeep as [Hroot|Hcomp].
    + by rewrite (bool_decide_eq_true_2 _ Hroot).
    + destruct (components b); [done|]. cbn [length]. apply orb_true_iff. left.
      apply orb_true_iff. by right.
Qed.

Lemma cleanupRungs_drops (finished todo : list Rung) (b : Branch) :
  (forall x, x ∈ flat_map branches (finished ++ todo) ->
             parent_branch_id x <> Some (id b)) ->
  parent_branch_id b <> None -> components b = [] ->
  b ∈ flat_map branches (cleanupRungs finished todo) ->
  b ∈ flat_map branches finished.
Proof.
  revert finished. induction todo as [|r todo IH]; intros finished; cbn [cleanupRungs].
  - done.
  - intros Hnone Hparent Hempty Hb.
    assert (Hnone' : forall x,
               x ∈ flat_map branches
                     ((finished ++ [mkRung (rung_id r)
                         (List.filter
                            (fun b0 =>
                               bool_decide (parent_branch_id b0 = None)
                               || (0 <? length (components b0))%nat
                               || (0 <? length (List.filter
                                     (fun x => bool_decide
                                                 (parent_branch_id x = Some (id b0)))
                                     (flat_map branches (finished ++ r :: todo))))%nat)
                            (branches r))]) ++ todo) ->
               parent_branch_id x <> Some (id b)).
    { intros x Hx. apply Hnone. rewrite <- app_assoc in Hx. cbn [app] in Hx.
      rewrite !flat_map_app in *. cbn [flat_map branches] in *.
      rewrite !elem_of_app in *. destruct Hx as [Hx|[Hx|Hx]]; [by left| |by right; right].
      right. left. apply list_elem_of_In in Hx. apply filter_In in Hx as [Hx _].
      by apply list_elem_of_In. }
    apply (IH _ Hnone' Hparent Hempty) in Hb.
    rewrite flat_map_app in Hb. cbn [flat_map branches] in Hb.
    rewrite app_nil_r in Hb. apply elem_of_app in Hb as [Hb|Hb]; [done|].
    apply list_elem_of_In, filter_In in Hb as [_ Hkeep]. exfalso.
    rewrite (bool_decide_eq_false_2 _ Hparent), Hempty in Hkeep.
    cbn [length orb] in Hkeep.
    assert (Hfilter : List.filter
              (fun x => bool_decide (parent_branch_id x = Some (id b)))
              (flat_map branches (finished ++ r :: todo)) = []).
    { destruct (List.filter _ _) as [|x l] eqn:Hf; [done|]. exfalso.
      assert (Hx : In x (List.filter
                (fun x => bool_decide (parent_branch_id x = Some (id b)))
                (flat_map branches (finished ++ r :: todo)))).
      { rewrite Hf. by left. }
      apply filter_In in Hx as [Hx Hpx]. apply bool_decide_eq_true in Hpx.
      by apply (Hnone x); [apply list_elem_of_In|]. }
    rewrite Hfilter in Hkeep. cbn in Hkeep. discriminate.
Qed.

Lemma maxRow_bound (m : Z) (l : list Branch) :
  let m' := foldl (fun m b => if m <? row b then row b else m) m l in
  m <= m' /\ forall b, b ∈ l -> row b <= m'.
Proof.
  revert m. induction l as [|x l IH]; intros m; cbn [foldl].
  - split; [lia|]. intros b Hb. by apply elem_of_nil in Hb.
  - destruct (IH (if m <? row x then row x else m)) as [Hle Hall].
    destruct (Z.ltb_spec m (row x)); (split; [lia|]);
      intros b Hb; apply elem_of_cons in Hb as [->|Hb]; try lia; by apply Hall.
Qed.

(** X26: cleanupEmptyBranches only removes: every branch left was there
    before; it never removes a branch without parent nor a branch that
    holds a component; it does remove a branch with a parent, no component
    and no child branch; and afterwards the grid has at least 3 rows and
    every branch left stands on a row of the grid. *)
Theorem cleanupEmptyBranches_keeps (e : t) :
  let e' := cleanupEmptyBranches e in
  (forall b, b ∈ LadderStructure.getAllBranches (structure e') ->
             b ∈ LadderStructure.getAllBranches (structure e)) /\
  (forall b, b ∈ LadderStructure.getAllBranches (structure e) ->
             parent_branch_id b = None \/ components b <> [] ->
             b ∈ LadderStructure.getAllBranches (structure e')) /\
  (forall b, parent_branch_id b <> None -> components b = [] ->
             getChildBranches (Some (id b)) e = [] ->
             b ∉ LadderStructure.getAllBranches (structure e')) /\
  3 <= gridRows e' /\
  (forall b, b ∈ LadderStructure.getAllBranches (structure e') -> row b < gridRows e').
Proof.
  intros e'. subst e'.
  unfold cleanupEmptyBranches, getChildBranches, LadderStructure.getAllBranches,
    structure. cbn [rungs gridRows LadderStructure.rungs].
  split; [|split; [|split; [|split]]].
  - intros b Hb. by apply cleanupRungs_subset in Hb.
  - intros b Hb Hkeep. by apply cleanupRungs_keeps.
  - intros b Hparent Hempty Hchildren Hb.
    apply cleanupRungs_drops in Hb; [by apply elem_of_nil in Hb| |done..].
    intros x Hx Hpx. cbn [app] in Hx.
    assert (Hin : In x (List.filter
              (fun b0 => bool_decide (parent_branch_id b0 = Some (id b)))
              (flat_map branches (rungs e)))).
    { apply filter_In. split; [by apply list_elem_of_In|].
      by apply bool_decide_eq_true. }
    by rewrite Hchildren in Hin.
  - lia.
  - intros b Hb.
    pose proof (proj2 (maxRow_bound 0 (flat_map branches (cleanupRungs [] (rungs e))))
                  b Hb). cbn zeta in H. lia.
Qed.

End Cleanup.
(** * Editing through class LadderData *)

Section DataEditor.
Import LadderDataEditor.
Import LadderStructureEditor (ascending).

Lemma find_row_elem_of (r : Z) (l : list Branch) :
  List.find (fun b => row b =? r) l = None <-> r ∉ row <$> l.
Proof.
  rewrite find_none_iff, list_elem_of_fmap. split.
  - intros Hnone (b & -> & Hb). specialize (Hnone b Hb). cbn beta in Hnone.
    by rewrite Z.eqb_refl in Hnone.
  - intros Hnot b Hb. apply Z.eqb_neq. intros <-. apply Hnot. by exists b.
Qed.

(** X27: addBranch never puts two branches on one row.  When the rows of
    the branches are pairwise different they still are afterwards, a
    branch stands at the row (the one that was there, or the new one), and
    getBranch answers as before for every other row. *)
Theorem addBranch_rows_distinct (r s e c : Z) (d : LadderData.t) :
  NoDup (row <$> LadderData.branches0 d) ->
  NoDup (row <$> LadderData.branches0 (addBranch r s e c d)) /\
  is_Some (getBranch r (addBranch r s e c d)) /\
  forall r', r' <> r -> getBranch r' (addBranch r s e c d) = getBranch r' d.
Proof.
  intros Hnodup. unfold addBranch, getBranch.
  destruct (List.find (fun b => row b =? r) (LadderData.branches0 d)) as [b|] eqn:Hfind.
  - split; [done|]. split; [|done]. rewrite Hfind. by eexists.
  - cbn [LadderData.branches0]. split; [|split].
    + rewrite fmap_app. apply NoDup_app. split; [done|]. split.
      * intros x Hx Hx'. cbn in Hx'. apply list_elem_of_singleton in Hx' as ->.
        by apply find_row_elem_of in Hfind.
      * cbn. apply NoDup_singleton.
    + rewrite find_app_first, Hfind. cbn [List.find row]. rewrite Z.eqb_refl.
      by eexists.
    + intros r' Hr'. rewrite find_app_first.
      destruct (List.find (fun b => row b =? r') (LadderData.branches0 d)); [done|].
      cbn [List.find row]. by rewrite (proj2 (Z.eqb_neq r r')) by congruence.
Qed.

Lemma addBranch_rows_distinct_witness :
  NoDup (row <$> LadderData.branches0 (addBranch 2 0 9 4 constructor)) /\
  is_Some (getBranch 2 (addBranch 2 0 9 4 constructor)) /\
  forall r', r' <> 2 -> getBranch r' (addBranch 2 0 9 4 constructor)
                        = getBranch r' constructor.
Proof.
  apply (addBranch_rows_distinct 2 0 9 4 constructor).
  cbn. apply NoDup_cons. split.
  - intros H. apply list_elem_of_singleton in H. discriminate.
  - apply NoDup_singleton.
Defined.

Lemma filter_rows_free (r : Z) (l : list Branch) :
  List.find (fun b => row b =? r) l = None ->
  List.filter (fun b => negb (row b =? r)) l = l.
Proof.
  induction l as [|x l IH]; cbn [List.find List.filter]; [done|].
  destruct (row x =? r); [discriminate|]. intros Hfind. cbn [negb]. by rewrite IH.
Qed.

(** X28: a branch added on a free row and removed again leaves the data as
    they were. *)
Theorem removeBranch_after_addBranch (r s e c : Z) (d : LadderData.t) :
  getBranch r d = None ->
  removeBranch r (addBranch r s e c d) = d.
Proof.
  unfold getBranch, removeBranch, addBranch. intros Hfree. rewrite Hfree.
  cbn [LadderData.branches0 LadderData.inputs LadderData.outputs].
  rewrite List.filter_app, (filter_rows_free r _ Hfree).
  cbn [List.filter row]. rewrite Z.eqb_refl. cbn [negb].
  rewrite app_nil_r. by destruct d.
Qed.

Lemma removeBranch_after_addBranch_witness :
  removeBranch 2 (addBranch 2 0 9 4 constructor) = constructor.
Proof.
  exact (removeBranch_after_addBranch 2 0 9 4 constructor eq_refl).
Defined.

(** X29: in LadderData too a component added at a free position and removed
    again leaves the data as they were, when the components of the branch
    stand at strictly ascending columns; both calls return true. *)
Theorem data_add_then_remove_restores (r c : Z) (ty : ComponentType) (a : string)
    (d : LadderData.t) (b : Branch) :
  getBranch r d = Some b ->
  ascending (components b) ->
  List.find (fun x => col x =? c) (components b) = None ->
  fst (addComponent r c ty a d) = true /\
  removeComponent r c (snd (addComponent r c ty a d)) = (true, d).
Proof.
  unfold getBranch. intros Hfind Hasc Hfree.
  assert (Hfresh : forall x, x ∈ components b -> col x <> col (mkComponent ty a c)).
  { intros x Hx. apply Z.eqb_neq. exact (proj1 (find_none_iff _ _) Hfree x Hx). }
  destruct (putComponent_free (mkComponent ty a c) (components b) Hasc Hfresh)
    as (l1 & l2 & Hput & Hl & Hrest).
  cbn [col] in Hrest.
  unfold addComponent. rewrite Hfind. cbn [fst snd]. split; [done|].
  unfold removeComponent. cbn [LadderData.branches0 LadderData.inputs LadderData.outputs].
  rewrite find_updateFirst by done. rewrite Hfind.
  cbn [fmap option_fmap option_map].
  rewrite (updateFirst_undo _ _ _ (LadderData.branches0 d) b);
    [by destruct d|done|exact Hfind|].
  unfold withComponents.
  cbn [components id row start_col end_col parent_branch_id connection_col].
  rewrite Hput, (filter_middle c l1 (mkComponent ty a c) l2 Hrest eq_refl), <- Hl. by destruct b.
Qed.

Lemma data_add_then_remove_restores_witness :
  fst (addComponent 1 4 NC "I:0/1" constructor) = true /\
  removeComponent 1 4 (snd (addComponent 1 4 NC "I:0/1" constructor))
  = (true, constructor).
Proof.
  exact (data_add_then_remove_restores 1 4 NC "I:0/1" constructor
           (mkBranch 1 1 0 9 (Some 0) (Some 0) []) eq_refl (SSorted_nil _) eq_refl).
Defined.

End DataEditor.
